(** * Belgium-law-mcp: ingestion pipeline, shallow embedding

    The development follows the TypeScript sources:
    - the Justel fetcher (rate limiting, retries, URL construction),
    - the Justel parser (year index, article splitting, markup cleaning),
    - the database builder (provision consolidation),
    - the ingestion driver (Dutch content stage).

    JavaScript strings are sequences of UTF-16 code units; they are modelled
    as lists of [N].  Regular expressions of the sources are embedded as the
    hand-written matchers of exactly those expressions. *)

From Stdlib Require Import Strings.String Strings.Ascii.
From Stdlib Require Import List NArith ZArith Lia Bool Arith.
Import ListNotations.

Set Implicit Arguments.
Set Warnings "-register-all".

(* ------------------------------------------------------------------ *)
(** ** JavaScript strings *)
(* ------------------------------------------------------------------ *)

Module Js.

Definition char := N.
Definition jsstring := list char.

(** Literal of the sources, written with ASCII characters. *)
Definition lit (s : String.string) : jsstring :=
  map Ascii.N_of_ascii (String.list_ascii_of_string s).

Definition ceq (a b : char) : bool := N.eqb a b.

Fixpoint str_eqb (a b : jsstring) : bool :=
  match a, b with
  | [], [] => true
  | x :: a', y :: b' => ceq x y && str_eqb a' b'
  | _, _ => false
  end.

(** White space and line terminators of ECMAScript: the class [\s] and the
    characters removed by [String.prototype.trim]. *)
Definition is_ws (c : char) : bool :=
  ((9 <=? c) && (c <=? 13) || (c =? 32) || (c =? 160) || (c =? 5760)
   || ((8192 <=? c) && (c <=? 8202)) || (c =? 8232) || (c =? 8233)
   || (c =? 8239) || (c =? 8287) || (c =? 12288) || (c =? 65279))%N.

Definition is_digit (c : char) : bool := ((48 <=? c) && (c <=? 57))%N.

Definition is_upper (c : char) : bool := ((65 <=? c) && (c <=? 90))%N.
Definition is_lower (c : char) : bool := ((97 <=? c) && (c <=? 122))%N.

(** Case folding of an ASCII letter, as the [i] flag compares the letters
    of these patterns: a code unit above 127 never folds to an ASCII one. *)
Definition upper_ascii (c : char) : char :=
  if is_lower c then (c - 32)%N else c.

Definition ceq_ci (p c : char) : bool := ceq (upper_ascii p) (upper_ascii c).

Fixpoint dropWhile (f : char -> bool) (s : jsstring) : jsstring :=
  match s with
  | [] => []
  | c :: r => if f c then dropWhile f r else s
  end.

Fixpoint takeWhile (f : char -> bool) (s : jsstring) : jsstring :=
  match s with
  | [] => []
  | c :: r => if f c then c :: takeWhile f r else []
  end.

Definition trimStart (s : jsstring) : jsstring := dropWhile is_ws s.
Definition trimEnd (s : jsstring) : jsstring := rev (dropWhile is_ws (rev s)).
Definition trim (s : jsstring) : jsstring := trimEnd (trimStart s).

(** [s.startsWith(p)] *)
Fixpoint startsWith (p s : jsstring) : bool :=
  match p, s with
  | [], _ => true
  | x :: p', c :: s' => ceq x c && startsWith p' s'
  | _ :: _, [] => false
  end.

(** the same, letters compared without case *)
Fixpoint startsWith_ci (p s : jsstring) : bool :=
  match p, s with
  | [], _ => true
  | x :: p', c :: s' => ceq_ci x c && startsWith_ci p' s'
  | _ :: _, [] => false
  end.

(** [s.indexOf(p)]: [None] stands for -1. *)
Fixpoint indexOf (p s : jsstring) : option nat :=
  if startsWith p s then Some 0
  else match s with
       | [] => None
       | _ :: r => option_map S (indexOf p r)
       end.

Definition includes (p s : jsstring) : bool :=
  match indexOf p s with Some _ => true | None => false end.

(** [s.substring(a, b)] for [a <= b] and [s.substring(a)]. *)
Definition substring (a b : nat) (s : jsstring) : jsstring :=
  firstn (b - a) (skipn a s).
Definition substringFrom (a : nat) (s : jsstring) : jsstring := skipn a s.

(** [s.split(sep)] on a one-character separator. *)
Fixpoint split (sep : char) (s : jsstring) : list jsstring :=
  match s with
  | [] => [[]]
  | c :: r =>
      if ceq c sep then [] :: split sep r
      else match split sep r with
           | l :: ls => (c :: l) :: ls
           | [] => [[c]]
           end
  end.

(** [a.join(sep)] *)
Fixpoint join (sep : jsstring) (ls : list jsstring) : jsstring :=
  match ls with
  | [] => []
  | [l] => l
  | l :: ls' => l ++ sep ++ join sep ls'
  end.

(** Truthiness of a string: [Boolean(s)], [!s], [s || t]. *)
Definition truthy (s : jsstring) : bool :=
  match s with [] => false | _ :: _ => true end.

(** Matcher of a regular expression at the head of a suffix of the subject:
    the number of code units the match consumes, with what it yields. *)
Definition matcher (A : Type) := jsstring -> option (nat * A).

(** [s.replace(/re/g, f)] for an expression that never matches the empty
    string: leftmost matches, scanning resumes behind each match. *)
Fixpoint replace_from (m : matcher jsstring) (fuel : nat) (s : jsstring)
  : jsstring :=
  match fuel with
  | 0 => s
  | S f =>
      match s with
      | [] => []
      | c :: r =>
          match m s with
          | Some (n, rep) => rep ++ replace_from m f (skipn (Nat.pred n) r)
          | None => c :: replace_from m f r
          end
      end
  end.

Definition replaceAll (m : matcher jsstring) (s : jsstring) : jsstring :=
  replace_from m (length s) s.

(** [/\s+/g], replaced by one space *)
Definition wsRun : matcher jsstring := fun s =>
  match takeWhile is_ws s with
  | [] => None
  | run => Some (length run, [32%N])
  end.

(** [re.exec(s)] and [s.match(/re/)] without the [g] flag: leftmost position
    at which the expression matches, for an expression that needs at least
    one code unit. *)
Fixpoint search (A : Type) (m : jsstring -> option A) (s : jsstring)
  : option (nat * A) :=
  match s with
  | [] => None
  | _ :: r =>
      match m s with
      | Some hit => Some (0, hit)
      | None =>
          match search m r with
          | Some (i, hit) => Some (S i, hit)
          | None => None
          end
      end
  end.

(** Decimal digits of a number: [String(n)] and the template [`${n}`] for a
    non-negative integer. *)
Fixpoint digits_from (fuel : nat) (n : N) (acc : jsstring) : jsstring :=
  match fuel with
  | 0 => acc
  | S f =>
      let acc' := (48 + n mod 10)%N :: acc in
      if (n <? 10)%N then acc' else digits_from f (n / 10)%N acc'
  end.

Definition toString10 (n : N) : jsstring :=
  digits_from (S (N.to_nat (N.log2 n))) n [].

(** [parseInt(s, 10)] on a string of decimal digits. *)
Definition parseDigits (s : jsstring) : N :=
  fold_left (fun acc c => (10 * acc + (c - 48))%N) s 0%N.

End Js.

(* ------------------------------------------------------------------ *)
(** ** The fetcher: URL construction, rate limiting, retries *)
(* ------------------------------------------------------------------ *)

Module Fetcher.
Import Js.
Local Open Scope Z_scope.

Definition BASE_URL : jsstring :=
  Eval cbv in lit "http://www.ejustice.just.fgov.be".
Definition RATE_LIMIT_MS : Z := 500.
Definition maxRetries : N := 3.

(** The language selector ['fr' | 'nl']. *)
Inductive Lang := Fr | Nl.

Definition pathSegment (lang : Lang) : jsstring :=
  match lang with Fr => lit "loi" | Nl => lit "wet" end.

(** [buildJustelUrl(year, month, day, numac, lang)] *)
Definition buildJustelUrl (year : N) (month day numac : jsstring)
  (lang : Lang) : jsstring :=
  BASE_URL ++ lit "/eli/" ++ pathSegment lang ++ lit "/" ++ toString10 year
    ++ lit "/" ++ month ++ lit "/" ++ day ++ lit "/" ++ numac
    ++ lit "/justel".

(** A thrown [Error] object; [String(error)] prints the name and the
    message. *)
Record Error := { err_name : jsstring; err_message : jsstring }.

Definition newError (message : jsstring) : Error :=
  {| err_name := lit "Error"; err_message := message |}.

Definition String_of_error (e : Error) : jsstring :=
  match err_name e, err_message e with
  | [], m => m
  | n, [] => n
  | n, m => n ++ lit ": " ++ m
  end.

(** What the network does with one request: [fetch] rejects, or it resolves
    with a status and a body whose reading succeeds or rejects. *)
Inductive Body :=
| BodyBytes (bytes : list N)
| BodyFails (e : Error).

Inductive Outcome :=
| Rejects (e : Error)
| Responds (status : N) (body : Body).

(** The environment of a run: what the k-th request is answered, how long
    it takes, and by how much the k-th timer fires late. *)
Record Env := {
  outcome : nat -> jsstring -> Outcome;
  latency : nat -> N;
  timerLag : nat -> N
}.

(** What a run leaves behind: a request initiated at a time, with the
    number of the attempt it belongs to, or a timer started. *)
Inductive Event :=
| Request (time : Z) (attempt : N) (url : jsstring)
| Timer (time : Z) (ms : Z).

(** Process state: the clock read by [Date.now()], the module variable
    [lastRequestTime], the requests and timers issued so far, and the
    history of the run, latest event first. *)
Record World := {
  clock : Z;
  lastRequestTime : Z;
  requests : nat;
  timers : nat;
  trace : list Event
}.

Definition M (A : Type) : Type := World -> A * World.
Definition ret (A : Type) (a : A) : M A := fun w => (a, w).
Definition bind (A B : Type) (m : M A) (k : A -> M B) : M B :=
  fun w => let (a, w') := m w in k a w'.

Declare Scope fetch_scope.
Delimit Scope fetch_scope with fetch.
Notation "x <- m ;; k" := (bind m (fun x => k))
  (at level 61, m at next level, right associativity) : fetch_scope.
Notation "m ;;; k" := (bind m (fun _ => k))
  (at level 61, right associativity) : fetch_scope.
Local Open Scope fetch_scope.

Definition dateNow : M Z := fun w => (clock w, w).
Definition getLastRequestTime : M Z := fun w => (lastRequestTime w, w).
Definition setLastRequestTime (t : Z) : M unit := fun w =>
  (tt, {| clock := clock w; lastRequestTime := t; requests := requests w;
          timers := timers w; trace := trace w |}).

(** Time the caller spends between two calls of the transport. *)
Definition elapse (ms : N) : M unit := fun w =>
  (tt, {| clock := clock w + Z.of_N ms;
          lastRequestTime := lastRequestTime w; requests := requests w;
          timers := timers w; trace := trace w |}).

Section Transport.

Variable env : Env.
(** [new TextDecoder('iso-8859-1').decode(buffer)] *)
Variable decode : list N -> jsstring.

(** [await new Promise(resolve => setTimeout(resolve, ms))]: the caller
    resumes no earlier than [ms] later. *)
Definition setTimeout (ms : Z) : M unit := fun w =>
  (tt, {| clock := clock w + Z.max 0 ms + Z.of_N (timerLag env (timers w));
          lastRequestTime := lastRequestTime w; requests := requests w;
          timers := S (timers w); trace := Timer (clock w) ms :: trace w |}).

(** [await fetch(url, ...)] in the attempt numbered [attempt]: the request
    is initiated at the current clock. *)
Definition fetch (attempt : N) (url : jsstring) : M Outcome := fun w =>
  (outcome env (requests w) url,
   {| clock := clock w + Z.of_N (latency env (requests w));
      lastRequestTime := lastRequestTime w; requests := S (requests w);
      timers := timers w;
      trace := Request (clock w) attempt url :: trace w |}).

(** [response.ok] *)
Definition ok (status : N) : bool := ((200 <=? status) && (status <=? 299))%N.

(** The body of the [try] block: the text, or what is thrown. *)
Definition attemptOnce (attempt : N) (url : jsstring)
  : M (Error + jsstring) :=
  response <- fetch attempt url ;;
  ret match response with
      | Rejects e => inl e
      | Responds status body =>
          if negb (ok status) then
            inl (newError (lit "HTTP " ++ toString10 status ++ lit " for "
                             ++ url))
          else match body with
               | BodyFails e => inl e
               | BodyBytes buffer => inr (decode buffer)
               end
      end.

(** The [for (let attempt = 1; attempt <= maxRetries; attempt++)] loop;
    the fuel bounds the number of iterations. *)
Fixpoint retryLoop (fuel : nat) (attempt : N) (url : jsstring)
  : M (Error + jsstring) :=
  match fuel with
  | O => ret (inl (newError (lit "Failed to fetch " ++ url)))
  | S f =>
      if (attempt <=? maxRetries)%N then
        r <- attemptOnce attempt url ;;
        match r with
        | inr text => ret (inr text)
        | inl error =>
            if (attempt =? maxRetries)%N then ret (inl error)
            else
              let backoff := (attempt * 1000)%N in
              setTimeout (Z.of_N backoff) ;;;
              retryLoop f (attempt + 1)%N url
        end
      else ret (inl (newError (lit "Failed to fetch " ++ url)))
  end.

Definition rateLimitedFetch (url : jsstring) : M (Error + jsstring) :=
  now <- dateNow ;;
  last <- getLastRequestTime ;;
  let elapsed := now - last in
  (if elapsed <? RATE_LIMIT_MS then setTimeout (RATE_LIMIT_MS - elapsed)
   else ret tt) ;;;
  now' <- dateNow ;;
  setLastRequestTime now' ;;;
  retryLoop (S (N.to_nat maxRetries)) 1%N url.

(** [fetchYearIndex(year, lang)] *)
Definition fetchYearIndex (year : N) (lang : Lang) : M (Error + jsstring) :=
  rateLimitedFetch
    (BASE_URL ++ lit "/eli/" ++ pathSegment lang ++ lit "/" ++ toString10 year).

(** [fetchLawContent(year, month, day, numac, lang)] *)
Definition fetchLawContent (year : N) (month day numac : jsstring)
  (lang : Lang) : M (Error + jsstring) :=
  rateLimitedFetch
    (BASE_URL ++ lit "/eli/" ++ pathSegment lang ++ lit "/" ++ toString10 year
       ++ lit "/" ++ month ++ lit "/" ++ day ++ lit "/" ++ numac
       ++ lit "/justel").

(** A caller that issues the given fetches one after the other, spending
    the given time before each. *)
Fixpoint session (calls : list (N * jsstring)) : M (list (Error + jsstring)) :=
  match calls with
  | [] => ret []
  | (gap, url) :: rest =>
      elapse gap ;;;
      r <- rateLimitedFetch url ;;
      rs <- session rest ;;
      ret (r :: rs)
  end.

End Transport.

(** Times at which the requests selected by [sel] were initiated, latest
    first. *)
Fixpoint timesOf (sel : N -> bool) (tr : list Event) : list Z :=
  match tr with
  | [] => []
  | Request t attempt _ :: r =>
      if sel attempt then t :: timesOf sel r else timesOf sel r
  | Timer _ _ :: r => timesOf sel r
  end.

(** Initiation times of all requests, and of the first attempts of the
    calls, oldest first. *)
Definition requestTimes (w : World) : list Z :=
  rev (timesOf (fun _ => true) (trace w)).

Definition firstAttemptTimes (w : World) : list Z :=
  rev (timesOf (N.eqb 1) (trace w)).

(** The run without its times: requests and waits, oldest first. *)
Inductive Step :=
| Req (url : jsstring)
| Wait (ms : Z).

Definition stepOf (e : Event) : Step :=
  match e with
  | Request _ _ url => Req url
  | Timer _ ms => Wait ms
  end.

Definition history (w : World) : list Step := rev (map stepOf (trace w)).

(** The process at start: nothing requested yet, [lastRequestTime = 0]. *)
Definition initialWorld (now : Z) : World :=
  {| clock := now; lastRequestTime := 0; requests := 0; timers := 0;
     trace := [] |}.

(** Every two consecutive times of the list are at least [d] apart. *)
Fixpoint spaced (d : Z) (ts : list Z) : bool :=
  match ts with
  | [] => true
  | t :: r =>
      match r with
      | [] => true
      | t' :: _ => (t + d <=? t') && spaced d r
      end
  end.

End Fetcher.

(* ------------------------------------------------------------------ *)
(** ** The parser: year index *)
(* ------------------------------------------------------------------ *)

Module Parser.
Import Js Fetcher.

Definition obind (A B : Type) (o : option A) (k : A -> option B) : option B :=
  match o with Some a => k a | None => None end.

Declare Scope re_scope.
Delimit Scope re_scope with re.
Notation "x <~ m ; k" := (obind m (fun x => k))
  (at level 61, m at next level, right associativity) : re_scope.
Notation "' p <~ m ; k" := (obind m (fun x => let 'p := x in k))
  (at level 61, p pattern, m at next level, right associativity) : re_scope.
Local Open Scope re_scope.

(** Pieces of the expressions: a literal, a literal matched without case,
    exactly [n] digits, a greedy run. *)
Fixpoint expect (p s : jsstring) : option jsstring :=
  match p, s with
  | [], _ => Some s
  | x :: p', c :: s' => if ceq x c then expect p' s' else None
  | _ :: _, [] => None
  end.

Fixpoint expect_ci (p s : jsstring) : option jsstring :=
  match p, s with
  | [], _ => Some s
  | x :: p', c :: s' => if ceq_ci x c then expect_ci p' s' else None
  | _ :: _, [] => None
  end.

Fixpoint digitsN (n : nat) (s : jsstring) : option (jsstring * jsstring) :=
  match n with
  | 0 => Some ([], s)
  | S k =>
      match s with
      | c :: r =>
          if is_digit c then
            '(ds, rest) <~ digitsN k r ; Some (c :: ds, rest)
          else None
      | [] => None
      end
  end.

Definition span (f : char -> bool) (s : jsstring) : jsstring * jsstring :=
  (takeWhile f s, dropWhile f s).

(** a greedy run of at least one code unit of the class *)
Definition span1 (f : char -> bool) (s : jsstring)
  : option (jsstring * jsstring) :=
  match takeWhile f s with
  | [] => None
  | run => Some (run, dropWhile f s)
  end.

(** [/\/eli\/(?:loi|wet)\/(\d{4})\/(\d{2})\/(\d{2})\/(\d+)\/justel/] at the
    head of [s]: the four groups. *)
Definition urlPatternAt (s : jsstring)
  : option (jsstring * jsstring * jsstring * jsstring) :=
  s <~ expect (lit "/eli/") s ;
  s <~ match expect (lit "loi") s with
       | Some r => Some r
       | None => expect (lit "wet") s
       end ;
  s <~ expect (lit "/") s ;
  '(yearStr, s) <~ digitsN 4 s ;
  s <~ expect (lit "/") s ;
  '(month, s) <~ digitsN 2 s ;
  s <~ expect (lit "/") s ;
  '(day, s) <~ digitsN 2 s ;
  s <~ expect (lit "/") s ;
  '(numac, s) <~ span1 is_digit s ;
  _ <~ expect (lit "/justel") s ;
  Some (yearStr, month, day, numac).

(** [href.match(...)]: the groups of the leftmost match. *)
Fixpoint urlMatch (href : jsstring)
  : option (jsstring * jsstring * jsstring * jsstring) :=
  match urlPatternAt href with
  | Some g => Some g
  | None => match href with
            | [] => None
            | _ :: r => urlMatch r
            end
  end.

(** The document that JSDOM hands to the parser.  Element names are the
    lower-case local names. *)
Inductive node :=
| TextNode (data : jsstring)
| Element (tag : jsstring) (attrs : list (jsstring * jsstring))
    (children : list node).

Fixpoint getAttribute (name : jsstring) (attrs : list (jsstring * jsstring))
  : option jsstring :=
  match attrs with
  | [] => None
  | (k, v) :: r => if str_eqb k name then Some v else getAttribute name r
  end.

Definition hasTag (t : jsstring) (n : node) : bool :=
  match n with
  | Element tag _ _ => str_eqb tag t
  | TextNode _ => false
  end.

Definition attrsOf (n : node) : list (jsstring * jsstring) :=
  match n with Element _ a _ => a | TextNode _ => [] end.

(** [node.textContent] *)
Fixpoint textContent (n : node) : jsstring :=
  match n with
  | TextNode data => data
  | Element _ _ children => flat_map textContent children
  end.

(** Elements named [t] among a node and its descendants, in document
    order. *)
Fixpoint elementsByTag (t : jsstring) (n : node) : list node :=
  match n with
  | TextNode _ => []
  | Element tag _ children =>
      (if str_eqb tag t then [n] else [])
        ++ flat_map (elementsByTag t) children
  end.

(** [element.querySelectorAll(t)]: the descendants only. *)
Definition querySelectorAll_tag (t : jsstring) (n : node) : list node :=
  match n with
  | TextNode _ => []
  | Element _ _ children => flat_map (elementsByTag t) children
  end.

(** [document.querySelectorAll('a[href]')], each anchor with the result of
    [link.closest('tr')]: the nearest enclosing row met on the way down. *)
Fixpoint anchorsWithRow (row : option node) (n : node)
  : list (node * option node) :=
  match n with
  | TextNode _ => []
  | Element tag attrs children =>
      let row' := if str_eqb tag (lit "tr") then Some n else row in
      (if str_eqb tag (lit "a") then
         match getAttribute (lit "href") attrs with
         | Some _ => [(n, row')]
         | None => []
         end
       else [])
        ++ flat_map (anchorsWithRow row') children
  end.

Definition hrefOf (link : node) : jsstring :=
  match getAttribute (lit "href") (attrsOf link) with
  | Some v => v
  | None => []
  end.

Record LawIndexEntry := {
  index : nat;
  title : jsstring;
  date : jsstring;
  year : N;
  month : jsstring;
  day : jsstring;
  numac : jsstring;
  justelUrl : jsstring;
  source : jsstring;
  publicationDate : jsstring
}.

(** [/\(\d+\)\s*$/] at the head of [s] *)
Definition footnoteAt : matcher unit := fun s =>
  s1 <~ expect (lit "(") s ;
  '(_, s2) <~ span1 is_digit s1 ;
  s3 <~ expect (lit ")") s2 ;
  match dropWhile is_ws s3 with
  | [] => Some (length s, tt)
  | _ :: _ => None
  end.

(** [title.replace(/\s+/g, ' ').replace(/\(\d+\)\s*$/, '').trim()] *)
Definition cleanTitle (t : jsstring) : jsstring :=
  let t1 := replaceAll wsRun t in
  let t2 := match search footnoteAt t1 with
            | Some (i, _) => firstn i t1
            | None => t1
            end in
  trim t2.

(** [/(\d{2}-\d{2}-\d{4})/] at the head of [s] *)
Definition pubDateAt : matcher jsstring := fun s =>
  '(d, s1) <~ digitsN 2 s ;
  s2 <~ expect (lit "-") s1 ;
  '(m, s3) <~ digitsN 2 s2 ;
  s4 <~ expect (lit "-") s3 ;
  '(y, _) <~ digitsN 4 s4 ;
  Some (10, d ++ lit "-" ++ m ++ lit "-" ++ y).

Definition pubMarker (lang : Lang) : jsstring :=
  match lang with
  | Fr => lit "Publi" ++ [233%N] ++ lit " le"
  | Nl => lit "Gepubliceerd op"
  end.

Definition sourceMarker (lang : Lang) : jsstring :=
  match lang with Fr => lit "Source :" | Nl => lit "Bron :" end.

(** Title, source and publication date read from the row of a link:
    the second cell of the row, when the row has two cells. *)
Definition rowFields (lang : Lang) (tr : node)
  : jsstring * jsstring * jsstring :=
  match querySelectorAll_tag (lit "td") tr with
  | _ :: textCell :: _ =>
      let fullText := textContent textCell in
      let title0 :=
        match indexOf (pubMarker lang) fullText with
        | Some (S k) => trim (substring 0 (S k) fullText)
        | _ => trim fullText
        end in
      let title := cleanTitle title0 in
      let source :=
        match indexOf (sourceMarker lang) fullText with
        | Some sourceIdx =>
            let afterSource :=
              trim (substringFrom (sourceIdx + length (sourceMarker lang))
                      fullText) in
            match indexOf [10%N] afterSource with
            | Some (S k) => trim (substring 0 (S k) afterSource)
            | _ => trim afterSource
            end
        | None => []
        end in
      let publicationDate :=
        match search pubDateAt fullText with
        | Some (_, (_, d)) => d
        | None => []
        end in
      (title, source, publicationDate)
  | _ => ([], [], [])
  end.

Definition isGermanTranslation (title : jsstring) : bool :=
  includes (lit "Traduction allemande") title
  || includes (lit "Duitse vertaling") title.

(** The body of the loop over the Justel links: the entry pushed for a
    link, with the sequence number [n], or [None] where the loop goes on to
    the next link. *)
Definition indexEntry (lang : Lang) (n : nat) (link : node * option node)
  : option LawIndexEntry :=
  let href := hrefOf (fst link) in
  match urlMatch href with
  | None => None
  | Some (yearStr, month, day, numac) =>
      let year := parseDigits yearStr in
      match snd link with
      | None => None
      | Some tr =>
          let '(title, source, publicationDate) := rowFields lang tr in
          if isGermanTranslation title then None
          else
            let fullUrl :=
              if startsWith (lit "http") href then trim href
              else trim (lit "http://www.ejustice.just.fgov.be" ++ href) in
            Some {| index := n;
                    title := title;
                    date := toString10 year ++ lit "-" ++ month ++ lit "-"
                              ++ day;
                    year := year;
                    month := month;
                    day := day;
                    numac := numac;
                    justelUrl := fullUrl;
                    source := source;
                    publicationDate := publicationDate |}
      end
  end.

(** The links kept in [justelLinks]. *)
Definition isJustelLink (link : node * option node) : bool :=
  let href := hrefOf (fst link) in
  includes (lit "/justel") href
  && (includes (lit "/eli/loi/") href || includes (lit "/eli/wet/") href).

Definition justelLinks (document : node) : list (node * option node) :=
  filter isJustelLink (anchorsWithRow None document).

(** [parseYearIndex(html, lang)], from the document JSDOM builds of
    [html]. *)
Definition parseYearIndex (document : node) (lang : Lang)
  : list LawIndexEntry :=
  fold_left
    (fun entries link =>
       match indexEntry lang (length entries + 1) link with
       | Some e => entries ++ [e]
       | None => entries
       end)
    (justelLinks document) [].

(* ------------------------------------------------------------------ *)
(** ** The parser: markup cleaning *)
(* ------------------------------------------------------------------ *)

Definition notGt (c : char) : bool := negb (ceq c 62%N).

(** code units consumed between a subject and what is left of it *)
Definition consumed (s rest : jsstring) : nat := length s - length rest.

(** [/<A[^>]*>/gi] *)
Definition anchorOpenAt : matcher jsstring := fun s =>
  s1 <~ expect (lit "<") s ;
  s2 <~ expect_ci (lit "A") s1 ;
  s3 <~ expect (lit ">") (dropWhile notGt s2) ;
  Some (consumed s s3, []).

(** [/<\/A>/gi] *)
Definition anchorCloseAt : matcher jsstring := fun s =>
  s1 <~ expect_ci (lit "</A>") s ;
  Some (consumed s s1, []).

(** [/<BR\s*\/?>/gi], replaced by a newline *)
Definition brAt : matcher jsstring := fun s =>
  s1 <~ expect_ci (lit "<BR") s ;
  let s2 := dropWhile is_ws s1 in
  let s3 := match expect (lit "/") s2 with Some r => r | None => s2 end in
  s4 <~ expect (lit ">") s3 ;
  Some (consumed s s4, [10%N]).

(** [/<\/?h[1-6][^>]*>/gi] *)
Definition headingAt : matcher jsstring := fun s =>
  s1 <~ expect (lit "<") s ;
  let s2 := match expect (lit "/") s1 with Some r => r | None => s1 end in
  s3 <~ expect_ci (lit "h") s2 ;
  match s3 with
  | c :: s4 =>
      if ((49 <=? c) && (c <=? 54))%N then
        s5 <~ expect (lit ">") (dropWhile notGt s4) ;
        Some (consumed s s5, [])
      else None
  | [] => None
  end.

(** [/<[^>]+>/g] *)
Definition tagAt : matcher jsstring := fun s =>
  s1 <~ expect (lit "<") s ;
  '(_, s2) <~ span1 notGt s1 ;
  s3 <~ expect (lit ">") s2 ;
  Some (consumed s s3, []).

(** a named entity, e.g. [/&eacute;/g] *)
Definition entityAt (name : jsstring) (rep : jsstring) : matcher jsstring :=
  fun s =>
    s1 <~ expect name s ;
    Some (consumed s s1, rep).

(** The Number that [parseInt] makes of a run of digits of value [v]: the
    nearest double, ties to even; [None] is [Infinity]. *)
Definition numberOfDigits (v : N) : option N :=
  if (v <? 2 ^ 53)%N then Some v
  else
    let e := (N.log2 v - 52)%N in
    let q := N.shiftr v e in
    let r := (v - N.shiftl q e)%N in
    let half := (2 ^ (e - 1))%N in
    let q' := if (half <? r)%N || ((r =? half)%N && N.odd q)
              then (q + 1)%N else q in
    let d := N.shiftl q' e in
    if (d <? 2 ^ 1024)%N then Some d else None.

(** [String.fromCharCode(x)]: the code unit [ToUint16(x)] *)
Definition fromCharCode (x : option N) : char :=
  match x with
  | Some d => (d mod 65536)%N
  | None => 0%N
  end.

(** [/&#\d+;/g] with its replacement function *)
Definition numericEntityAt : matcher jsstring := fun s =>
  s1 <~ expect (lit "&#") s ;
  '(ds, s2) <~ span1 is_digit s1 ;
  s3 <~ expect (lit ";") s2 ;
  Some (consumed s s3, [fromCharCode (numberOfDigits (parseDigits ds))]).

Definition isSpaceTab (c : char) : bool := ceq c 32%N || ceq c 9%N.

(** [/[ \t]+/g], replaced by one space *)
Definition spacesAt : matcher jsstring := fun s =>
  match takeWhile isSpaceTab s with
  | [] => None
  | run => Some (length run, [32%N])
  end.

(** index of the last newline of a string *)
Fixpoint lastNewline (s : jsstring) : option nat :=
  match s with
  | [] => None
  | c :: r =>
      match lastNewline r with
      | Some i => Some (S i)
      | None => if ceq c 10%N then Some 0 else None
      end
  end.

(** [/\n\s*\n/g], replaced by one newline: the greedy [\s*] gives back
    up to the last newline of the run of white space. *)
Definition blankLinesAt : matcher jsstring := fun s =>
  s1 <~ expect [10%N] s ;
  i <~ lastNewline (takeWhile is_ws s1) ;
  Some (S (S i), [10%N]).

(** The named entities the cleaner decodes, in the order of the source. *)
Definition entityTable : list (jsstring * jsstring) :=
  [ (lit "&nbsp;", [32%N]);
    (lit "&amp;", [38%N]);
    (lit "&lt;", [60%N]);
    (lit "&gt;", [62%N]);
    (lit "&quot;", [34%N]);
    (lit "&eacute;", [233%N]);
    (lit "&egrave;", [232%N]);
    (lit "&agrave;", [224%N]);
    (lit "&acirc;", [226%N]);
    (lit "&ecirc;", [234%N]);
    (lit "&icirc;", [238%N]);
    (lit "&ocirc;", [244%N]);
    (lit "&ucirc;", [251%N]);
    (lit "&ugrave;", [249%N]);
    (lit "&ccedil;", [231%N]);
    (lit "&laquo;", [171%N]);
    (lit "&raquo;", [187%N]) ].

Definition stripTags (text : jsstring) : jsstring :=
  let text := replaceAll anchorOpenAt text in
  let text := replaceAll anchorCloseAt text in
  let text := replaceAll brAt text in
  let text := replaceAll headingAt text in
  replaceAll tagAt text.

Definition decodeEntities (text : jsstring) : jsstring :=
  let text :=
    fold_left (fun t e => replaceAll (entityAt (fst e) (snd e)) t)
      entityTable text in
  replaceAll numericEntityAt text.

(** [text.split('\n').map(line => line.trim()).filter(Boolean).join('\n')] *)
Definition trimLines (text : jsstring) : jsstring :=
  join [10%N] (filter truthy (map trim (split 10%N text))).

Definition collapseWhitespace (text : jsstring) : jsstring :=
  let text := replaceAll spacesAt text in
  let text := replaceAll blankLinesAt text in
  trimLines text.

(** [cleanArticleHtml(html)] *)
Definition cleanArticleHtml (html : jsstring) : jsstring :=
  collapseWhitespace (decodeEntities (stripTags html)).

(* ------------------------------------------------------------------ *)
(** ** The parser: articles of a law *)
(* ------------------------------------------------------------------ *)

Record ParsedProvision := {
  provision_ref : jsstring;
  section : jsstring;
  prov_title : jsstring;
  content : jsstring;
  chapter : option jsstring
}.

Record ParsedLaw := {
  law_title : jsstring;
  law_numac : jsstring;
  entryIntoForce : option jsstring;
  law_source : option jsstring;
  provisions : list ParsedProvision
}.

Definition notQuote (c : char) : bool := negb (ceq c 39%N).

(** [/<A\s+NAME='Art\.([^']+)'[^>]*>/gi] at the head of [s]: the length of
    the match and the group. *)
Definition articleAnchorAt : matcher jsstring := fun s =>
  s1 <~ expect (lit "<") s ;
  s2 <~ expect_ci (lit "A") s1 ;
  '(_, s3) <~ span1 is_ws s2 ;
  s4 <~ expect_ci (lit "NAME='Art.") s3 ;
  '(ref, s5) <~ span1 notQuote s4 ;
  s6 <~ expect (lit "'") s5 ;
  s7 <~ expect (lit ">") (dropWhile notGt s6) ;
  Some (consumed s s7, ref).

(** The [while ((match = articlePattern.exec(html)) !== null)] loop: every
    match with its group and its index, scanning from [pos]. *)
Fixpoint execAll (A : Type) (m : matcher A) (fuel pos : nat) (s : jsstring)
  : list (A * nat) :=
  match fuel with
  | 0 => []
  | S f =>
      match s with
      | [] => []
      | _ :: r =>
          match m s with
          | Some (n, g) => (g, pos) :: execAll m f (pos + n) (skipn (Nat.pred n) r)
          | None => execAll m f (S pos) r
          end
      end
  end.

Definition articleMatches (html : jsstring) : list (jsstring * nat) :=
  execAll articleAnchorAt (length html) 0 html.

Definition isChapterNumeral (c : char) : bool :=
  is_digit c
  || existsb (ceq (upper_ascii c)) (lit "IVXLCDM").

Definition isTitleChar (c : char) : bool :=
  negb (ceq c 60%N) && negb (ceq c 10%N).

(** [\s*([^<\n]+)]: the greedy [\s*] first takes all the white space and
    gives it back one code unit at a time while the group finds nothing. *)
Fixpoint chapterTitleAt (s : jsstring) : option jsstring :=
  let here := match takeWhile isTitleChar s with
              | [] => None
              | run => Some run
              end in
  match s with
  | c :: r =>
      if is_ws c then
        match chapterTitleAt r with
        | Some t => Some t
        | None => here
        end
      else here
  | [] => here
  end.

(** [/(?:CHAPITRE|HOOFDSTUK)\s+([IVXLCDM\d]+(?:er)?)\.\s*-\s*([^<\n]+)/i]
    at the head of [s]: the two groups. *)
Definition chapterAt (s : jsstring) : option (jsstring * jsstring) :=
  s1 <~ match expect_ci (lit "CHAPITRE") s with
        | Some r => Some r
        | None => expect_ci (lit "HOOFDSTUK") s
        end ;
  '(_, s2) <~ span1 is_ws s1 ;
  '(num, s3) <~ span1 isChapterNumeral s2 ;
  let '(er, s4) := match expect_ci (lit "er") s3 with
                   | Some r => (firstn 2 s3, r)
                   | None => ([], s3)
                   end in
  s5 <~ expect (lit ".") s4 ;
  s6 <~ expect (lit "-") (dropWhile is_ws s5) ;
  t <~ chapterTitleAt s6 ;
  Some (num ++ er, t).

(** The chapter label a fragment yields: [`${m[1]}. ${m[2].trim()}`] for the
    leftmost match [m]. *)
Definition chapterLabel (fragment : jsstring) : option jsstring :=
  match search chapterAt fragment with
  | Some (_, (num, t)) => Some (num ++ lit ". " ++ trim t)
  | None => None
  end.

(** [s.replace(/er$/i, '')] *)
Definition stripEr (s : jsstring) : jsstring :=
  match rev s with
  | r :: e :: front =>
      if ceq_ci 101%N e && ceq_ci 114%N r then rev front else s
  | _ => s
  end.

(** [s.replace(/\./g, '')] *)
Definition removeDots (s : jsstring) : jsstring :=
  filter (fun c => negb (ceq c 46%N)) s.

(** [(?:Article|Art\.)\s+] at the head of [s], without case *)
Definition articleWordAt (s : jsstring) : option jsstring :=
  s1 <~ match expect_ci (lit "Article") s with
        | Some r => Some r
        | None => expect_ci (lit "Art.") s
        end ;
  '(_, s2) <~ span1 is_ws s1 ;
  Some s2.

(** the lookahead [(?=(?:Article|Art\.)\s+\d+)] *)
Definition articleAhead (s : jsstring) : bool :=
  match articleWordAt s with
  | Some (c :: _) => is_digit c
  | _ => false
  end.

(** [s.split(/(?=...)/)]: the string is cut before every position, the
    first excepted, at which the lookahead holds. *)
Fixpoint splitBefore (look : jsstring -> bool) (s : jsstring)
  : list jsstring :=
  match s with
  | [] => [[]]
  | c :: r =>
      match r with
      | [] => [[c]]
      | _ :: _ =>
          if look r then [c] :: splitBefore look r
          else match splitBefore look r with
               | l :: ls => (c :: l) :: ls
               | [] => [[c]]
               end
      end
  end.

(** [/^(?:Article|Art\.)\s+(\d+(?:er)?)/i]: the group *)
Definition articleNumberAt (part : jsstring) : option jsstring :=
  s <~ articleWordAt part ;
  '(ds, s1) <~ span1 is_digit s ;
  match expect_ci (lit "er") s1 with
  | Some _ => Some (ds ++ firstn 2 s1)
  | None => Some ds
  end.

Definition isLineTerminator (c : char) : bool :=
  ceq c 10%N || ceq c 13%N || ceq c 8232%N || ceq c 8233%N.

(** [(.+?)(?:\n|$)] at the head of [s] *)
Definition lineValueAt (s : jsstring) : option jsstring :=
  match takeWhile (fun c => negb (isLineTerminator c)) s with
  | [] => None
  | run =>
      match dropWhile (fun c => negb (isLineTerminator c)) s with
      | [] => Some run
      | c :: _ => if ceq c 10%N then Some run else None
      end
  end.

(** [\s*(.+?)(?:\n|$)], the greedy [\s*] giving back as above *)
Fixpoint valueAt (s : jsstring) : option jsstring :=
  match s with
  | c :: r =>
      if is_ws c then
        match valueAt r with
        | Some v => Some v
        | None => lineValueAt s
        end
      else lineValueAt s
  | [] => lineValueAt s
  end.

(** [/<label>\s*:\s*(.+?)(?:\n|$)/i] at the head of [s] *)
Definition labelledAt (label : jsstring -> option jsstring) (s : jsstring)
  : option jsstring :=
  s1 <~ label s ;
  s2 <~ expect (lit ":") (dropWhile is_ws s1) ;
  valueAt s2.

(** [Entr[e\u00e9]e en vigueur], without case *)
Definition entreeEnVigueur (s : jsstring) : option jsstring :=
  s1 <~ expect_ci (lit "Entr") s ;
  match s1 with
  | c :: s2 =>
      if ceq_ci 101%N c || ceq c 233%N || ceq c 201%N
      then expect_ci (lit "e en vigueur") s2
      else None
  | [] => None
  end.

(** [text.match(a) || text.match(b)], group 1 *)
Definition matchEither (a b : jsstring -> option jsstring) (text : jsstring)
  : option jsstring :=
  match search (labelledAt a) text with
  | Some (_, v) => Some v
  | None =>
      match search (labelledAt b) text with
      | Some (_, v) => Some v
      | None => None
      end
  end.

(** first result of a loop that breaks on its first match *)
Fixpoint firstMatch (A B : Type) (f : A -> option B) (l : list A)
  : option B :=
  match l with
  | [] => None
  | x :: r => match f x with Some y => Some y | None => firstMatch f r end
  end.

(** tokens of a [class] attribute *)
Definition isAsciiSpace (c : char) : bool :=
  ceq c 32%N || ceq c 9%N || ceq c 10%N || ceq c 12%N || ceq c 13%N.

Fixpoint tokens_from (cur : jsstring) (s : jsstring) : list jsstring :=
  match s with
  | [] => match cur with [] => [] | _ => [rev cur] end
  | c :: r =>
      if isAsciiSpace c then
        match cur with
        | [] => tokens_from [] r
        | _ => rev cur :: tokens_from [] r
        end
      else tokens_from (c :: cur) r
  end.

Definition hasClass (cls : jsstring) (n : node) : bool :=
  match getAttribute (lit "class") (attrsOf n) with
  | Some v => existsb (str_eqb cls) (tokens_from [] v)
  | None => false
  end.

Definition hasId (id : jsstring) (n : node) : bool :=
  match getAttribute (lit "id") (attrsOf n) with
  | Some v => str_eqb v id
  | None => false
  end.

(** Elements satisfying [p] among a node and its descendants, in document
    order: [querySelectorAll] for a class or an id selector. *)
Fixpoint elementsWhere (p : node -> bool) (n : node) : list node :=
  match n with
  | TextNode _ => []
  | Element _ _ children =>
      (if p n then [n] else []) ++ flat_map (elementsWhere p) children
  end.

Section Articles.

(** [String.prototype.toLowerCase] *)
Variable toLowerCase : jsstring -> jsstring.

(** [parseArticlesFallback(html)] *)
Definition parseArticlesFallback (html : jsstring) : list ParsedProvision :=
  let cleanText := cleanArticleHtml html in
  let parts := splitBefore articleAhead cleanText in
  flat_map
    (fun part =>
       match articleNumberAt part with
       | None => []
       | Some num =>
           [ {| provision_ref := lit "art" ++ toLowerCase num;
                section := stripEr num;
                prov_title := lit "Article " ++ num;
                content := trim part;
                chapter := None |} ]
       end)
    parts.

(** One iteration of the loop over the matches: the running chapter after
    it, and the provision pushed, if any. *)
Definition articleStep (html : jsstring) (prevStart : nat)
  (current : jsstring * nat) (nextStart : nat)
  (currentChapter : option jsstring)
  : option jsstring * option ParsedProvision :=
  let articleHtml := substring (snd current) nextStart html in
  let chapterBefore := substring prevStart (snd current) html in
  let currentChapter :=
    match chapterLabel chapterBefore with
    | Some c => Some c
    | None => currentChapter
    end in
  let currentChapter :=
    match chapterLabel articleHtml with
    | Some c => Some c
    | None => currentChapter
    end in
  let text := cleanArticleHtml articleHtml in
  if negb (truthy (trim text)) then (currentChapter, None)
  else
    let ref := removeDots (toLowerCase (fst current)) in
    let displayRef := fst current in
    let artTitle :=
      if str_eqb displayRef (lit "1er") || str_eqb displayRef (lit "1ER")
      then lit "Article 1er"
      else lit "Article " ++ displayRef in
    let sectionNum := stripEr displayRef in
    (currentChapter,
     Some {| provision_ref := lit "art" ++ ref;
             section := sectionNum;
             prov_title := artTitle;
             content := trim text;
             chapter := currentChapter |}).

(** The loop [for (let i = 0; i < matches.length; i++)]: [prevStart] is
    [matches[i - 1].startIndex], or 0 for the first match. *)
Fixpoint articleLoop (html : jsstring) (prevStart : nat)
  (matches : list (jsstring * nat)) (currentChapter : option jsstring)
  : list ParsedProvision :=
  match matches with
  | [] => []
  | current :: rest =>
      let nextStart := match rest with
                       | next :: _ => snd next
                       | [] => length html
                       end in
      let '(chapter', pushed) :=
        articleStep html prevStart current nextStart currentChapter in
      match pushed with
      | Some p => p :: articleLoop html (snd current) rest chapter'
      | None => articleLoop html (snd current) rest chapter'
      end
  end.

(** [parseArticles(html)] *)
Definition parseArticles (html : jsstring) : list ParsedProvision :=
  match articleMatches html with
  | [] => parseArticlesFallback html
  | matches => articleLoop html 0 matches None
  end.

(** [new JSDOM(html).window.document] and [element.innerHTML] *)
Variable jsdom : jsstring -> node.
Variable innerHTML : node -> jsstring.

(** [parseLawContent(html, numac)] *)
Definition parseLawContent (html numac : jsstring) : ParsedLaw :=
  let document := jsdom html in
  let title :=
    match elementsWhere (hasClass (lit "list-item--title")) document with
    | titleEl :: _ => trim (replaceAll wsRun (textContent titleEl))
    | [] => []
    end in
  let plainTexts := elementsWhere (hasClass (lit "plain-text")) document in
  let entryIntoForce :=
    firstMatch
      (fun el =>
         option_map trim
           (matchEither entreeEnVigueur (expect_ci (lit "Inwerkingtreding"))
              (textContent el)))
      plainTexts in
  let source :=
    firstMatch
      (fun el =>
         option_map trim
           (matchEither (expect_ci (lit "Source")) (expect_ci (lit "Bron"))
              (textContent el)))
      plainTexts in
  match elementsWhere (hasId (lit "list-title-3")) document with
  | [] =>
      {| law_title := title; law_numac := numac;
         entryIntoForce := entryIntoForce; law_source := source;
         provisions := [] |}
  | textSection :: _ =>
      let textHtml := innerHTML textSection in
      {| law_title := title; law_numac := numac;
         entryIntoForce := entryIntoForce; law_source := source;
         provisions := parseArticles textHtml |}
  end.

End Articles.

End Parser.

(* ------------------------------------------------------------------ *)
(** ** The database builder: consolidation of provisions *)
(* ------------------------------------------------------------------ *)

Module BuildDb.
Import Js.

Record ProvisionSeed := {
  provision_ref : jsstring;
  chapter : option jsstring;
  section : jsstring;
  title : option jsstring;
  content : jsstring
}.

(** [normalizeWhitespace(text)] *)
Definition normalizeWhitespace (text : jsstring) : jsstring :=
  trim (replaceAll wsRun text).

(** A [Map<string, ProvisionSeed>]: the keys in insertion order. *)
Definition RefMap := list (jsstring * ProvisionSeed).

Fixpoint mapGet (k : jsstring) (m : RefMap) : option ProvisionSeed :=
  match m with
  | [] => None
  | (k', v) :: r => if str_eqb k' k then Some v else mapGet k r
  end.

(** [m.set(k, v)]: a key that is present keeps its place. *)
Fixpoint mapSet (k : jsstring) (v : ProvisionSeed) (m : RefMap) : RefMap :=
  match m with
  | [] => [(k, v)]
  | (k', v') :: r =>
      if str_eqb k' k then (k', v) :: r else (k', v') :: mapSet k v r
  end.

(** [a || b] on optional strings *)
Definition orElse (a b : option jsstring) : option jsstring :=
  match a with
  | Some (_ :: _) => a
  | _ => b
  end.

Definition withRef (p : ProvisionSeed) (ref : jsstring) : ProvisionSeed :=
  {| provision_ref := ref; chapter := chapter p; section := section p;
     title := title p; content := content p |}.

Definition normLen (p : ProvisionSeed) : nat :=
  length (normalizeWhitespace (content p)).

(** The body of the loop over the provisions. *)
Definition dedupeStep (byRef : RefMap) (provision : ProvisionSeed) : RefMap :=
  let ref := trim (provision_ref provision) in
  match mapGet ref byRef with
  | None => mapSet ref (withRef provision ref) byRef
  | Some existing =>
      let existingLen := normLen existing in
      let incomingLen := normLen provision in
      if existingLen <? incomingLen then
        mapSet ref
          {| provision_ref := ref; chapter := chapter provision;
             section := section provision;
             title := orElse (title provision) (title existing);
             content := content provision |}
          byRef
      else byRef
  end.

(** [dedupeProvisions(provisions)] *)
Definition dedupeProvisions (provisions : list ProvisionSeed)
  : list ProvisionSeed :=
  map snd (fold_left dedupeStep provisions []).

End BuildDb.

(* ------------------------------------------------------------------ *)
(** ** The ingestion driver: Dutch content *)
(* ------------------------------------------------------------------ *)

Module Ingest.
Import Js Fetcher Parser.
Local Open Scope fetch_scope.

Record SeedProvision := {
  sp_provision_ref : jsstring;
  sp_section : jsstring;
  sp_title : jsstring;
  sp_content : jsstring;
  sp_chapter : option jsstring
}.

Record SeedDocument := {
  id : jsstring;
  doc_title : jsstring;
  issued_date : jsstring;
  url : jsstring;
  language : jsstring;
  doc_numac : jsstring;
  doc_provisions : list SeedProvision
}.

(** The counters of the stage and the seed files written, latest first. *)
Record Tally := {
  processed : nat;
  failed : nat;
  skipped : nat;
  written : list (jsstring * SeedDocument)
}.

Definition seedProvision (p : ParsedProvision) : SeedProvision :=
  {| sp_provision_ref := Parser.provision_ref p;
     sp_section := Parser.section p;
     sp_title := prov_title p;
     sp_content := Parser.content p;
     sp_chapter := match Parser.chapter p with
                   | Some (_ :: _) => Parser.chapter p
                   | _ => None
                   end |}.

Section Dutch.

Variable env : Env.
Variable decode : list N -> jsstring.
Variable toLowerCase : jsstring -> jsstring.
Variable jsdom : jsstring -> node.
Variable innerHTML : node -> jsstring.

(** One iteration of the loop of [runDutchContent].  The seed file is
    recorded as written; console output is left out. *)
Definition dutchEntry (entry : LawIndexEntry) (t : Tally) : M Tally :=
  r <- fetchLawContent env decode (year entry) (month entry) (day entry)
         (numac entry) Nl ;;
  ret match r with
      | inr html =>
          let parsed :=
            parseLawContent toLowerCase jsdom innerHTML html (numac entry) in
          if length (provisions parsed) =? 0 then
            {| processed := processed t; failed := failed t;
               skipped := skipped t + 1; written := written t |}
          else
            let seedId :=
              lit "wet-" ++ date entry ++ lit "-" ++ numac entry
                ++ lit "-nl" in
            let seed :=
              {| id := seedId;
                 doc_title := if truthy (law_title parsed)
                              then law_title parsed else title entry;
                 issued_date := date entry;
                 url := buildJustelUrl (year entry) (month entry) (day entry)
                          (numac entry) Nl;
                 language := lit "nl";
                 doc_numac := numac entry;
                 doc_provisions := map seedProvision (provisions parsed) |} in
            {| processed := processed t + 1; failed := failed t;
               skipped := skipped t;
               written := (seedId ++ lit ".json", seed) :: written t |}
      | inl error =>
          let failed' := failed t + 1 in
          if includes (lit "404") (String_of_error error) then
            {| processed := processed t; failed := failed';
               skipped := skipped t + 1; written := written t |}
          else
            {| processed := processed t; failed := failed';
               skipped := skipped t; written := written t |}
      end.

Fixpoint dutchLoop (entries : list LawIndexEntry) (t : Tally) : M Tally :=
  match entries with
  | [] => ret t
  | entry :: rest => t' <- dutchEntry entry t ;; dutchLoop rest t'
  end.

(** [runDutchContent(entries, _options)]: the counters it prints. *)
Definition runDutchContent (entries : list LawIndexEntry) : M Tally :=
  dutchLoop entries
    {| processed := 0; failed := 0; skipped := 0; written := [] |}.

End Dutch.

End Ingest.

(* ------------------------------------------------------------------ *)
(** ** Vocabulary of the properties, and sample inputs *)
(* ------------------------------------------------------------------ *)

Module BuildDbDefs.
Import Js BuildDb.

(** The keys of the map after one more provision. *)
Definition addKey (keys : list jsstring) (k : jsstring) : list jsstring :=
  if existsb (str_eqb k) keys then keys else keys ++ [k].

(** References in the order in which they are first seen. *)
Definition firstSeen (refs : list jsstring) : list jsstring :=
  fold_left addKey refs [].

(** Every value of the map is filed under its own reference, and no
    reference is filed twice. *)
Definition wellKeyed (m : RefMap) : Prop :=
  NoDup (map fst m) /\ forall k v, In (k, v) m -> provision_ref v = k.

(** Two records of the reference [art1] whose contents normalize to the
    same length. *)
Definition tie_first : ProvisionSeed :=
  {| provision_ref := lit " art1 "; chapter := None; section := lit "1";
     title := Some (lit "Article 1"); content := lit "abc  def" |}.

(** The later duplicate. *)
Definition tie_second : ProvisionSeed :=
  {| provision_ref := lit "art1"; chapter := None; section := lit "1";
     title := Some (lit "Art. 1"); content := lit "abc xyz " |}.

(** A long first record without a title, then a short duplicate that has
    one. *)
Definition untitled_long : ProvisionSeed :=
  {| provision_ref := lit "art1"; chapter := None; section := lit "1";
     title := None;
     content := lit "Le texte complet de l'article premier." |}.

(** The short duplicate. *)
Definition titled_short : ProvisionSeed :=
  {| provision_ref := lit "art1"; chapter := None; section := lit "1";
     title := Some (lit "Article 1"); content := lit "Texte." |}.

End BuildDbDefs.

Module FetcherDefs.
Import Js Fetcher.
Local Open Scope Z_scope.

(** What the [try] block makes of the answer to a request. *)
Definition responseResult (decode : list N -> jsstring) (url : jsstring)
  (o : Outcome) : Error + jsstring :=
  match o with
  | Rejects e => inl e
  | Responds status body =>
      if negb (ok status) then
        inl (newError (lit "HTTP " ++ toString10 status ++ lit " for " ++ url))
      else match body with
           | BodyFails e => inl e
           | BodyBytes buffer => inr (decode buffer)
           end
  end.

(** The request is answered with a success status and a readable body. *)
Definition succeeds (o : Outcome) : bool :=
  match o with
  | Responds status (BodyBytes _) => ok status
  | _ => false
  end.

(** The world once the limiter has let the caller through. *)
Definition limiterWait (env : Env) (w : World) : World :=
  if clock w - lastRequestTime w <? RATE_LIMIT_MS
  then snd (setTimeout env (RATE_LIMIT_MS - (clock w - lastRequestTime w)) w)
  else w.

(** [lastRequestTime = Date.now()] *)
Definition stamp (w : World) : World :=
  snd (setLastRequestTime (clock w) w).

(** The invariant of a session for a selection of requests: the selected
    initiations are spaced, and none is later than the time stamp. *)
Definition Paced (sel : N -> bool) (w : World) : Prop :=
  spaced RATE_LIMIT_MS (rev (timesOf sel (trace w))) = true
  /\ Forall (fun t => t <= lastRequestTime w) (rev (timesOf sel (trace w))).

(** The network of the example: two failures, then the page. *)
Definition twiceDown : Env :=
  {| outcome := fun k _ =>
       match k with
       | 0%nat => Responds 503 (BodyBytes [])
       | 1%nat => Rejects {| err_name := lit "TypeError";
                            err_message := lit "fetch failed" |}
       | _ => Responds 200 (BodyBytes [60; 112; 62]%N)
       end;
     latency := fun _ => 30%N;
     timerLag := fun _ => 0%N |}.

(** Bytes read as code units of the same value. *)
Definition latin1 (bytes : list N) : jsstring := bytes.

(** The network of the counterexample: the first request is answered with
    an error after 30 ms, every later one with a page after 40 ms. *)
Definition onceDown : Env :=
  {| outcome := fun k _ =>
       match k with
       | 0%nat => Responds 500 (BodyBytes [])
       | _ => Responds 200 (BodyBytes [111; 107]%N)
       end;
     latency := fun k => match k with 0%nat => 30%N | _ => 40%N end;
     timerLag := fun _ => 0%N |}.

(** Two calls, the second right after the first has returned. *)
Definition twoCalls : list (N * jsstring) :=
  [(0%N, lit "http://h/a"); (0%N, lit "http://h/b")].

(** A network that answers every request with a page. *)
Definition allUp : Env :=
  {| outcome := fun _ _ => Responds 200 (BodyBytes [111; 107]%N);
     latency := fun _ => 40%N;
     timerLag := fun _ => 3%N |}.

End FetcherDefs.

Module IngestDefs.
Import Js Fetcher.

(** A network on which no page exists. *)
Definition notFound : Env :=
  {| outcome := fun _ _ => Responds 404 (BodyBytes []);
     latency := fun _ => 20%N;
     timerLag := fun _ => 0%N |}.

End IngestDefs.

Module IndexDefs.
Import Js Fetcher Parser.

(** [parseDigits] from a number read so far. *)
Definition parseFrom (acc : N) (s : jsstring) : N :=
  fold_left (fun a c => (10 * a + (c - 48))%N) s acc.

(** The document URLs of the portal, written out here without
    [buildJustelUrl]: the base host, the segment eli, then loi for the
    primary language or wet for the secondary. *)
Definition portalHost : jsstring :=
  Eval cbv in lit "http://www.ejustice.just.fgov.be".

Definition languageSegment (lang : Lang) : jsstring :=
  match lang with Fr => lit "loi" | Nl => lit "wet" end.

(** A canonical content URL of a language: the host, then
    /eli/{loi|wet}/{year}/{month}/{day}/{identifier}/justel with a year of
    four digits, a month and a day of two digits each and a numeric
    identifier. *)
Definition validContentUrl (lang : Lang) (url : jsstring) : Prop :=
  exists ys m d n : jsstring,
    length ys = 4 /\ forallb is_digit ys = true
    /\ length m = 2 /\ forallb is_digit m = true
    /\ length d = 2 /\ forallb is_digit d = true
    /\ n <> [] /\ forallb is_digit n = true
    /\ url = portalHost ++ lit "/eli/" ++ languageSegment lang ++ lit "/"
               ++ ys ++ lit "/" ++ m ++ lit "/" ++ d ++ lit "/" ++ n
               ++ lit "/justel".

(** A canonical content URL whose year is written with a leading zero. *)
Definition paddedYearUrl : jsstring :=
  Eval cbv in lit "http://www.ejustice.just.fgov.be/eli/loi/0099/01/02/5/justel".

(** A match was found. *)
Definition isSome {A : Type} (o : option A) : bool :=
  match o with Some _ => true | None => false end.

(** The link target is decomposed by the URL pattern. *)
Definition decomposable (link : node * option node) : bool :=
  isSome (urlMatch (hrefOf (fst link))).

(** The anchor lies in a table row. *)
Definition inRow (link : node * option node) : bool := isSome (snd link).

(** The title extracted for a link; it stays empty without a row. *)
Definition rowTitle (lang : Lang) (link : node * option node) : jsstring :=
  match snd link with
  | Some tr => fst (fst (rowFields lang tr))
  | None => []
  end.

(** That title carries a German-translation marker. *)
Definition germanNotice (lang : Lang) (link : node * option node) : bool :=
  isGermanTranslation (rowTitle lang link).

(** The anchors for which the loop pushes an entry. *)
Definition lawAnchor (lang : Lang) (link : node * option node) : bool :=
  decomposable link && inRow link && negb (germanNotice lang link).

(** The entries pushed for a list of links when [k] entries are there
    already. *)
Fixpoint pushed (lang : Lang) (k : nat) (links : list (node * option node))
  : list LawIndexEntry :=
  match links with
  | [] => []
  | link :: rest =>
      match indexEntry lang (k + 1) link with
      | Some e => e :: pushed lang (S k) rest
      | None => pushed lang k rest
      end
  end.

(** [<a href=...>Justel</a>] and a row of the index table. *)
Definition anchorTo (href : jsstring) : node :=
  Element (lit "a") [(lit "href", href)] [TextNode (lit "Justel")].

Definition indexRow (n text href : jsstring) : node :=
  Element (lit "tr") []
    [ Element (lit "td") [] [TextNode n];
      Element (lit "td") [] [TextNode text];
      Element (lit "td") [] [anchorTo href] ].

(** A page with a law, the two kinds of German-translation notices, and a
    link that is not decomposed. *)
Definition samplePage : node :=
  Element (lit "html") []
    [ Element (lit "table") []
        [ indexRow (lit "1")
            (lit "21 JUILLET 1994. - Loi portant des dispositions sociales (1)")
            (lit "/eli/loi/1994/07/21/1994021730/justel");
          indexRow (lit "2")
            (lit "21 JUILLET 1994. - Loi. - Traduction allemande")
            (lit "/eli/loi/1994/07/21/1994021731/justel");
          indexRow (lit "3")
            (lit "21 JULI 1994. - Wet. - Duitse vertaling")
            (lit "/eli/wet/1994/07/21/1994021732/justel");
          indexRow (lit "4") (lit "Erratum")
            (lit "/eli/loi/1994/7/21/1994021733/justel") ] ].

(** The entry of its first row. *)
Definition sampleEntry : LawIndexEntry :=
  {| index := 1;
     title := lit "21 JUILLET 1994. - Loi portant des dispositions sociales";
     date := lit "1994-07-21";
     year := 1994;
     month := lit "07";
     day := lit "21";
     numac := lit "1994021730";
     justelUrl :=
       lit "http://www.ejustice.just.fgov.be/eli/loi/1994/07/21/1994021730/justel";
     source := [];
     publicationDate := [] |}.

(** A page whose only link to a law stands outside any table. *)
Definition strayAnchorPage : node :=
  Element (lit "html") []
    [ Element (lit "body") []
        [ Element (lit "p") []
            [ anchorTo (lit "/eli/loi/1994/07/21/1994021730/justel") ] ] ].

End IndexDefs.

Module CleanDefs.
Import Js Parser.

(** The matcher fires only on subjects that begin with [c0]. *)
Definition firesOnly (c0 : char) (m : matcher jsstring) : Prop :=
  forall s n rep, m s = Some (n, rep) -> exists r, s = c0 :: r.

(** The string begins with a space. *)
Definition startsSp (s : jsstring) : bool :=
  match s with c :: _ => ceq c 32%N | [] => false end.

(** No tabulation, and no two spaces in a row. *)
Fixpoint tidy (s : jsstring) : bool :=
  match s with
  | [] => true
  | c :: r => negb (ceq c 9%N) && negb (ceq c 32%N && startsSp r) && tidy r
  end.

(** A line of cleaned text: not empty, trimmed, without a newline. *)
Definition lineOk (l : jsstring) : Prop :=
  l <> [] /\ trim l = l /\ Forall (fun c => c <> 10%N) l.

(** The lines that [trimLines] joins. *)
Definition linesOf (x : jsstring) : list jsstring :=
  filter truthy (map trim (split 10%N x)).

(** Every newline is followed by a code unit that is no white space. *)
Fixpoint nlOk (s : jsstring) : bool :=
  match s with
  | [] => true
  | c :: r =>
      (if ceq 10%N c
       then match r with c' :: _ => negb (is_ws c') | [] => false end
       else true)
      && nlOk r
  end.

(** An article as the portal serves it. *)
Definition articleFragment : jsstring :=
  lit "<A NAME='Art.2'>Art. 2</A>.   Le Roi fixe&nbsp;la date <BR>  <BR>d'entr&eacute;e en vigueur.".

End CleanDefs.

Module ArticleDefs.
Import Js Parser.

(** [toLowerCase] on strings of ASCII code units. *)
Definition toLowerCase_ascii (s : jsstring) : jsstring :=
  map (fun c => if is_upper c then (c + 32)%N else c) s.

(** The fragments that the loop scans for a chapter heading, in the order
    in which it scans them: before each anchor and in each article. *)
Fixpoint scanned (html : jsstring) (prevStart : nat)
  (matches : list (jsstring * nat)) : list jsstring :=
  match matches with
  | [] => []
  | current :: rest =>
      let nextStart := match rest with
                       | next :: _ => snd next
                       | [] => length html
                       end in
      substring prevStart (snd current) html
        :: substring (snd current) nextStart html
        :: scanned html (snd current) rest
  end.

(** Three articles, and one chapter heading between the anchors of the
    first and of the second. *)
Definition chapterFragment : jsstring :=
  lit "<A NAME='Art.1er'>Article 1er</A>. Texte un.<BR><BR>CHAPITRE II. - Dispositions finales<BR><A NAME='Art.2'>Art. 2</A>. Texte deux.<BR><A NAME='Art.3'>Art. 3</A>. Texte trois.".

End ArticleDefs.

(* ------------------------------------------------------------------ *)
(** ** Full-text queries: sanitizing and query variants *)
(* ------------------------------------------------------------------ *)

Module FtsQuery.
Import Js Parser.

(** The class [\w]: ASCII letters, digits and the underscore. *)
Definition is_word (c : char) : bool :=
  is_upper c || is_lower c || is_digit c || ceq c 95%N.

(** The class of the first replacement: the straight double quote and the
    curly ones, U+201C and U+201D. *)
Definition isDoubleQuote (c : char) : bool :=
  ceq c 34%N || ceq c 8220%N || ceq c 8221%N.

(** The class of the second replacement: the apostrophe and the curly single
    quotes, U+2018 and U+2019. *)
Definition isSingleQuote (c : char) : bool :=
  ceq c 39%N || ceq c 8216%N || ceq c 8217%N.

(** The class [[{}[\]()^~:;]] *)
Definition isFtsOperator (c : char) : bool :=
  existsb (ceq c) (lit "{}[]()^~:;").

(** [s.replace(/[class]/g, '')] *)
Definition removeClass (cls : char -> bool) (s : jsstring) : jsstring :=
  filter (fun c => negb (cls c)) s.

(** [sanitizeFtsInput(input)] *)
Definition sanitizeFtsInput (input : jsstring) : jsstring :=
  trim
    (removeClass isFtsOperator
       (removeClass isSingleQuote (removeClass isDoubleQuote input))).

Record FtsQueryVariants := {
  primary : jsstring;
  fallback : option jsstring
}.

Definition wordUnit (o : option char) : bool :=
  match o with Some c => is_word c | None => false end.

(** [\b] at a position: [prev] is the code unit before it, [s] what
    follows. *)
Definition boundary (prev : option char) (s : jsstring) : bool :=
  xorb (wordUnit prev) (wordUnit (hd_error s)).

(** [\bKW\b] at the head of [s] *)
Definition keywordAt (kw : jsstring) (prev : option char) (s : jsstring)
  : bool :=
  boundary prev s
  && match expect kw s with
     | Some r => boundary (hd_error (rev kw)) r
     | None => false
     end.

(** The alternatives of [EXPLICIT_FTS_SYNTAX] tried at every position from
    the head of [s] on: a double quote, one of the words AND, OR and NOT,
    or a star that ends the string. *)
Fixpoint explicitFrom (prev : option char) (s : jsstring) : bool :=
  match s with
  | [] => false
  | c :: r =>
      ceq c 34%N
      || keywordAt (lit "AND") prev s
      || keywordAt (lit "OR") prev s
      || keywordAt (lit "NOT") prev s
      || (ceq c 42%N && negb (truthy r))
      || explicitFrom (Some c) r
  end.

(** [EXPLICIT_FTS_SYNTAX.test(s)] *)
Definition EXPLICIT_FTS_SYNTAX (s : jsstring) : bool := explicitFrom None s.

Definition startsWs (s : jsstring) : bool :=
  match s with c :: _ => is_ws c | [] => false end.

(** [s.split(/\s+/)]: the pieces between the runs of white space; a run at
    an end of the string leaves an empty piece there. *)
Fixpoint splitWs (s : jsstring) : list jsstring :=
  match s with
  | [] => [[]]
  | c :: r =>
      if is_ws c then
        if startsWs r then splitWs r else [] :: splitWs r
      else match splitWs r with
           | l :: ls => (c :: l) :: ls
           | [] => [[c]]
           end
  end.

(** The class [[^\w\s-]] *)
Definition notTokenUnit (c : char) : bool :=
  negb (is_word c || is_ws c || ceq c 45%N).

(** The tokens of a trimmed query. *)
Definition tokensOf (trimmed : jsstring) : list jsstring :=
  map (removeClass notTokenUnit) (filter truthy (splitWs trimmed)).

(** The template that wraps a token in double quotes and appends a star. *)
Definition phrasePrefix (t : jsstring) : jsstring :=
  [34%N] ++ t ++ [34%N; 42%N].

(** The template that appends a star to a token. *)
Definition barePrefix (t : jsstring) : jsstring := t ++ [42%N].

(** [buildFtsQueryVariants(query)] *)
Definition buildFtsQueryVariants (query : jsstring) : FtsQueryVariants :=
  let trimmed := trim query in
  if EXPLICIT_FTS_SYNTAX trimmed then
    {| primary := trimmed; fallback := None |}
  else
    let tokens := tokensOf trimmed in
    if length tokens =? 0 then {| primary := trimmed; fallback := None |}
    else
      {| primary := join (lit " ") (map phrasePrefix tokens);
         fallback := Some (join (lit " OR ") (map barePrefix tokens)) |}.

End FtsQuery.

Module FtsQueryDefs.
Import Js FtsQuery.

(** A code unit that [sanitizeFtsInput] removes. *)
Definition ftsSpecial (c : char) : bool :=
  isDoubleQuote c || isSingleQuote c || isFtsOperator c.

(** A code unit a token keeps: a word character or the hyphen. *)
Definition termUnit (c : char) : bool := is_word c || ceq c 45%N.

(** The words of a trimmed query, before they are stripped to tokens. *)
Definition wordsOf (trimmed : jsstring) : list jsstring :=
  filter truthy (splitWs trimmed).

(** A code unit that [sanitizeFtsInput] removes, the straight double quote
    apart. *)
Definition ftsUnsafe (c : char) : bool :=
  isSingleQuote c || isFtsOperator c || ceq c 8220%N || ceq c 8221%N.

End FtsQueryDefs.

Module ConsolidationDefs.
Import Js BuildDb.

(** The record [v] filed under the reference [k] stems from a provision of
    [seen] with that trimmed reference, and no provision of [seen] with that
    reference has a longer normalized content. *)
Definition Longest (seen : list ProvisionSeed) (k : jsstring)
  (v : ProvisionSeed) : Prop :=
  (exists q, In q seen /\ trim (provision_ref q) = k
             /\ content v = content q /\ section v = section q
             /\ chapter v = chapter q)
  /\ Forall (fun q => trim (provision_ref q) = k -> normLen q <= normLen v)
       seen.

End ConsolidationDefs.

Module WhitespaceDefs.
Import Js.

(** The string begins with a white-space code unit. *)
Definition beginsWs (s : jsstring) : bool :=
  match s with c :: _ => is_ws c | [] => false end.

(** Every white-space code unit of the string is a space, and no two of
    them stand side by side. *)
Fixpoint singleSpaced (s : jsstring) : bool :=
  match s with
  | [] => true
  | c :: r =>
      (if is_ws c then ceq c 32%N && negb (beginsWs r) else true)
      && singleSpaced r
  end.

End WhitespaceDefs.

Module EntryDefs.
Import Js Fetcher Parser WhitespaceDefs.

(** A string of exactly [n] decimal digits. *)
Definition digitString (n : nat) (s : jsstring) : Prop :=
  length s = n /\ forallb is_digit s = true.

(** The fields an entry takes from the link target: month and day of two
    digits, an identifier of at least one digit, a year below 10000, the
    date put together from them, and an absolute URL. *)
Definition linkFieldsOk (e : LawIndexEntry) : Prop :=
  digitString 2 (month e) /\ digitString 2 (day e)
  /\ numac e <> [] /\ forallb is_digit (numac e) = true
  /\ (year e <= 9999)%N
  /\ date e = toString10 (year e) ++ lit "-" ++ month e ++ lit "-" ++ day e
  /\ startsWith (lit "http") (justelUrl e) = true.

(** A date written DD-MM-YYYY. *)
Definition dashedDate (s : jsstring) : Prop :=
  exists d m y,
    s = d ++ lit "-" ++ m ++ lit "-" ++ y
    /\ digitString 2 d /\ digitString 2 m /\ digitString 4 y.

(** The fields an entry takes from the text of its row: a title on one
    line, single-spaced and trimmed; a trimmed source without a newline; a
    publication date that is empty or written DD-MM-YYYY. *)
Definition textFieldsOk (e : LawIndexEntry) : Prop :=
  singleSpaced (title e) = true /\ trim (title e) = title e
  /\ trim (source e) = source e /\ Forall (fun c => c <> 10%N) (source e)
  /\ (publicationDate e = [] \/ dashedDate (publicationDate e)).

End EntryDefs.

Module ProvisionDefs.
Import Js Parser.

(** A provision as the extractor hands it on: a content that is not empty
    and has no white space at its ends, a reference that begins with art,
    and a title that begins with the word Article. *)
Definition provisionOk (p : ParsedProvision) : Prop :=
  content p <> [] /\ trim (content p) = content p
  /\ startsWith (lit "art") (provision_ref p) = true
  /\ startsWith (lit "Article ") (prov_title p) = true.

(** An optional value read from a labelled line: trimmed, and without a
    line terminator. *)
Definition lineValue (o : option jsstring) : Prop :=
  match o with
  | Some v => trim v = v /\ Forall (fun c => isLineTerminator c = false) v
  | None => True
  end.

(** A parsed law in good shape: the identifier it was asked for, a title
    on one line, single-spaced and trimmed, line values for the entry into
    force and the source, and provisions in good shape. *)
Definition lawOk (numac : jsstring) (law : ParsedLaw) : Prop :=
  law_numac law = numac
  /\ WhitespaceDefs.singleSpaced (law_title law) = true
  /\ trim (law_title law) = law_title law
  /\ lineValue (entryIntoForce law)
  /\ lineValue (law_source law)
  /\ Forall provisionOk (provisions law).

End ProvisionDefs.

(* ------------------------------------------------------------------ *)
(** ** The ingestion driver: discovery and French content *)
(* ------------------------------------------------------------------ *)

Module Pipeline.
Import Js Fetcher Parser Ingest.
Local Open Scope fetch_scope.

(** The options of a run.  The numbers come from [parseInt]: [None] stands
    for [NaN]; the years are non-negative integers, as [fetchYearIndex]
    takes them. *)
Record CliOptions := {
  yearStart : option N;
  yearEnd : option N;
  limit : option Z;
  lang : jsstring;
  phase : jsstring
}.

(** The counters of the French stage and the seed files written, latest
    first. *)
Record FrenchTally := {
  fr_processed : nat;
  fr_failed : nat;
  fr_written : list (jsstring * SeedDocument)
}.

(** The years [for (let year = yearStart; year <= yearEnd; year++)] runs
    through when the last year is a safe integer (below 2^53): up to there
    [year++] is exact.  From 2^53 on the step no longer advances the year
    and the loop of the source does not end; the list is not meant for
    such options. *)
Definition yearsOf (options : CliOptions) : list N :=
  match yearStart options, yearEnd options with
  | Some a, Some b =>
      map (fun i => (a + N.of_nat i)%N) (seq 0 (N.to_nat (b + 1 - a)))
  | _, _ => []
  end.

(** [options.limit > 0 ? allEntries.slice(0, options.limit) : allEntries] *)
Definition limited (options : CliOptions) (allEntries : list LawIndexEntry)
  : list LawIndexEntry :=
  match limit options with
  | Some l => if (0 <? l)%Z then firstn (Z.to_nat l) allEntries
              else allEntries
  | None => allEntries
  end.

Section Stages.

Variable env : Env.
Variable decode : list N -> jsstring.
Variable toLowerCase : jsstring -> jsstring.
Variable jsdom : jsstring -> node.
Variable innerHTML : node -> jsstring.

(** The loop of [runDiscovery] over the years: a year whose index cannot
    be fetched adds nothing, and the loop goes on. *)
Fixpoint discoveryLoop (years : list N) (allEntries : list LawIndexEntry)
  : M (list LawIndexEntry) :=
  match years with
  | [] => ret allEntries
  | year :: rest =>
      r <- fetchYearIndex env decode year Fr ;;
      match r with
      | inr html =>
          let entries := parseYearIndex (jsdom html) Fr in
          discoveryLoop rest (allEntries ++ entries)
      | inl _ => discoveryLoop rest allEntries
      end
  end.

(** [runDiscovery(options)]: the entries it saves as the index and
    returns; console output is left out. *)
Definition runDiscovery (options : CliOptions) : M (list LawIndexEntry) :=
  allEntries <- discoveryLoop (yearsOf options) [] ;;
  ret (limited options allEntries).

(** One iteration of the loop of [runFrenchContent].  The seed file is
    recorded as written; console output is left out. *)
Definition frenchEntry (entry : LawIndexEntry) (t : FrenchTally)
  : M FrenchTally :=
  r <- fetchLawContent env decode (year entry) (month entry) (day entry)
         (numac entry) Fr ;;
  ret match r with
      | inr html =>
          let parsed :=
            parseLawContent toLowerCase jsdom innerHTML html (numac entry) in
          if length (provisions parsed) =? 0 then t
          else
            let seedId :=
              lit "loi-" ++ date entry ++ lit "-" ++ numac entry
                ++ lit "-fr" in
            let seed :=
              {| id := seedId;
                 doc_title := if truthy (law_title parsed)
                              then law_title parsed else title entry;
                 issued_date := date entry;
                 url := buildJustelUrl (year entry) (month entry) (day entry)
                          (numac entry) Fr;
                 language := lit "fr";
                 doc_numac := numac entry;
                 doc_provisions := map seedProvision (provisions parsed) |} in
            {| fr_processed := fr_processed t + 1;
               fr_failed := fr_failed t;
               fr_written := (seedId ++ lit ".json", seed) :: fr_written t |}
      | inl error =>
          {| fr_processed := fr_processed t;
             fr_failed := fr_failed t + 1;
             fr_written := fr_written t |}
      end.

Fixpoint frenchLoop (entries : list LawIndexEntry) (t : FrenchTally)
  : M FrenchTally :=
  match entries with
  | [] => ret t
  | entry :: rest => t' <- frenchEntry entry t ;; frenchLoop rest t'
  end.

(** [runFrenchContent(entries, options)]: the counters it prints. *)
Definition runFrenchContent (entries : list LawIndexEntry) : M FrenchTally :=
  frenchLoop entries
    {| fr_processed := 0; fr_failed := 0; fr_written := [] |}.

End Stages.

End Pipeline.

Module PipelineDefs.
Import Js Fetcher Parser Ingest Pipeline.

(** The requests of a trace, each with the number of its attempt and its
    URL, latest first. *)
Fixpoint logOf (tr : list Event) : list (N * jsstring) :=
  match tr with
  | [] => []
  | Request _ attempt url :: r => (attempt, url) :: logOf r
  | Timer _ _ :: r => logOf r
  end.

(** The requests sent so far, oldest first. *)
Definition requestLog (w : World) : list (N * jsstring) :=
  rev (logOf (trace w)).

(** [k] requests in a row to [url], their attempts numbered from [attempt]
    on. *)
Fixpoint attemptsFrom (attempt : N) (url : jsstring) (k : nat)
  : list (N * jsstring) :=
  match k with
  | O => []
  | S k' => (attempt, url) :: attemptsFrom (attempt + 1) url k'
  end.

(** The requests of one call of the transport for each of the URLs, in
    this order: every call sends its attempts 1 to [k] to its own URL, with
    [k] between one and three, and the requests of the next call follow
    those of the call before. *)
Inductive CallLog : list jsstring -> list (N * jsstring) -> Prop :=
| CallLog_nil : CallLog [] []
| CallLog_cons (url : jsstring) (urls : list jsstring) (k : nat)
    (rest : list (N * jsstring)) :
    (1 <= k <= 3)%nat ->
    CallLog urls rest ->
    CallLog (url :: urls) (attemptsFrom 1 url k ++ rest).

(** The content URL of an entry. *)
Definition contentUrl (language : Lang) (entry : LawIndexEntry) : jsstring :=
  buildJustelUrl (year entry) (month entry) (day entry) (numac entry)
    language.

(** The URL of the index of a year. *)
Definition yearIndexUrl (y : N) : jsstring :=
  BASE_URL ++ lit "/eli/loi/" ++ toString10 y.

(** The last year of the options is a safe integer, so that the loop of
    [runDiscovery] runs through the years of [yearsOf] and ends. *)
Definition safeYears (options : CliOptions) : Prop :=
  match yearEnd options with
  | Some b => (b < 2 ^ 53)%N
  | None => True
  end.

(** A seed document written for one of the entries, in a language: it
    holds at least one provision, none with an empty content, and its
    URL, date and identifier are those of the entry. *)
Definition seedOf (language : Lang) (tag : jsstring)
  (entries : list LawIndexEntry) (file : jsstring * SeedDocument) : Prop :=
  let seed := snd file in
  doc_provisions seed <> []
  /\ Forall (fun sp => sp_content sp <> []) (doc_provisions seed)
  /\ Ingest.language seed = tag
  /\ exists entry,
       In entry entries
       /\ url seed = contentUrl language entry
       /\ issued_date seed = date entry
       /\ doc_numac seed = numac entry
       /\ fst file = id seed ++ lit ".json".

(** What holds of the French tally once the entries [seen] are through:
    each of them is counted at most once, every file written is counted as
    processed, and every file is the seed of one of the entries. *)
Definition frenchInv (seen : list LawIndexEntry) (t : FrenchTally) : Prop :=
  fr_processed t + fr_failed t <= length seen
  /\ length (fr_written t) = fr_processed t
  /\ Forall (seedOf Fr (lit "fr") seen) (fr_written t).

(** The same of the Dutch tally: an entry is counted as processed, as
    failed or as skipped, and an entry counted as failed may be counted as
    skipped too. *)
Definition dutchInv (seen : list LawIndexEntry) (t : Tally) : Prop :=
  processed t + failed t <= length seen
  /\ length seen <= processed t + failed t + skipped t
  /\ skipped t <= length seen
  /\ length (written t) = processed t
  /\ Forall (seedOf Nl (lit "nl") seen) (written t).

(** Between the worlds [w] and [w'] the transport was called once for each
    of [urls], in this order, and nothing else was sent: the requests added
    to the log are those of one call per URL, between one and three per
    call, and the count of requests grew by their number. *)
Definition Fetched (urls : list jsstring) (w w' : World) : Prop :=
  exists log,
    CallLog urls log
    /\ requestLog w' = requestLog w ++ log
    /\ requests w' = (requests w + length log)%nat.

(** The URL of a seed document is decomposed by the pattern of the index
    into the identifier of the document and the parts of its date. *)
Definition seedUrlOk (seed : SeedDocument) : Prop :=
  exists ys m d,
    urlMatch (url seed) = Some (ys, m, d, doc_numac seed)
    /\ issued_date seed = ys ++ lit "-" ++ m ++ lit "-" ++ d.

(** A document whose text section is its only element. *)
Definition textSectionOnly (html : jsstring) : node :=
  Element (lit "div") [(lit "id", lit "list-title-3")] [TextNode html].

(** A network that answers every request with an article. *)
Definition articlePage : Env :=
  {| outcome := fun _ _ =>
       Responds 200
         (BodyBytes (lit "<A NAME='Art.2'>Art. 2</A>. Le Roi fixe la date."));
     latency := fun _ => 40%N;
     timerLag := fun _ => 0%N |}.

(** A network on which every request is answered with the status 500. *)
Definition serverError : Env :=
  {| outcome := fun _ _ => Responds 500 (BodyBytes []);
     latency := fun _ => 20%N;
     timerLag := fun _ => 0%N |}.

(** Options for the years 2020 and 2021. *)
Definition sampleYears : CliOptions :=
  {| yearStart := Some 2020%N;
     yearEnd := Some 2021%N;
     limit := None;
     lang := lit "fr";
     phase := lit "discover" |}.

(** An entry whose identifier holds the digits 404. *)
Definition entry2004 : LawIndexEntry :=
  {| index := 1;
     title := lit "Wet";
     date := lit "2004-03-09";
     year := 2004;
     month := lit "03";
     day := lit "09";
     numac := lit "2004040123";
     justelUrl :=
       lit "http://www.ejustice.just.fgov.be/eli/loi/2004/03/09/2004040123/justel";
     source := [];
     publicationDate := [] |}.

End PipelineDefs.

(* ------------------------------------------------------------------ *)
(** ** The search tools: limits and prepared statements *)
(* ------------------------------------------------------------------ *)

From Stdlib Require QArith.

Module Tools.
Import Js Fetcher FtsQuery.

(** A Number of JavaScript, as far as the tools compare one: not a number,
    an infinity, or a finite value.  Every finite double is a rational;
    the two zeros are not told apart. *)
Inductive number :=
| NaN
| Infinity (negative : bool)
| Finite (q : QArith_base.Q).

Definition ofZ (z : Z) : number := Finite (QArith_base.inject_Z z).

(** [Math.max(a, b)] *)
Definition Math_max (a b : number) : number :=
  match a, b with
  | NaN, _ | _, NaN => NaN
  | Infinity false, _ | _, Infinity false => Infinity false
  | Infinity true, x | x, Infinity true => x
  | Finite p, Finite q => if QArith_base.Qle_bool p q then b else a
  end.

(** [Math.min(a, b)] *)
Definition Math_min (a b : number) : number :=
  match a, b with
  | NaN, _ | _, NaN => NaN
  | Infinity true, _ | _, Infinity true => Infinity true
  | Infinity false, x | x, Infinity false => x
  | Finite p, Finite q => if QArith_base.Qle_bool p q then a else b
  end.

(** [Math.min(Math.max(limit ?? DEFAULT_LIMIT, 1), MAX_LIMIT)] *)
Definition clampLimit (limit : option number) (DEFAULT_LIMIT MAX_LIMIT : number)
  : number :=
  Math_min
    (Math_max (match limit with Some n => n | None => DEFAULT_LIMIT end)
       (ofZ 1))
    MAX_LIMIT.

(** A value bound to a placeholder. *)
Inductive SqlParam :=
| PString (s : jsstring)
| PNumber (n : number).

(** The text of a statement and the values bound to it. *)
Definition Statement : Type := jsstring * list SqlParam.

(** Truthiness of an optional string. *)
Definition given (o : option jsstring) : bool :=
  match o with Some s => truthy s | None => false end.

(** [if (value) { sql += clause; params.push(value); }] *)
Definition andWhere (value : option jsstring) (clause : jsstring)
  (st : Statement) : Statement :=
  match value with
  | Some v => if truthy v then (fst st ++ clause, snd st ++ [PString v])
              else st
  | None => st
  end.

(** [sql += clause; params.push(limit);] *)
Definition withLimit (clause : jsstring) (limit : number) (st : Statement)
  : Statement :=
  (fst st ++ clause, snd st ++ [PNumber limit]).

(** [!query || query.trim().length === 0] *)
Definition blank (query : jsstring) : bool :=
  negb (truthy query) || (length (trim query) =? 0).

Record ToolResponse (R Meta : Type) := {
  results : R;
  _metadata : Meta
}.

(** Sequencing of calls that may throw. *)
Definition andThen (A B : Type) (r : Error + A) (k : A -> Error + B)
  : Error + B :=
  match r with inl e => inl e | inr a => k a end.

(* ---------------------------------------------------------------- *)

Module GetDefinitions.

Record GetDefinitionsInput := {
  term : jsstring;
  document_id : option jsstring;
  limit : option number
}.

Definition DEFAULT_LIMIT : number := ofZ 10.
Definition MAX_LIMIT : number := ofZ 50.

(** The statement of the full-text branch. *)
Definition ftsStatement (input : GetDefinitionsInput) (limit : number)
  (sanitized : jsstring) : Statement :=
  let sql := lit "
      SELECT
        d.term,
        d.term_en,
        d.definition,
        d.source_provision,
        d.document_id,
        ld.title as document_title
      FROM definitions_fts
      JOIN definitions d ON d.id = definitions_fts.rowid
      JOIN legal_documents ld ON ld.id = d.document_id
      WHERE definitions_fts MATCH ?
    " in
  let ftsQuery := [34%N] ++ sanitized ++ [34%N; 42%N] in
  withLimit (lit " LIMIT ?") limit
    (andWhere (document_id input) (lit " AND d.document_id = ?")
       (sql, [PString ftsQuery])).

(** The statement of the branch for very short terms. *)
Definition likeStatement (input : GetDefinitionsInput) (limit : number)
  (sanitized : jsstring) : Statement :=
  let sql := lit "
      SELECT
        d.term,
        d.term_en,
        d.definition,
        d.source_provision,
        d.document_id,
        ld.title as document_title
      FROM definitions d
      JOIN legal_documents ld ON ld.id = d.document_id
      WHERE d.term LIKE ?
    " in
  withLimit (lit " LIMIT ?") limit
    (andWhere (document_id input) (lit " AND d.document_id = ?")
       (sql, [PString ([37%N] ++ sanitized ++ [37%N])])).

Section Database.

Variable Row : Type.
Variable Meta : Type.
(** [db.prepare(sql).all(...params)]: the rows, or what it throws. *)
Variable all : jsstring -> list SqlParam -> Error + list Row.
(** [generateResponseMetadata(db)] *)
Variable metadata : Meta.

(** [getDefinitions(db, input)] *)
Definition getDefinitions (input : GetDefinitionsInput)
  : Error + ToolResponse (list Row) Meta :=
  if blank (term input) then
    inr {| results := []; _metadata := metadata |}
  else
    let limit := clampLimit (limit input) DEFAULT_LIMIT MAX_LIMIT in
    let sanitized := sanitizeFtsInput (term input) in
    let st := if 2 <=? length sanitized
              then ftsStatement input limit sanitized
              else likeStatement input limit sanitized in
    andThen (all (fst st) (snd st))
      (fun results => inr {| results := results; _metadata := metadata |}).

End Database.

End GetDefinitions.

(* ---------------------------------------------------------------- *)

Module SearchCaseLaw.

Record SearchCaseLawInput := {
  query : jsstring;
  court : option jsstring;
  date_from : option jsstring;
  date_to : option jsstring;
  limit : option number
}.

Definition DEFAULT_LIMIT : number := ofZ 10.
Definition MAX_LIMIT : number := ofZ 50.

(** The statement that [run(ftsQuery)] prepares. *)
Definition statement (input : SearchCaseLawInput) (limit : number)
  (ftsQuery : jsstring) : Statement :=
  let sql := lit "
      SELECT
        cl.document_id,
        cl.court,
        cl.case_number,
        cl.decision_date,
        cl.summary,
        cl.keywords,
        snippet(case_law_fts, 0, '>>>', '<<<', '...', 32) as snippet
      FROM case_law_fts
      JOIN case_law cl ON cl.id = case_law_fts.rowid
      WHERE case_law_fts MATCH ?
    " in
  withLimit (lit " ORDER BY bm25(case_law_fts) LIMIT ?") limit
    (andWhere (date_to input) (lit " AND cl.decision_date <= ?")
       (andWhere (date_from input) (lit " AND cl.decision_date >= ?")
          (andWhere (court input) (lit " AND cl.court = ?")
             (sql, [PString ftsQuery])))).

Section Database.

Variable Row : Type.
Variable Meta : Type.
Variable all : jsstring -> list SqlParam -> Error + list Row.
Variable metadata : Meta.

(** [searchCaseLaw(db, input)] *)
Definition searchCaseLaw (input : SearchCaseLawInput)
  : Error + ToolResponse (list Row) Meta :=
  if blank (query input) then
    inr {| results := []; _metadata := metadata |}
  else
    let limit := clampLimit (limit input) DEFAULT_LIMIT MAX_LIMIT in
    let queryVariants :=
      buildFtsQueryVariants (sanitizeFtsInput (query input)) in
    let run (ftsQuery : jsstring) :=
      let st := statement input limit ftsQuery in
      all (fst st) (snd st) in
    andThen (run (primary queryVariants)) (fun primary =>
    andThen
      (match fallback queryVariants with
       | Some fb =>
           if (0 <? length primary) || negb (truthy fb) then inr primary
           else run fb
       | None => inr primary
       end)
      (fun results => inr {| results := results; _metadata := metadata |})).

End Database.

End SearchCaseLaw.

(* ---------------------------------------------------------------- *)

Module SearchLegislation.

Record SearchLegislationInput := {
  query : jsstring;
  document_id : option jsstring;
  status : option jsstring;
  as_of_date : option jsstring;
  limit : option number
}.

Definition DEFAULT_LIMIT : number := ofZ 10.
Definition MAX_LIMIT : number := ofZ 50.

(** The statement of [runCurrentQuery(ftsQuery)]. *)
Definition currentStatement (input : SearchLegislationInput) (limit : number)
  (ftsQuery : jsstring) : Statement :=
  let sql := lit "
      SELECT
        lp.document_id,
        ld.title as document_title,
        lp.provision_ref,
        lp.chapter,
        lp.section,
        lp.title,
        snippet(provisions_fts, 0, '>>>', '<<<', '...', 32) as snippet,
        bm25(provisions_fts) as relevance,
        NULL as valid_from,
        NULL as valid_to
      FROM provisions_fts
      JOIN legal_provisions lp ON lp.id = provisions_fts.rowid
      JOIN legal_documents ld ON ld.id = lp.document_id
      WHERE provisions_fts MATCH ?
    " in
  withLimit (lit " ORDER BY relevance LIMIT ?") limit
    (andWhere (status input) (lit " AND ld.status = ?")
       (andWhere (document_id input) (lit " AND lp.document_id = ?")
          (sql, [PString ftsQuery]))).

(** The statement of [runHistoricalQuery(ftsQuery)] for a date. *)
Definition historicalStatement (input : SearchLegislationInput)
  (limit : number) (asOfDate ftsQuery : jsstring) : Statement :=
  let sql := lit "
      WITH ranked_versions AS (
        SELECT
          lpv.document_id,
          ld.title as document_title,
          lpv.provision_ref,
          lpv.chapter,
          lpv.section,
          lpv.title,
          substr(lpv.content, 1, 320) as snippet,
          0.0 as relevance,
          lpv.valid_from,
          lpv.valid_to,
          row_number() OVER (
            PARTITION BY lpv.document_id, lpv.provision_ref
            ORDER BY COALESCE(lpv.valid_from, '0000-01-01') DESC, lpv.id DESC
          ) as version_rank
        FROM provision_versions_fts
        JOIN legal_provision_versions lpv ON lpv.id = provision_versions_fts.rowid
        JOIN legal_documents ld ON ld.id = lpv.document_id
        WHERE provision_versions_fts MATCH ?
          AND (lpv.valid_from IS NULL OR lpv.valid_from <= ?)
          AND (lpv.valid_to IS NULL OR lpv.valid_to > ?)
    " in
  withLimit (lit "
      )
      SELECT
        document_id,
        document_title,
        provision_ref,
        chapter,
        section,
        title,
        snippet,
        relevance,
        valid_from,
        valid_to
      FROM ranked_versions
      WHERE version_rank = 1
      ORDER BY relevance
      LIMIT ?
    ") limit
    (andWhere (status input) (lit " AND ld.status = ?")
       (andWhere (document_id input) (lit " AND lpv.document_id = ?")
          (sql, [PString ftsQuery; PString asOfDate; PString asOfDate]))).

Section Database.

Variable Row : Type.
Variable Meta : Type.
Variable all : jsstring -> list SqlParam -> Error + list Row.
Variable metadata : Meta.
(** [normalizeAsOfDate(input.as_of_date)]: a date, nothing, or what it
    throws. *)
Variable normalizeAsOfDate : option jsstring -> Error + option jsstring.

(** [searchLegislation(db, input)] *)
Definition searchLegislation (input : SearchLegislationInput)
  : Error + ToolResponse (list Row) Meta :=
  if blank (query input) then
    inr {| results := []; _metadata := metadata |}
  else
    let limit := clampLimit (limit input) DEFAULT_LIMIT MAX_LIMIT in
    let queryVariants :=
      buildFtsQueryVariants (sanitizeFtsInput (query input)) in
    andThen (normalizeAsOfDate (as_of_date input)) (fun asOfDate =>
    let runCurrentQuery (ftsQuery : jsstring) :=
      let st := currentStatement input limit ftsQuery in
      all (fst st) (snd st) in
    let runHistoricalQuery (ftsQuery : jsstring) :=
      match asOfDate with
      | Some date =>
          if negb (truthy date) then inr []
          else
            let st := historicalStatement input limit date ftsQuery in
            all (fst st) (snd st)
      | None => inr []
      end in
    let queryWithFallback (ftsQuery : jsstring) :=
      if negb (given asOfDate) then runCurrentQuery ftsQuery
      else
        andThen (runHistoricalQuery ftsQuery) (fun historical =>
        if 0 <? length historical then inr historical
        else runCurrentQuery ftsQuery) in
    andThen (queryWithFallback (primary queryVariants))
      (fun primaryResults =>
    andThen
      (match fallback queryVariants with
       | Some fb =>
           if (0 <? length primaryResults) || negb (truthy fb)
           then inr primaryResults
           else queryWithFallback fb
       | None => inr primaryResults
       end)
      (fun results =>
         inr {| results := results; _metadata := metadata |}))).

End Database.

End SearchLegislation.

(* ---------------------------------------------------------------- *)

Module BuildLegalStance.

Record BuildLegalStanceInput := {
  query : jsstring;
  document_id : option jsstring;
  include_case_law : option bool;
  include_preparatory_works : option bool;
  as_of_date : option jsstring;
  limit : option number
}.

Record LegalStanceResult (ProvisionHit : Type) := {
  stance_query : jsstring;
  provisions : list ProvisionHit;
  total_citations : nat;
  stance_as_of_date : option jsstring
}.

Definition DEFAULT_LIMIT : number := ofZ 5.
Definition MAX_LIMIT : number := ofZ 20.

(** The statement of [runCurrentProvisionQuery(ftsQuery)]. *)
Definition currentStatement (input : BuildLegalStanceInput) (limit : number)
  (ftsQuery : jsstring) : Statement :=
  let provSql := lit "
      SELECT
        lp.document_id,
        ld.title as document_title,
        lp.provision_ref,
        lp.title,
        snippet(provisions_fts, 0, '>>>', '<<<', '...', 32) as snippet,
        bm25(provisions_fts) as relevance
      FROM provisions_fts
      JOIN legal_provisions lp ON lp.id = provisions_fts.rowid
      JOIN legal_documents ld ON ld.id = lp.document_id
      WHERE provisions_fts MATCH ?
    " in
  withLimit (lit " ORDER BY relevance LIMIT ?") limit
    (andWhere (document_id input) (lit " AND lp.document_id = ?")
       (provSql, [PString ftsQuery])).

(** The statement of [runHistoricalProvisionQuery(ftsQuery)] for a date. *)
Definition historicalStatement (input : BuildLegalStanceInput)
  (limit : number) (asOfDate ftsQuery : jsstring) : Statement :=
  let provSql := lit "
      WITH ranked_versions AS (
        SELECT
          lpv.document_id,
          ld.title as document_title,
          lpv.provision_ref,
          lpv.title,
          substr(lpv.content, 1, 320) as snippet,
          0.0 as relevance,
          row_number() OVER (
            PARTITION BY lpv.document_id, lpv.provision_ref
            ORDER BY COALESCE(lpv.valid_from, '0000-01-01') DESC, lpv.id DESC
          ) as version_rank
        FROM provision_versions_fts
        JOIN legal_provision_versions lpv ON lpv.id = provision_versions_fts.rowid
        JOIN legal_documents ld ON ld.id = lpv.document_id
        WHERE provision_versions_fts MATCH ?
          AND (lpv.valid_from IS NULL OR lpv.valid_from <= ?)
          AND (lpv.valid_to IS NULL OR lpv.valid_to > ?)
    " in
  withLimit (lit "
      )
      SELECT
        document_id,
        document_title,
        provision_ref,
        title,
        snippet,
        relevance
      FROM ranked_versions
      WHERE version_rank = 1
      ORDER BY relevance
      LIMIT ?
    ") limit
    (andWhere (document_id input) (lit " AND lpv.document_id = ?")
       (provSql, [PString ftsQuery; PString asOfDate; PString asOfDate])).

Section Database.

Variable ProvisionHit : Type.
Variable Meta : Type.
Variable all : jsstring -> list SqlParam -> Error + list ProvisionHit.
Variable metadata : Meta.
Variable normalizeAsOfDate : option jsstring -> Error + option jsstring.

(** [buildLegalStance(db, input)] *)
Definition buildLegalStance (input : BuildLegalStanceInput)
  : Error + ToolResponse (LegalStanceResult ProvisionHit) Meta :=
  if blank (query input) then
    inr {| results := {| stance_query := []; provisions := [];
                         total_citations := 0;
                         stance_as_of_date := None |};
           _metadata := metadata |}
  else
    let limit := clampLimit (limit input) DEFAULT_LIMIT MAX_LIMIT in
    let queryVariants :=
      buildFtsQueryVariants (sanitizeFtsInput (query input)) in
    andThen (normalizeAsOfDate (as_of_date input)) (fun asOfDate =>
    let runCurrentProvisionQuery (ftsQuery : jsstring) :=
      let st := currentStatement input limit ftsQuery in
      all (fst st) (snd st) in
    let runHistoricalProvisionQuery (ftsQuery : jsstring) :=
      match asOfDate with
      | Some date =>
          if negb (truthy date) then inr []
          else
            let st := historicalStatement input limit date ftsQuery in
            all (fst st) (snd st)
      | None => inr []
      end in
    let runProvisionQuery (ftsQuery : jsstring) :=
      if negb (given asOfDate) then runCurrentProvisionQuery ftsQuery
      else
        andThen (runHistoricalProvisionQuery ftsQuery)
          (fun historicalResults =>
        if 0 <? length historicalResults then inr historicalResults
        else runCurrentProvisionQuery ftsQuery) in
    andThen (runProvisionQuery (primary queryVariants)) (fun provisions =>
    andThen
      (match fallback queryVariants with
       | Some fb =>
           if (length provisions =? 0) && truthy fb
           then runProvisionQuery fb
           else inr provisions
       | None => inr provisions
       end)
      (fun provisions =>
         inr {| results := {| stance_query := query input;
                              provisions := provisions;
                              total_citations := length provisions;
                              stance_as_of_date := asOfDate |};
                _metadata := metadata |}))).

End Database.

End BuildLegalStance.

End Tools.

Module ToolsDefs.
Import Js Tools.

(** Number of placeholders of a statement text. *)
Definition placeholders (sql : jsstring) : nat :=
  length (filter (ceq 63%N) sql).

(** A statement binds one value to each placeholder. *)
Definition bound (st : Statement) : Prop :=
  placeholders (fst st) = length (snd st).

(** What the clamped limit is, by the limit given: the default when none
    is given, not a number when the limit is not a number, and otherwise a
    finite value between 1 and the maximum. *)
Definition limitOk (DEFAULT_LIMIT MAX_LIMIT : Z) (limit : option number)
  (clamped : number) : Prop :=
  match limit with
  | None => clamped = ofZ DEFAULT_LIMIT
  | Some NaN => clamped = NaN
  | Some _ =>
      match clamped with
      | Finite q =>
          QArith_base.Qle (QArith_base.inject_Z 1) q
          /\ QArith_base.Qle q (QArith_base.inject_Z MAX_LIMIT)
      | _ => False
      end
  end.

End ToolsDefs.

(* ================================================================== *)
(** * Properties *)
(* ================================================================== *)

Unset Implicit Arguments.

(** ** Strings *)

Module JsFacts.
Import Js.

Lemma ceq_eq (a b : char) : ceq a b = true <-> a = b.
Proof. unfold ceq. apply N.eqb_eq. Qed.

Lemma ceq_refl (a : char) : ceq a a = true.
Proof. apply ceq_eq. reflexivity. Qed.

Lemma str_eqb_eq (a b : jsstring) : str_eqb a b = true <-> a = b.
Proof.
  revert b. induction a as [|x a IH]; intros [|y b]; simpl;
    try (split; [discriminate | discriminate]).
  - split; reflexivity.
  - rewrite andb_true_iff, ceq_eq, IH. split.
    + intros [-> ->]. reflexivity.
    + intros H. injection H as -> ->. split; reflexivity.
Qed.

Lemma str_eqb_refl (a : jsstring) : str_eqb a a = true.
Proof. apply str_eqb_eq. reflexivity. Qed.

Lemma str_eqb_neq (a b : jsstring) : str_eqb a b = false <-> a <> b.
Proof.
  rewrite <- str_eqb_eq. destruct (str_eqb a b); split; congruence.
Qed.

(** The fuel of a global replacement is enough once it reaches the length
    of the subject: more fuel gives the same result. *)
Lemma replace_from_fuel (m : matcher jsstring) (f1 f2 : nat) (s : jsstring) :
  length s <= f1 -> length s <= f2 ->
  replace_from m f1 s = replace_from m f2 s.
Proof.
  revert f2 s. induction f1 as [|f1 IH]; intros f2 s H1 H2.
  - destruct s; [|simpl in H1; lia]. destruct f2; reflexivity.
  - destruct s as [|c r]; [destruct f2; reflexivity|].
    destruct f2 as [|f2]; [simpl in H2; lia|].
    simpl in H1, H2. cbn [replace_from].
    destruct (m (c :: r)) as [[n rep]|].
    + f_equal. apply IH.
      * rewrite length_skipn. lia.
      * rewrite length_skipn. lia.
    + f_equal. apply IH; lia.
Qed.

Lemma replaceAll_fuel (m : matcher jsstring) (k : nat) (s : jsstring) :
  replace_from m (length s + k) s = replaceAll m s.
Proof. unfold replaceAll. apply replace_from_fuel; lia. Qed.

End JsFacts.

(** ** Consolidation of provisions *)

Module BuildDbFacts.
Import Js JsFacts BuildDb BuildDbDefs.

Lemma mapGet_mapSet_same k v m : mapGet k (mapSet k v m) = Some v.
Proof.
  induction m as [|[k' v'] m IH]; simpl.
  - rewrite str_eqb_refl. reflexivity.
  - destruct (str_eqb k' k) eqn:E; simpl; rewrite E; auto.
Qed.

Lemma mapGet_mapSet_other k k' v m :
  k' <> k -> mapGet k' (mapSet k v m) = mapGet k' m.
Proof.
  intros Hne. induction m as [|[k0 v0] m IH]; simpl.
  - apply str_eqb_neq in Hne.
    destruct (str_eqb k k') eqn:E; auto.
    apply str_eqb_eq in E. subst. rewrite str_eqb_refl in Hne. discriminate.
  - assert (Hkk : str_eqb k k' = false)
      by (apply str_eqb_neq; congruence).
    destruct (str_eqb k0 k) eqn:E; simpl.
    + apply str_eqb_eq in E. subst k0. rewrite Hkk. reflexivity.
    + rewrite IH. reflexivity.
Qed.

Lemma mapGet_existsb k m :
  existsb (str_eqb k) (map fst m)
  = match mapGet k m with Some _ => true | None => false end.
Proof.
  induction m as [|[k' v'] m IH]; simpl; auto.
  destruct (str_eqb k' k) eqn:E.
  - apply str_eqb_eq in E. subst. rewrite str_eqb_refl. reflexivity.
  - assert (str_eqb k k' = false) as ->.
    { apply str_eqb_neq. apply str_eqb_neq in E. congruence. }
    simpl. exact IH.
Qed.

Lemma keys_mapSet k v m :
  map fst (mapSet k v m) = addKey (map fst m) k.
Proof.
  unfold addKey. induction m as [|[k' v'] m IH]; simpl; auto.
  destruct (str_eqb k' k) eqn:E; simpl.
  - apply str_eqb_eq in E. subst. rewrite str_eqb_refl. reflexivity.
  - assert (str_eqb k k' = false) as ->.
    { apply str_eqb_neq. apply str_eqb_neq in E. congruence. }
    simpl. rewrite IH.
    destruct (existsb (str_eqb k) (map fst m)); reflexivity.
Qed.

Lemma addKey_present k keys :
  existsb (str_eqb k) keys = true -> addKey keys k = keys.
Proof. unfold addKey. intros ->. reflexivity. Qed.

(** A step files the provision under its trimmed reference and touches no
    other key. *)
Lemma keys_dedupeStep m p :
  map fst (dedupeStep m p) = addKey (map fst m) (trim (provision_ref p)).
Proof.
  unfold dedupeStep.
  destruct (mapGet (trim (provision_ref p)) m) as [ex|] eqn:G.
  - assert (P : existsb (str_eqb (trim (provision_ref p))) (map fst m) = true)
      by (rewrite mapGet_existsb, G; reflexivity).
    destruct (normLen ex <? normLen p).
    + rewrite keys_mapSet. reflexivity.
    + rewrite addKey_present; auto.
  - apply keys_mapSet.
Qed.

Lemma keys_fold l m :
  map fst (fold_left dedupeStep l m)
  = fold_left addKey (map (fun p => trim (provision_ref p)) l) (map fst m).
Proof.
  revert m. induction l as [|p l IH]; intros m; simpl; auto.
  rewrite IH, keys_dedupeStep. reflexivity.
Qed.

Lemma mapGet_dedupeStep_other m p k :
  k <> trim (provision_ref p) -> mapGet k (dedupeStep m p) = mapGet k m.
Proof.
  intros Hne. unfold dedupeStep.
  destruct (mapGet (trim (provision_ref p)) m) as [ex|].
  - destruct (normLen ex <? normLen p); auto.
    apply mapGet_mapSet_other; auto.
  - apply mapGet_mapSet_other; auto.
Qed.

Lemma In_mapSet k v m k0 v0 :
  In (k0, v0) (mapSet k v m) -> (k0 = k /\ v0 = v) \/ In (k0, v0) m.
Proof.
  induction m as [|[k' v'] m IH]; simpl.
  - intros [H|[]]. injection H as <- <-. auto.
  - destruct (str_eqb k' k) eqn:E; simpl.
    + apply str_eqb_eq in E. subst k'.
      intros [H|H]; [injection H as <- <-; auto | auto].
    + intros [H|H]; auto. destruct (IH H); auto.
Qed.

Lemma NoDup_addKey keys k : NoDup keys -> NoDup (addKey keys k).
Proof.
  intros H. unfold addKey.
  destruct (existsb (str_eqb k) keys) eqn:E; auto.
  apply NoDup_app; auto.
  - constructor; [intros [] | constructor].
  - intros x Hx [Hk|[]]. subst x.
    assert (existsb (str_eqb k) keys = true).
    { apply existsb_exists. exists k. split; auto. apply str_eqb_refl. }
    congruence.
Qed.

Lemma wellKeyed_mapSet k v m :
  provision_ref v = k -> wellKeyed m -> wellKeyed (mapSet k v m).
Proof.
  intros Hk [Hnd Hkeys]. split.
  - rewrite keys_mapSet. apply NoDup_addKey; auto.
  - intros k0 v0 H. destruct (In_mapSet _ _ _ _ _ H) as [[-> ->]|H']; auto.
Qed.

Lemma wellKeyed_dedupeStep m p : wellKeyed m -> wellKeyed (dedupeStep m p).
Proof.
  intros W. unfold dedupeStep.
  destruct (mapGet (trim (provision_ref p)) m) as [ex|].
  - destruct (normLen ex <? normLen p); auto.
    apply wellKeyed_mapSet; auto.
  - apply wellKeyed_mapSet; auto.
Qed.

Lemma wellKeyed_fold l m :
  wellKeyed m -> wellKeyed (fold_left dedupeStep l m).
Proof.
  revert m. induction l as [|p l IH]; intros m W; simpl; auto.
  apply IH, wellKeyed_dedupeStep, W.
Qed.

Lemma wellKeyed_nil : wellKeyed [].
Proof. split; [constructor | intros k v []]. Qed.

Lemma wellKeyed_tail k v m : wellKeyed ((k, v) :: m) -> wellKeyed m.
Proof.
  intros [Hnd Hkeys]. split.
  - inversion Hnd; assumption.
  - intros k' v' H. apply Hkeys. right. exact H.
Qed.

Lemma filter_ref_absent m r :
  wellKeyed m -> ~ In r (map fst m) ->
  filter (fun o => str_eqb (provision_ref o) r) (map snd m) = [].
Proof.
  induction m as [|[k1 v1] m IH]; simpl; auto.
  intros W Hnotin.
  assert (provision_ref v1 = k1) as ->
      by (apply (proj2 W); left; reflexivity).
  destruct (str_eqb k1 r) eqn:E.
  - apply str_eqb_eq in E. subst. exfalso. apply Hnotin. left. reflexivity.
  - apply IH.
    + eapply wellKeyed_tail; eauto.
    + intros H. apply Hnotin. right. exact H.
Qed.

(** In a well-keyed map the records of a reference are the one looked up. *)
Lemma filter_ref_lookup m r v :
  wellKeyed m -> mapGet r m = Some v ->
  filter (fun o => str_eqb (provision_ref o) r) (map snd m) = [v].
Proof.
  induction m as [|[k0 v0] m IH]; simpl; [discriminate|].
  intros W G.
  assert (Hk0 : provision_ref v0 = k0) by (apply (proj2 W); left; reflexivity).
  rewrite Hk0. destruct (str_eqb k0 r) eqn:E.
  - injection G as ->. f_equal.
    apply str_eqb_eq in E. subst k0.
    apply filter_ref_absent.
    + eapply wellKeyed_tail; eauto.
    + destruct W as [Hnd _]. inversion Hnd; assumption.
  - apply IH; auto. eapply wellKeyed_tail; eauto.
Qed.

Lemma mapGet_fold_absent l m r :
  mapGet r m = None ->
  (forall x, In x l -> trim (provision_ref x) <> r) ->
  mapGet r (fold_left dedupeStep l m) = None.
Proof.
  revert m. induction l as [|p l IH]; intros m G H; simpl; auto.
  apply IH.
  - rewrite mapGet_dedupeStep_other; auto.
    intros E. apply (H p); [left; reflexivity | congruence].
  - intros x Hx. apply H. right. exact Hx.
Qed.

Lemma normLen_withRef p r : normLen (withRef p r) = normLen p.
Proof. reflexivity. Qed.

(** A stored record stays as long as no strictly longer duplicate comes. *)
Lemma mapGet_fold_kept l m r v :
  mapGet r m = Some v ->
  (forall x, In x l -> trim (provision_ref x) = r -> normLen x <= normLen v) ->
  mapGet r (fold_left dedupeStep l m) = Some v.
Proof.
  revert m. induction l as [|p l IH]; intros m G H; simpl; auto.
  apply IH.
  - destruct (list_eq_dec N.eq_dec (trim (provision_ref p)) r) as [E|E].
    + unfold dedupeStep. rewrite E, G.
      assert (normLen p <= normLen v) by (apply H; [left; reflexivity | exact E]).
      destruct (Nat.ltb_spec (normLen v) (normLen p)); [lia | exact G].
    + rewrite mapGet_dedupeStep_other; auto.
  - intros x Hx. apply H. right. exact Hx.
Qed.

Lemma refs_of_wellKeyed m :
  wellKeyed m -> map provision_ref (map snd m) = map fst m.
Proof.
  induction m as [|[k v] m IH]; simpl; auto.
  intros W. f_equal.
  - apply (proj2 W). left. reflexivity.
  - apply IH. eapply wellKeyed_tail; eauto.
Qed.

(** The references of the output are the trimmed references of the input,
    each once, in the order in which they are first seen: no reference of
    the input is lost. *)
Lemma dedupe_refs_first_seen (l : list ProvisionSeed) :
  map provision_ref (dedupeProvisions l)
  = firstSeen (map (fun p => trim (provision_ref p)) l).
Proof.
  unfold dedupeProvisions, firstSeen.
  rewrite refs_of_wellKeyed by (apply wellKeyed_fold, wellKeyed_nil).
  apply keys_fold.
Qed.

(** Two provisions with one reference: the second replaces the first only
    when its normalized content is strictly longer, and then inherits the
    title it lacks. *)
Lemma dedupe_pair (p q : ProvisionSeed) :
  trim (provision_ref q) = trim (provision_ref p) ->
  dedupeProvisions [p; q]
  = [ if normLen p <? normLen q then
        {| provision_ref := trim (provision_ref p); chapter := chapter q;
           section := section q;
           title := orElse (title q) (title p);
           content := content q |}
      else withRef p (trim (provision_ref p)) ].
Proof.
  intros E. unfold dedupeProvisions. simpl.
  unfold dedupeStep at 1. simpl.
  unfold dedupeStep. rewrite E. simpl. rewrite str_eqb_refl.
  rewrite normLen_withRef.
  destruct (normLen p <? normLen q); simpl; try rewrite str_eqb_refl;
    reflexivity.
Qed.

(** Of two records of [art1] with 10 and with 200 characters of content the
    longer one is left. *)
Example dedupe_longer_wins :
  map (fun p => length (content p))
    (dedupeProvisions
       [ {| provision_ref := lit "art1"; chapter := None; section := lit "1";
            title := Some (lit "Article 1"); content := repeat 97%N 10 |};
         {| provision_ref := lit "art1"; chapter := None; section := lit "1";
            title := Some (lit "Article 1"); content := repeat 98%N 200 |} ])
  = [200].
Proof. vm_compute. reflexivity. Qed.

(** C10: when articles of the input share a reference and no later one has
    a strictly longer whitespace-normalized content than the first-seen one
    (equal lengths included), the output holds for that reference exactly
    the first-seen article, with its title and content, under the trimmed
    reference; and a stored record is replaced by an incoming one exactly
    when the incoming normalized content is strictly longer. *)
Theorem dedupe_tie_keeps_first :
  forall (before after : list ProvisionSeed) (p : ProvisionSeed),
    (forall x, In x before ->
               trim (provision_ref x) <> trim (provision_ref p)) ->
    (forall x, In x after ->
               trim (provision_ref x) = trim (provision_ref p) ->
               normLen x <= normLen p) ->
    filter (fun o => str_eqb (provision_ref o) (trim (provision_ref p)))
      (dedupeProvisions (before ++ p :: after))
    = [withRef p (trim (provision_ref p))]
    /\ (forall (m : RefMap) (existing q : ProvisionSeed),
          mapGet (trim (provision_ref q)) m = Some existing ->
          (normLen q <= normLen existing -> dedupeStep m q = m)
          /\ (normLen existing < normLen q ->
              mapGet (trim (provision_ref q)) (dedupeStep m q)
              = Some {| provision_ref := trim (provision_ref q);
                        chapter := chapter q; section := section q;
                        title := orElse (title q) (title existing);
                        content := content q |})).
Proof.
  intros before after p Hbefore Hafter. split.
  - unfold dedupeProvisions.
    apply filter_ref_lookup.
    + apply wellKeyed_fold, wellKeyed_nil.
    + rewrite fold_left_app. simpl.
      apply mapGet_fold_kept.
      * unfold dedupeStep.
        rewrite (mapGet_fold_absent before []); auto.
        apply mapGet_mapSet_same.
      * intros x Hx E. rewrite normLen_withRef. auto.
  - intros m existing q G. unfold dedupeStep. rewrite G. split; intros H.
    + destruct (Nat.ltb_spec (normLen existing) (normLen q)); [lia | reflexivity].
    + destruct (Nat.ltb_spec (normLen existing) (normLen q)); [| lia].
      apply mapGet_mapSet_same.
Qed.

Lemma dedupe_tie_keeps_first_witness :
  normLen tie_second = normLen tie_first
  /\ filter (fun o => str_eqb (provision_ref o) (lit "art1"))
       (dedupeProvisions [tie_first; tie_second])
     = [withRef tie_first (lit "art1")].
Proof.
  split; [reflexivity|].
  apply (dedupe_tie_keeps_first [] [tie_second] tie_first).
  - intros x [].
  - intros x [<-|[]] _. vm_compute. apply le_n.
Defined.

(** C4: consolidation of a long untitled record followed by a shorter
    duplicate that carries a title keeps the long record and leaves it
    without a title: the title of the discarded record is taken over only
    where the incoming record replaces the stored one. *)
Theorem dedupe_title_not_taken_from_later_duplicate :
  dedupeProvisions [untitled_long; titled_short] = [untitled_long]
  /\ title untitled_long = None
  /\ title titled_short = Some (lit "Article 1")
  /\ dedupeProvisions [titled_short; untitled_long]
     = [ {| provision_ref := lit "art1"; chapter := None; section := lit "1";
            title := Some (lit "Article 1");
            content := lit "Le texte complet de l'article premier." |} ].
Proof. repeat split; vm_compute; reflexivity. Qed.

End BuildDbFacts.

(** ** The transport *)

Module FetcherFacts.
Import Js JsFacts Fetcher FetcherDefs.
Local Open Scope Z_scope.

(** Every two consecutive times are at least [d] apart, and [t] comes at
    least [d] after all of them. *)
Lemma spaced_snoc (d : Z) (l : list Z) (t : Z) :
  spaced d l = true -> Forall (fun x => x + d <= t) l ->
  spaced d (l ++ [t]) = true.
Proof.
  induction l as [|x l IH]; intros Hs Hall; [reflexivity|].
  destruct l as [|y l].
  - simpl. inversion Hall; subst.
    apply andb_true_iff. split; [apply Z.leb_le; assumption | reflexivity].
  - simpl in Hs. apply andb_true_iff in Hs. destruct Hs as [Hxy Hs].
    change (((x + d <=? y) && spaced d ((y :: l) ++ [t])) = true).
    rewrite Hxy. simpl. apply IH; [exact Hs | inversion Hall; assumption].
Qed.

(** Runs the primitive steps of the world without touching arithmetic. *)
Ltac run_world :=
  cbn [ret fetch setTimeout elapse setLastRequestTime snd fst trace
       lastRequestTime clock requests timers timesOf map stepOf].

Section Transport.

Variable env : Env.
Variable decode : list N -> jsstring.

Lemma attemptOnce_eq (attempt : N) (url : jsstring) (w : World) :
  attemptOnce env decode attempt url w
  = (responseResult decode url (outcome env (requests w) url),
     snd (fetch env attempt url w)).
Proof.
  unfold attemptOnce, bind, fetch, ret, responseResult. simpl.
  destruct (outcome env (requests w) url) as [e|status body]; auto.
Qed.

Lemma rateLimitedFetch_eq (url : jsstring) (w : World) :
  rateLimitedFetch env decode url w
  = retryLoop env decode (S (N.to_nat maxRetries)) 1%N url
      (stamp (limiterWait env w)).
Proof.
  unfold rateLimitedFetch, limiterWait, stamp, bind, dateNow,
    getLastRequestTime.
  destruct (clock w - lastRequestTime w <? RATE_LIMIT_MS); reflexivity.
Qed.

Lemma limiterWait_spacing (w : World) :
  lastRequestTime w + RATE_LIMIT_MS <= clock (limiterWait env w).
Proof.
  unfold limiterWait, RATE_LIMIT_MS.
  destruct (Z.ltb_spec (clock w - lastRequestTime w) 500);
    cbn [setTimeout snd clock]; lia.
Qed.

Lemma limiterWait_history (w : World) :
  history (limiterWait env w)
  = history w
      ++ (if clock w - lastRequestTime w <? RATE_LIMIT_MS
          then [Wait (RATE_LIMIT_MS - (clock w - lastRequestTime w))]
          else []).
Proof.
  unfold limiterWait, history.
  destruct (clock w - lastRequestTime w <? RATE_LIMIT_MS); simpl.
  - reflexivity.
  - rewrite app_nil_r. reflexivity.
Qed.

Lemma limiterWait_times (sel : N -> bool) (w : World) :
  timesOf sel (trace (limiterWait env w)) = timesOf sel (trace w).
Proof.
  unfold limiterWait.
  destruct (clock w - lastRequestTime w <? RATE_LIMIT_MS); reflexivity.
Qed.

Lemma limiterWait_requests (w : World) :
  requests (limiterWait env w) = requests w.
Proof.
  unfold limiterWait.
  destruct (clock w - lastRequestTime w <? RATE_LIMIT_MS); reflexivity.
Qed.

(** The retry loop leaves the time stamp alone, and from the second attempt
    on it initiates no first attempt. *)
Lemma retryLoop_lastRequestTime (fuel : nat) (attempt : N) (url : jsstring)
  (w : World) :
  lastRequestTime (snd (retryLoop env decode fuel attempt url w))
  = lastRequestTime w.
Proof.
  revert attempt w. induction fuel as [|f IH]; intros attempt w; simpl; auto.
  destruct (attempt <=? maxRetries)%N; auto.
  unfold bind. rewrite attemptOnce_eq.
  destruct (responseResult decode url (outcome env (requests w) url)); auto.
  destruct (attempt =? maxRetries)%N; auto.
  unfold setTimeout. cbv beta iota. rewrite IH. reflexivity.
Qed.

Lemma retryLoop_later_attempts (fuel : nat) (attempt : N) (url : jsstring)
  (w : World) :
  (2 <= attempt)%N ->
  timesOf (N.eqb 1) (trace (snd (retryLoop env decode fuel attempt url w)))
  = timesOf (N.eqb 1) (trace w).
Proof.
  revert attempt w. induction fuel as [|f IH]; intros attempt w Ha; simpl; auto.
  destruct (attempt <=? maxRetries)%N; auto.
  unfold bind. rewrite attemptOnce_eq.
  assert (Hsel : (1 =? attempt)%N = false) by (apply N.eqb_neq; lia).
  destruct (responseResult decode url (outcome env (requests w) url)).
  - destruct (attempt =? maxRetries)%N.
    + run_world. rewrite Hsel. reflexivity.
    + unfold setTimeout. cbv beta iota.
      rewrite IH by lia. run_world. rewrite Hsel. reflexivity.
  - run_world. rewrite Hsel. reflexivity.
Qed.

Lemma retryLoop_first_attempt (f : nat) (url : jsstring) (w : World) :
  timesOf (N.eqb 1) (trace (snd (retryLoop env decode (S f) 1%N url w)))
  = clock w :: timesOf (N.eqb 1) (trace w).
Proof.
  simpl. unfold bind. rewrite attemptOnce_eq.
  destruct (responseResult decode url (outcome env (requests w) url)).
  - simpl. unfold setTimeout. cbv beta iota.
    rewrite retryLoop_later_attempts by lia. reflexivity.
  - reflexivity.
Qed.

(** When the first attempt succeeds the call issues this request only. *)
Lemma retryLoop_success_first (f : nat) (url : jsstring) (w : World) :
  succeeds (outcome env (requests w) url) = true ->
  trace (snd (retryLoop env decode (S f) 1%N url w))
  = Request (clock w) 1%N url :: trace w.
Proof.
  intros Hs. simpl. unfold bind. rewrite attemptOnce_eq.
  unfold succeeds in Hs. unfold responseResult.
  destruct (outcome env (requests w) url) as [e|status [buffer|e]];
    try discriminate.
  rewrite Hs. reflexivity.
Qed.

(** One call: the time stamp becomes the time at which the first attempt is
    initiated, which is at least 500 ms after the previous stamp. *)
Lemma rateLimitedFetch_stamp (url : jsstring) (w : World) :
  let w' := snd (rateLimitedFetch env decode url w) in
  let t0 := clock (limiterWait env w) in
  lastRequestTime w' = t0
  /\ timesOf (N.eqb 1) (trace w') = t0 :: timesOf (N.eqb 1) (trace w)
  /\ lastRequestTime w + RATE_LIMIT_MS <= t0.
Proof.
  simpl. rewrite rateLimitedFetch_eq. split; [|split].
  - rewrite retryLoop_lastRequestTime. reflexivity.
  - rewrite retryLoop_first_attempt. simpl.
    rewrite limiterWait_times. reflexivity.
  - apply limiterWait_spacing.
Qed.

Lemma rateLimitedFetch_all_requests (url : jsstring) (w : World) :
  (forall k u, succeeds (outcome env k u) = true) ->
  timesOf (fun _ => true) (trace (snd (rateLimitedFetch env decode url w)))
  = clock (limiterWait env w) :: timesOf (fun _ => true) (trace w).
Proof.
  intros Hok. rewrite rateLimitedFetch_eq.
  rewrite retryLoop_success_first by apply Hok.
  simpl. rewrite limiterWait_times. reflexivity.
Qed.

Lemma Paced_call (sel : N -> bool) (url : jsstring) (w : World) :
  timesOf sel (trace (snd (rateLimitedFetch env decode url w)))
  = clock (limiterWait env w) :: timesOf sel (trace w) ->
  Paced sel w -> Paced sel (snd (rateLimitedFetch env decode url w)).
Proof.
  intros Ht [Hs Hall].
  destruct (rateLimitedFetch_stamp url w) as (Hlast & _ & Hgap).
  unfold Paced. rewrite Ht, Hlast. simpl. split.
  - apply spaced_snoc; auto.
    eapply Forall_impl; [|exact Hall]. simpl. intros t Hle. lia.
  - apply Forall_app. split.
    + eapply Forall_impl; [|exact Hall]. simpl. intros t Hle.
      unfold RATE_LIMIT_MS in Hgap. lia.
    + constructor; [lia | constructor].
Qed.

Lemma session_cons (gap : N) (url : jsstring) (calls : list (N * jsstring))
  (w : World) :
  snd (session env decode ((gap, url) :: calls) w)
  = snd (session env decode calls
           (snd (rateLimitedFetch env decode url (snd (elapse gap w))))).
Proof.
  cbn [session]. unfold bind. cbn [elapse snd].
  destruct (rateLimitedFetch env decode url _) as [r w1].
  cbn [snd]. destruct (session env decode calls w1) as [rs w2].
  reflexivity.
Qed.

Lemma Paced_session (sel : N -> bool) :
  (forall url w,
      timesOf sel (trace (snd (rateLimitedFetch env decode url w)))
      = clock (limiterWait env w) :: timesOf sel (trace w)) ->
  forall calls w, Paced sel w -> Paced sel (snd (session env decode calls w)).
Proof.
  intros Hcall calls. induction calls as [|[gap url] calls IH]; intros w P.
  - exact P.
  - rewrite session_cons. apply IH.
    apply Paced_call; [apply Hcall | exact P].
Qed.

Lemma Paced_initial (sel : N -> bool) (now : Z) : Paced sel (initialWorld now).
Proof. split; [reflexivity | constructor]. Qed.

End Transport.

Lemma history_fetch (env : Env) (attempt : N) (url : jsstring) (w : World) :
  history (snd (fetch env attempt url w)) = history w ++ [Req url].
Proof. reflexivity. Qed.

Lemma history_setTimeout (env : Env) (ms : Z) (w : World) :
  history (snd (setTimeout env ms w)) = history w ++ [Wait ms].
Proof. reflexivity. Qed.

Lemma requests_fetch (env : Env) (attempt : N) (url : jsstring) (w : World) :
  requests (snd (fetch env attempt url w)) = S (requests w).
Proof. reflexivity. Qed.

Lemma requests_setTimeout (env : Env) (ms : Z) (w : World) :
  requests (snd (setTimeout env ms w)) = requests w.
Proof. reflexivity. Qed.

(** One iteration of the retry loop, for an attempt within the budget. *)
Lemma retryLoop_step (env : Env) (decode : list N -> jsstring) (f : nat)
  (attempt : N) (url : jsstring) (w : World) :
  (attempt <= maxRetries)%N ->
  retryLoop env decode (S f) attempt url w
  = match responseResult decode url (outcome env (requests w) url) with
    | inr text => (inr text, snd (fetch env attempt url w))
    | inl error =>
        if (attempt =? maxRetries)%N
        then (inl error, snd (fetch env attempt url w))
        else retryLoop env decode f (attempt + 1)%N url
               (snd (setTimeout env (Z.of_N (attempt * 1000))
                       (snd (fetch env attempt url w))))
    end.
Proof.
  intros Ha. cbn [retryLoop].
  apply N.leb_le in Ha. rewrite Ha.
  unfold bind. rewrite attemptOnce_eq.
  destruct (responseResult decode url (outcome env (requests w) url)); auto.
  destruct (attempt =? maxRetries)%N; reflexivity.
Qed.

(** C5: a call of the transport makes at most three attempts; after the
    failure of attempt n it waits n * 1000 ms (1000, then 2000) before the
    next one; the text decoded from the first successful answer is
    returned; and when the three attempts fail the error of the third is
    what the caller receives. *)
Theorem rateLimitedFetch_retry_policy :
  forall (env : Env) (decode : list N -> jsstring) (url : jsstring)
         (w : World),
    let res (i : nat) :=
      responseResult decode url (outcome env (requests w + i) url) in
    let r := fst (rateLimitedFetch env decode url w) in
    let w' := snd (rateLimitedFetch env decode url w) in
    let pre := history (limiterWait env w) in
    match res 0%nat, res 1%nat, res 2%nat with
    | inr text, _, _ =>
        r = inr text /\ history w' = pre ++ [Req url]
    | inl _, inr text, _ =>
        r = inr text /\ history w' = pre ++ [Req url; Wait 1000; Req url]
    | inl _, inl _, inr text =>
        r = inr text
        /\ history w'
           = pre ++ [Req url; Wait 1000; Req url; Wait 2000; Req url]
    | inl _, inl _, inl error =>
        r = inl error
        /\ history w'
           = pre ++ [Req url; Wait 1000; Req url; Wait 2000; Req url]
    end
    /\ (forall status buffer,
          ok status = true ->
          responseResult decode url (Responds status (BodyBytes buffer))
          = inr (decode buffer)).
Proof.
  intros env decode url w res r w' pre. split.
  - subst r w'. rewrite rateLimitedFetch_eq.
    set (w0 := stamp (limiterWait env w)).
    assert (Hreq : requests w0 = requests w)
      by (unfold w0; cbn [stamp setLastRequestTime snd requests];
          apply limiterWait_requests).
    assert (Hpre : history w0 = pre) by reflexivity.
    change (S (N.to_nat maxRetries)) with 4%nat.
    rewrite retryLoop_step by (unfold maxRetries; lia).
    rewrite Hreq. subst res. cbv beta.
    rewrite Nat.add_0_r.
    destruct (responseResult decode url (outcome env (requests w) url))
      as [e1|text1].
    2:{ cbn [fst snd]. rewrite history_fetch, Hpre. auto. }
    change ((1 =? maxRetries)%N) with false. cbv iota.
    rewrite retryLoop_step by (unfold maxRetries; lia).
    rewrite requests_setTimeout, requests_fetch, Hreq, Nat.add_1_r.
    destruct (responseResult decode url (outcome env (S (requests w)) url))
      as [e2|text2].
    2:{ cbn [fst snd]. split; [reflexivity|].
        rewrite !history_fetch, history_setTimeout, history_fetch, Hpre.
        rewrite <- !app_assoc. reflexivity. }
    change ((1 + 1 =? maxRetries)%N) with false. cbv iota.
    rewrite retryLoop_step by (unfold maxRetries; lia).
    rewrite requests_setTimeout, requests_fetch, requests_setTimeout,
      requests_fetch, Hreq.
    replace (requests w + 2)%nat with (S (S (requests w))) by lia.
    assert (Hhist :
      history
        (snd (fetch env (1 + 1 + 1) url
           (snd (setTimeout env (Z.of_N ((1 + 1) * 1000))
              (snd (fetch env (1 + 1) url
                 (snd (setTimeout env (Z.of_N (1 * 1000))
                    (snd (fetch env 1 url w0))))))))))
      = pre ++ [Req url; Wait 1000; Req url; Wait 2000; Req url]).
    { rewrite !history_fetch, !history_setTimeout, !history_fetch,
        history_setTimeout, history_fetch, Hpre.
      rewrite <- !app_assoc. reflexivity. }
    destruct (responseResult decode url (outcome env (S (S (requests w))) url))
      as [e3|text3].
    + change ((1 + 1 + 1 =? maxRetries)%N) with true. cbv iota.
      cbn [fst snd]. split; [reflexivity | exact Hhist].
    + cbn [fst snd]. split; [reflexivity | exact Hhist].
  - intros status buffer Hok. unfold responseResult. rewrite Hok. reflexivity.
Qed.


(** A call that fails twice and succeeds on the third attempt returns the
    page, after waits of 1000 and 2000 ms. *)
Example third_attempt_succeeds :
  let run := rateLimitedFetch twiceDown latin1 (lit "http://h/p")
               (initialWorld 1000000) in
  fst run = inr (lit "<p>")
  /\ history (snd run)
     = [Req (lit "http://h/p"); Wait 1000; Req (lit "http://h/p");
        Wait 2000; Req (lit "http://h/p")]
  /\ requestTimes (snd run) = [1000000; 1001030; 1003060].
Proof. repeat split; vm_compute; reflexivity. Qed.

(** C6: the time stamp is written once per call, before the first attempt,
    and the retries are sent without it.  On a network whose first answer
    is an error, the first call sends its requests at 1000000 and 1001030;
    the second call finds the time stamp 1000000 old enough and sends its
    request at 1001070, 40 ms after the previous request was started: two
    consecutive requests are less than 500 ms apart. *)
Lemma retry_breaks_request_spacing :
  requestTimes (snd (session onceDown latin1 twoCalls (initialWorld 1000000)))
  = [1000000; 1001030; 1001070]
  /\ spaced RATE_LIMIT_MS
       (requestTimes
          (snd (session onceDown latin1 twoCalls (initialWorld 1000000))))
     = false.
Proof. split; vm_compute; reflexivity. Qed.

(** What the limiter does keep apart: the first attempts of two consecutive
    calls of the transport never start less than 500 ms apart, and so, in a
    run in which every request succeeds, no two consecutive requests at all:
    before a call goes on it waits until 500 ms have passed since the time
    stamp, and the time stamp is set to the time at which the first attempt
    of the call is initiated; retry attempts leave it unchanged. *)
Theorem limiter_spaces_first_attempts :
  forall (env : Env) (decode : list N -> jsstring)
         (calls : list (N * jsstring)) (now : Z),
    let w' := snd (session env decode calls (initialWorld now)) in
    spaced RATE_LIMIT_MS (firstAttemptTimes w') = true
    /\ ((forall k u, succeeds (outcome env k u) = true) ->
        spaced RATE_LIMIT_MS (requestTimes w') = true)
    /\ (forall url w,
          let w1 := snd (rateLimitedFetch env decode url w) in
          let t0 := clock (limiterWait env w) in
          lastRequestTime w1 = t0
          /\ firstAttemptTimes w1 = firstAttemptTimes w ++ [t0]
          /\ lastRequestTime w + RATE_LIMIT_MS <= t0
          /\ history (limiterWait env w)
             = history w
                 ++ (if clock w - lastRequestTime w <? RATE_LIMIT_MS
                     then [Wait (RATE_LIMIT_MS
                                 - (clock w - lastRequestTime w))]
                     else [])).
Proof.
  intros env decode calls now w'. split; [|split].
  - apply (Paced_session env decode (N.eqb 1)).
    + intros url w. apply rateLimitedFetch_stamp.
    + apply Paced_initial.
  - intros Hok. apply (Paced_session env decode (fun _ => true)).
    + intros url w. apply rateLimitedFetch_all_requests. exact Hok.
    + apply Paced_initial.
  - intros url w w1 t0.
    destruct (rateLimitedFetch_stamp env decode url w) as (H1 & H2 & H3).
    split; [exact H1|]. split; [|split; [exact H3|]].
    + unfold firstAttemptTimes. fold w1. subst w1. rewrite H2. reflexivity.
    + apply limiterWait_history.
Qed.

Lemma limiter_spaces_first_attempts_witness :
  (forall k u, succeeds (outcome allUp k u) = true)
  /\ spaced RATE_LIMIT_MS
       (requestTimes
          (snd (session allUp latin1 twoCalls (initialWorld 1000000))))
     = true.
Proof.
  split.
  - intros k u. reflexivity.
  - apply (limiter_spaces_first_attempts allUp latin1 twoCalls 1000000).
    intros k u. reflexivity.
Defined.

End FetcherFacts.

(** ** The Dutch content stage *)

Module IngestFacts.
Import Js JsFacts Fetcher Parser Ingest FetcherDefs IngestDefs FetcherFacts.

Section Dutch.

Variable decode : list N -> jsstring.
Variable toLowerCase : jsstring -> jsstring.
Variable jsdom : jsstring -> node.
Variable innerHTML : node -> jsstring.

Lemma notFound_error (url : jsstring) (w : World) :
  fst (rateLimitedFetch notFound decode url w)
  = inl (newError (lit "HTTP 404 for " ++ url)).
Proof.
  assert (R : forall k,
    responseResult decode url (outcome notFound k url)
    = inl (newError (lit "HTTP 404 for " ++ url))) by reflexivity.
  rewrite rateLimitedFetch_eq.
  change (S (N.to_nat maxRetries)) with 4%nat.
  rewrite retryLoop_step, R by (unfold maxRetries; lia).
  change ((1 =? maxRetries)%N) with false. cbv iota.
  rewrite retryLoop_step, R by (unfold maxRetries; lia).
  change ((1 + 1 =? maxRetries)%N) with false. cbv iota.
  rewrite retryLoop_step, R by (unfold maxRetries; lia).
  reflexivity.
Qed.

Lemma notFound_message (url : jsstring) :
  includes (lit "404")
    (String_of_error (newError (lit "HTTP 404 for " ++ url))) = true.
Proof. reflexivity. Qed.

Lemma dutchEntry_notFound (entry : LawIndexEntry) (t : Tally) (w : World) :
  let t' := fst (dutchEntry notFound decode toLowerCase jsdom innerHTML
                   entry t w) in
  processed t' = processed t
  /\ failed t' = (failed t + 1)%nat
  /\ skipped t' = (skipped t + 1)%nat.
Proof.
  unfold dutchEntry, bind, fetchLawContent.
  match goal with
  | |- context [rateLimitedFetch notFound decode ?u w] =>
      pose proof (notFound_error u w) as H;
      destruct (rateLimitedFetch notFound decode u w) as [r w1];
      pose proof (notFound_message u) as Hm
  end.
  cbn [fst] in H. subst r. cbn [ret fst].
  rewrite Hm. cbn. auto.
Qed.

Lemma dutchLoop_notFound (entries : list LawIndexEntry) (t : Tally)
  (w : World) :
  let t' := fst (dutchLoop notFound decode toLowerCase jsdom innerHTML
                   entries t w) in
  processed t' = processed t
  /\ failed t' = (failed t + length entries)%nat
  /\ skipped t' = (skipped t + length entries)%nat.
Proof.
  revert t w. induction entries as [|entry rest IH]; intros t w.
  - cbn. auto.
  - cbn [dutchLoop]. unfold bind.
    pose proof (dutchEntry_notFound entry t w) as H. cbv zeta in H.
    destruct (dutchEntry notFound decode toLowerCase jsdom innerHTML entry t w)
      as [t1 w1].
    cbn [fst] in H. destruct H as (Hp & Hf & Hs).
    specialize (IH t1 w1). cbv zeta in IH. destruct IH as (Hp' & Hf' & Hs').
    cbv zeta. rewrite Hp', Hf', Hs', Hp, Hf, Hs. cbn [length]. lia.
Qed.

End Dutch.

(** C3: in the Dutch content stage every entry whose fetch ends in a 404
    error on all attempts is added to the failed count as well as to the
    skipped count. *)
Theorem dutch_not_found_counted_failed_and_skipped :
  forall (decode : list N -> jsstring) (toLowerCase : jsstring -> jsstring)
         (jsdom : jsstring -> node) (innerHTML : node -> jsstring)
         (entries : list LawIndexEntry) (w : World),
    let t := fst (runDutchContent notFound decode toLowerCase jsdom innerHTML
                    entries w) in
    processed t = 0%nat
    /\ failed t = length entries
    /\ skipped t = length entries.
Proof.
  intros decode toLowerCase jsdom innerHTML entries w.
  unfold runDutchContent.
  apply (dutchLoop_notFound decode toLowerCase jsdom innerHTML entries
           {| processed := 0; failed := 0; skipped := 0; written := [] |} w).
Qed.

End IngestFacts.

(** ** The year index *)

Module IndexFacts.
Import Js JsFacts Fetcher Parser IndexDefs.
Local Open Scope re_scope.

(** *** Pieces of the expressions *)

Lemma expect_spec (p s r : jsstring) : expect p s = Some r <-> s = p ++ r.
Proof.
  revert s. induction p as [|x p IH]; intros s; simpl.
  - split; [intros [= ->]; reflexivity | intros ->; reflexivity].
  - destruct s as [|c s]; [split; discriminate|].
    destruct (ceq x c) eqn:E.
    + apply ceq_eq in E. subst c. rewrite IH. split.
      * intros ->. reflexivity.
      * intros [= ->]. reflexivity.
    + split; [discriminate|]. intros [= -> ->].
      rewrite ceq_refl in E. discriminate.
Qed.

Lemma expect_app (p r : jsstring) : expect p (p ++ r) = Some r.
Proof. apply expect_spec. reflexivity. Qed.

Lemma digitsN_spec (n : nat) (s ds r : jsstring) :
  digitsN n s = Some (ds, r) ->
  s = ds ++ r /\ length ds = n /\ forallb is_digit ds = true.
Proof.
  revert s ds r. induction n as [|n IH]; intros s ds r; simpl.
  - intros [= <- <-]. auto.
  - destruct s as [|c s]; [discriminate|].
    destruct (is_digit c) eqn:D; [|discriminate].
    unfold obind. destruct (digitsN n s) as [[ds' r']|] eqn:E; [|discriminate].
    intros [= <- <-]. destruct (IH _ _ _ E) as (-> & <- & F).
    simpl. rewrite D, F. auto.
Qed.

Lemma digitsN_app (ds r : jsstring) :
  forallb is_digit ds = true -> digitsN (length ds) (ds ++ r) = Some (ds, r).
Proof.
  induction ds as [|c ds IH]; simpl; auto.
  intros H. apply andb_true_iff in H. destruct H as [D F].
  rewrite D. unfold obind. rewrite IH by exact F. reflexivity.
Qed.

Lemma takeWhile_dropWhile (f : char -> bool) (s : jsstring) :
  takeWhile f s ++ dropWhile f s = s.
Proof.
  induction s as [|c s IH]; simpl; auto.
  destruct (f c); simpl; [rewrite IH|]; reflexivity.
Qed.

Lemma takeWhile_app_stop (f : char -> bool) (ds tail : jsstring) :
  forallb f ds = true ->
  match tail with c :: _ => f c = false | [] => True end ->
  takeWhile f (ds ++ tail) = ds /\ dropWhile f (ds ++ tail) = tail.
Proof.
  intros H Hc. induction ds as [|d ds IH]; simpl.
  - destruct tail as [|c r]; simpl; [auto|]. rewrite Hc. auto.
  - simpl in H. apply andb_true_iff in H. destruct H as [D F].
    rewrite D. destruct (IH F) as [E1 E2]. rewrite E1, E2. auto.
Qed.

Lemma span1_spec (f : char -> bool) (s run r : jsstring) :
  span1 f s = Some (run, r) -> s = run ++ r /\ run <> [].
Proof.
  unfold span1. pose proof (takeWhile_dropWhile f s) as T.
  destruct (takeWhile f s) as [|c t] eqn:E; [discriminate|].
  intros [= <- <-]. split; [symmetry; exact T | discriminate].
Qed.

(** *** Decimal numbers *)

Lemma digits_from_parse (fuel : nat) (n : N) (acc : jsstring) :
  (n < 2 ^ N.of_nat fuel)%N ->
  parseFrom 0 (digits_from fuel n acc) = parseFrom n acc.
Proof.
  revert n acc. induction fuel as [|f IH]; intros n acc Hn.
  - simpl in *. assert (n = 0%N) by lia. subst. reflexivity.
  - cbn [digits_from]. destruct (N.ltb_spec n 10) as [Hlt|Hge].
    + unfold parseFrom. cbn [fold_left].
      rewrite N.mod_small by exact Hlt.
      replace (10 * 0 + (48 + n - 48))%N with n by lia. reflexivity.
    + rewrite IH.
      * unfold parseFrom. cbn [fold_left].
        replace (10 * (n / 10) + (48 + n mod 10 - 48))%N with n;
          [reflexivity|].
        pose proof (N.div_mod n 10 ltac:(lia)) as Hdm.
        remember (n / 10)%N as q. remember (n mod 10)%N as r. lia.
      * rewrite Nat2N.inj_succ, N.pow_succ_r' in Hn.
        apply N.Div0.div_lt_upper_bound. lia.
Qed.

(** [parseInt(String(n), 10) = n] *)
Lemma parseDigits_toString10 (n : N) : parseDigits (toString10 n) = n.
Proof.
  unfold parseDigits, toString10.
  change (fold_left (fun acc c => (10 * acc + (c - 48))%N)
            (digits_from (S (N.to_nat (N.log2 n))) n []) 0%N)
    with (parseFrom 0 (digits_from (S (N.to_nat (N.log2 n))) n [])).
  rewrite digits_from_parse; [reflexivity|].
  rewrite Nat2N.inj_succ, N2Nat.id.
  destruct n as [|p]; [reflexivity|].
  apply N.log2_spec. lia.
Qed.

Lemma is_digit_mod10 (x : N) : is_digit (48 + x mod 10)%N = true.
Proof.
  unfold is_digit. pose proof (N.mod_upper_bound x 10 ltac:(lia)) as H.
  remember (x mod 10)%N as r.
  apply andb_true_iff. split; apply N.leb_le; lia.
Qed.

(** A year of four digits prints as four digits. *)
Lemma toString10_four (y : N) :
  (1000 <= y <= 9999)%N ->
  length (toString10 y) = 4 /\ forallb is_digit (toString10 y) = true.
Proof.
  intros [Hlo Hhi]. unfold toString10.
  assert (Hlog : (9 <= N.log2 y)%N).
  { change 9%N with (N.log2 1000). apply N.log2_le_mono. exact Hlo. }
  destruct (N.to_nat (N.log2 y)) as [|[|[|f]]] eqn:E; try lia.
  cbn [digits_from].
  assert (H1 : (y <? 10)%N = false) by (apply N.ltb_ge; lia).
  assert (H2 : (y / 10 <? 10)%N = false).
  { apply N.ltb_ge. apply N.div_le_lower_bound; lia. }
  assert (H3 : (y / 10 / 10 <? 10)%N = false).
  { apply N.ltb_ge. rewrite N.Div0.div_div.
    apply N.div_le_lower_bound; lia. }
  assert (H4 : (y / 10 / 10 / 10 <? 10)%N = true).
  { apply N.ltb_lt. rewrite !N.Div0.div_div.
    apply N.Div0.div_lt_upper_bound. lia. }
  rewrite H1, H2, H3, H4. split; [reflexivity|].
  cbn [forallb]. rewrite !is_digit_mod10. reflexivity.
Qed.

(** *** The URL pattern *)

Lemma urlMatch_hit (s : jsstring) g :
  urlPatternAt s = Some g -> urlMatch s = Some g.
Proof.
  intros H. destruct s as [|c s]; [discriminate H|].
  cbn [urlMatch]. rewrite H. reflexivity.
Qed.

(** No match starts inside the host part of a canonical URL. *)
Lemma urlMatch_base (tail : jsstring) :
  urlMatch (BASE_URL ++ tail) = urlMatch tail.
Proof. reflexivity. Qed.

Lemma urlPatternAt_canonical (lang : Lang) (ys m d n rest : jsstring) :
  length ys = 4 -> forallb is_digit ys = true ->
  length m = 2 -> forallb is_digit m = true ->
  length d = 2 -> forallb is_digit d = true ->
  n <> [] -> forallb is_digit n = true ->
  urlPatternAt
    (lit "/eli/" ++ pathSegment lang ++ lit "/" ++ ys ++ lit "/" ++ m
       ++ lit "/" ++ d ++ lit "/" ++ n ++ lit "/justel" ++ rest)
  = Some (ys, m, d, n).
Proof.
  intros Ly Dy Lm Dm Ld Dd Nn Dn.
  unfold urlPatternAt. rewrite expect_app. cbn [obind].
  assert (Hseg : forall r,
    match expect (lit "loi") (pathSegment lang ++ r) with
    | Some r' => Some r'
    | None => expect (lit "wet") (pathSegment lang ++ r)
    end = Some r).
  { intros r. destruct lang; reflexivity. }
  rewrite Hseg. cbn [obind]. rewrite expect_app. cbn [obind].
  pose proof (digitsN_app ys (lit "/" ++ m ++ lit "/" ++ d ++ lit "/" ++ n
                                ++ lit "/justel" ++ rest) Dy) as Hy.
  rewrite Ly in Hy. rewrite Hy. cbn [obind]. rewrite expect_app. cbn [obind].
  pose proof (digitsN_app m (lit "/" ++ d ++ lit "/" ++ n
                               ++ lit "/justel" ++ rest) Dm) as Hm.
  rewrite Lm in Hm. rewrite Hm. cbn [obind]. rewrite expect_app. cbn [obind].
  pose proof (digitsN_app d (lit "/" ++ n ++ lit "/justel" ++ rest) Dd) as Hd.
  rewrite Ld in Hd. rewrite Hd. cbn [obind]. rewrite expect_app. cbn [obind].
  unfold span1.
  destruct (takeWhile_app_stop is_digit n (lit "/justel" ++ rest) Dn
              eq_refl) as [Ht Hdrop].
  rewrite Ht, Hdrop.
  destruct n as [|c n]; [congruence|]. cbn [obind].
  rewrite expect_app. reflexivity.
Qed.

(** A number below 1000 prints with fewer than four digits. *)
Lemma toString10_short (y : N) :
  (y < 1000)%N -> length (toString10 y) <= 3.
Proof.
  intros Hy. unfold toString10.
  destruct (N.ltb_spec y 10) as [H1|H1].
  - cbn [digits_from]. apply N.ltb_lt in H1. rewrite H1. cbn. lia.
  - assert (Hlog : (3 <= N.log2 y)%N).
    { change 3%N with (N.log2 10). apply N.log2_le_mono. exact H1. }
    destruct (N.to_nat (N.log2 y)) as [|[|[|f]]] eqn:E; try lia.
    cbn [digits_from].
    apply N.ltb_ge in H1. rewrite H1.
    destruct (N.ltb_spec (y / 10) 10) as [H2|H2].
    + cbn. lia.
    + assert (H3 : (y / 10 / 10 <? 10)%N = true).
      { apply N.ltb_lt. rewrite N.Div0.div_div.
        apply N.Div0.div_lt_upper_bound. lia. }
      rewrite H3. cbn. lia.
Qed.

(** A string of four digits is the print of its number exactly when the
    number is at least 1000, that is, when it has no leading zero. *)
Lemma four_digits_printed (ys : jsstring) :
  length ys = 4 -> forallb is_digit ys = true ->
  toString10 (parseDigits ys) = ys <-> (1000 <= parseDigits ys)%N.
Proof.
  intros L D. split.
  - intros E. destruct (N.le_gt_cases 1000 (parseDigits ys)) as [H|H];
      [exact H|].
    apply toString10_short in H. rewrite E, L in H. lia.
  - intros Hlo.
    assert (Hhi : (parseDigits ys <= 9999)%N).
    { destruct ys as [|a [|b [|c [|d [|? ?]]]]]; try discriminate L.
      cbn [forallb] in D.
      repeat (apply andb_true_iff in D; destruct D as [?H D]).
      repeat match goal with
             | H : is_digit _ = true |- _ =>
                 unfold is_digit in H; apply andb_true_iff in H;
                 destruct H as [?H ?H]
             end.
      repeat match goal with
             | H : (_ <=? _)%N = true |- _ => apply N.leb_le in H
             end.
      unfold parseDigits. cbn [fold_left]. lia. }
    destruct (toString10_four (parseDigits ys) (conj Hlo Hhi)) as [L' D'].
    pose proof (parseDigits_toString10 (parseDigits ys)) as P.
    destruct (toString10 (parseDigits ys)) as [|a' [|b' [|c' [|d' [|? ?]]]]];
      try discriminate L'.
    destruct ys as [|a [|b [|c [|d [|? ?]]]]]; try discriminate L.
    cbn [forallb] in D, D'.
    repeat (apply andb_true_iff in D; destruct D as [?H D]).
    repeat (apply andb_true_iff in D'; destruct D' as [?H D']).
    repeat match goal with
           | H : is_digit _ = true |- _ =>
               unfold is_digit in H; apply andb_true_iff in H;
               destruct H as [?H ?H]
           end.
    repeat match goal with
           | H : (_ <=? _)%N = true |- _ => apply N.leb_le in H
           end.
    unfold parseDigits in P. cbn [fold_left] in P.
    assert (a' = a /\ b' = b /\ c' = c /\ d' = d) as (-> & -> & -> & ->)
      by lia.
    reflexivity.
Qed.

(** No match starts inside the host part of a canonical URL. *)
Lemma urlMatch_host (tail : jsstring) :
  urlMatch (portalHost ++ tail) = urlMatch tail.
Proof. reflexivity. Qed.

(** C7: every valid canonical content URL is decomposed by the pattern of
    the index extractor into its year, month, day and identifier; and
    [buildJustelUrl], applied to the number of the year and to the month,
    day and identifier so obtained and to the same language, gives the URL
    back exactly when the year is at least 1000, that is, when its four
    digits do not begin with a zero. *)
Theorem url_round_trip :
  forall (lang : Lang) (url : jsstring),
    validContentUrl lang url ->
    exists yearStr month day numac,
      urlMatch url = Some (yearStr, month, day, numac)
      /\ (buildJustelUrl (parseDigits yearStr) month day numac lang = url
          <-> (1000 <= parseDigits yearStr)%N).
Proof.
  intros lang url
    (ys & m & d & n & Ly & Dy & Lm & Dm & Ld & Dd & Nn & Dn & ->).
  assert (Hseg : languageSegment lang = pathSegment lang)
    by (destruct lang; reflexivity).
  exists ys, m, d, n. split.
  - rewrite urlMatch_host, Hseg. apply urlMatch_hit.
    rewrite <- (app_nil_r (lit "/justel")).
    apply urlPatternAt_canonical; assumption.
  - rewrite <- (four_digits_printed ys Ly Dy).
    unfold buildJustelUrl. rewrite Hseg.
    change portalHost with BASE_URL. split.
    + intros E.
      apply app_inv_head in E. apply app_inv_head in E.
      apply app_inv_head in E. apply app_inv_head in E.
      apply app_inv_tail in E. exact E.
    + intros ->. reflexivity.
Qed.

Lemma url_round_trip_witness :
  validContentUrl Nl
    (lit "http://www.ejustice.just.fgov.be/eli/wet/1994/07/21/1994021730/justel")
  /\ exists yearStr month day numac,
       urlMatch
         (lit "http://www.ejustice.just.fgov.be/eli/wet/1994/07/21/1994021730/justel")
       = Some (yearStr, month, day, numac)
       /\ (buildJustelUrl (parseDigits yearStr) month day numac Nl
           = lit "http://www.ejustice.just.fgov.be/eli/wet/1994/07/21/1994021730/justel"
           <-> (1000 <= parseDigits yearStr)%N).
Proof.
  assert (V : validContentUrl Nl
    (lit "http://www.ejustice.just.fgov.be/eli/wet/1994/07/21/1994021730/justel")).
  { exists (lit "1994"), (lit "07"), (lit "21"), (lit "1994021730").
    repeat split; try reflexivity; discriminate. }
  split; [exact V | exact (url_round_trip _ _ V)].
Defined.

(** A canonical content URL whose year is written 0099 is decomposed, but
    the year is kept as the number 99 and the URL rebuilt from the parts
    writes it without the zeros: the rebuilt URL is not the original. *)
Lemma zero_padded_year_not_rebuilt :
  validContentUrl Fr paddedYearUrl
  /\ urlMatch paddedYearUrl
     = Some (lit "0099", lit "01", lit "02", lit "5")
  /\ buildJustelUrl (parseDigits (lit "0099")) (lit "01") (lit "02")
       (lit "5") Fr
     = lit "http://www.ejustice.just.fgov.be/eli/loi/99/01/02/5/justel"
  /\ buildJustelUrl (parseDigits (lit "0099")) (lit "01") (lit "02")
       (lit "5") Fr
     <> paddedYearUrl.
Proof.
  split; [|split; [reflexivity | split; [reflexivity | discriminate]]].
  exists (lit "0099"), (lit "01"), (lit "02"), (lit "5").
  repeat split; try reflexivity; discriminate.
Qed.

(** The year is kept as a number: a link whose year is written with leading
    zeros is decomposed, but the URL rebuilt from the entry writes the year
    without them. *)
Example year_is_a_number :
  urlMatch (lit "/eli/loi/0099/01/02/5/justel")
  = Some (lit "0099", lit "01", lit "02", lit "5")
  /\ buildJustelUrl (parseDigits (lit "0099")) (lit "01") (lit "02") (lit "5") Fr
     = lit "http://www.ejustice.just.fgov.be/eli/loi/99/01/02/5/justel".
Proof. split; reflexivity. Qed.

(** *** The loop over the links *)

Lemma fold_pushed (lang : Lang) (links : list (node * option node))
  (entries : list LawIndexEntry) :
  fold_left
    (fun entries link =>
       match indexEntry lang (length entries + 1) link with
       | Some e => entries ++ [e]
       | None => entries
       end)
    links entries
  = entries ++ pushed lang (length entries) links.
Proof.
  revert entries. induction links as [|link rest IH]; intros entries; simpl.
  - rewrite app_nil_r. reflexivity.
  - destruct (indexEntry lang (length entries + 1) link) as [e|] eqn:E.
    + rewrite IH, length_app, <- app_assoc. simpl.
      rewrite Nat.add_1_r. reflexivity.
    + apply IH.
Qed.

Lemma parseYearIndex_pushed (document : node) (lang : Lang) :
  parseYearIndex document lang = pushed lang 0 (justelLinks document).
Proof. unfold parseYearIndex. rewrite fold_pushed. reflexivity. Qed.

Lemma indexEntry_lawAnchor (lang : Lang) (n : nat)
  (link : node * option node) :
  isSome (indexEntry lang n link) = lawAnchor lang link.
Proof.
  unfold indexEntry, lawAnchor, decomposable, inRow, germanNotice, rowTitle.
  destruct (urlMatch (hrefOf (fst link))) as [[[[ys m] d] nu]|]; simpl; auto.
  destruct (snd link) as [tr|]; simpl; auto.
  destruct (rowFields lang tr) as [[t src] pd]. simpl.
  destruct (isGermanTranslation t); reflexivity.
Qed.

Lemma indexEntry_fields (lang : Lang) (n : nat) (link : node * option node)
  (e : LawIndexEntry) :
  indexEntry lang n link = Some e ->
  index e = n /\ title e = rowTitle lang link
  /\ isGermanTranslation (title e) = false.
Proof.
  unfold indexEntry, rowTitle.
  destruct (urlMatch (hrefOf (fst link))) as [[[[ys m] d] nu]|];
    [|discriminate].
  destruct (snd link) as [tr|]; [|discriminate].
  destruct (rowFields lang tr) as [[t src] pd]. simpl.
  destruct (isGermanTranslation t) eqn:G; [discriminate|].
  intros [= <-]. simpl. auto.
Qed.

Lemma pushed_filter (lang : Lang) (k : nat)
  (links : list (node * option node)) :
  pushed lang k links = pushed lang k (filter (lawAnchor lang) links).
Proof.
  revert k. induction links as [|link rest IH]; intros k; simpl; auto.
  rewrite <- (indexEntry_lawAnchor lang (k + 1) link).
  destruct (indexEntry lang (k + 1) link) as [e|] eqn:E; simpl.
  - rewrite E. rewrite IH. reflexivity.
  - apply IH.
Qed.

(** On anchors that all are law anchors the loop pushes one entry each,
    numbered from [k + 1] on. *)
Lemma pushed_all (lang : Lang) (k : nat) (good : list (node * option node)) :
  forallb (lawAnchor lang) good = true ->
  map Some (pushed lang k good)
  = map (fun il => indexEntry lang (fst il) (snd il))
      (combine (seq (k + 1) (length good)) good)
  /\ map index (pushed lang k good) = seq (k + 1) (length good).
Proof.
  revert k. induction good as [|link rest IH]; intros k H; simpl; auto.
  simpl in H. apply andb_true_iff in H. destruct H as [Hl Hr].
  rewrite <- (indexEntry_lawAnchor lang (k + 1) link) in Hl.
  destruct (indexEntry lang (k + 1) link) as [e|] eqn:E; [|discriminate].
  destruct (IH (S k) Hr) as [IH1 IH2].
  destruct (indexEntry_fields _ _ _ _ E) as (Hi & _ & _).
  simpl. replace (S (k + 1)) with (S k + 1) by lia.
  rewrite IH1, IH2, Hi. auto.
Qed.

Lemma forallb_filter {A : Type} (f : A -> bool) (l : list A) :
  forallb f (filter f l) = true.
Proof.
  induction l as [|x l IH]; simpl; auto.
  destruct (f x) eqn:E; simpl; [rewrite E|]; auto.
Qed.

Lemma filter_filter_implied {A : Type} (f g : A -> bool) (l : list A) :
  (forall x, g x = true -> f x = true) ->
  filter g (filter f l) = filter g l.
Proof.
  intros H. induction l as [|x l IH]; simpl; auto.
  destruct (f x) eqn:F; simpl.
  - rewrite IH. reflexivity.
  - destruct (g x) eqn:G; [|exact IH].
    rewrite (H x G) in F. discriminate.
Qed.

(** *** Decomposable links are Justel links *)

Lemma startsWith_app (p r : jsstring) : startsWith p (p ++ r) = true.
Proof.
  induction p as [|x p IH]; simpl; auto. rewrite ceq_refl. exact IH.
Qed.

Lemma indexOf_unfold (p s : jsstring) :
  indexOf p s
  = if startsWith p s then Some 0
    else match s with
         | [] => None
         | _ :: r => option_map S (indexOf p r)
         end.
Proof. destruct s; reflexivity. Qed.

Lemma includes_app (p a b : jsstring) : includes p (a ++ p ++ b) = true.
Proof.
  unfold includes. induction a as [|c a IH].
  - rewrite indexOf_unfold. simpl. rewrite startsWith_app. reflexivity.
  - rewrite indexOf_unfold. simpl.
    destruct (startsWith p (c :: a ++ p ++ b)); [reflexivity|].
    destruct (indexOf p (a ++ p ++ b)); [reflexivity | discriminate].
Qed.

Lemma urlMatch_suffix (href : jsstring) g :
  urlMatch href = Some g ->
  exists pre s, href = pre ++ s /\ urlPatternAt s = Some g.
Proof.
  induction href as [|c href IH]; simpl.
  - intros H. discriminate H.
  - destruct (urlPatternAt (c :: href)) eqn:E.
    + intros [= <-]. exists [], (c :: href). auto.
    + intros H. destruct (IH H) as (pre & s & -> & Hs).
      exists (c :: pre), s. auto.
Qed.

Lemma urlPatternAt_shape (s : jsstring) g :
  urlPatternAt s = Some g ->
  exists seg mid rest,
    (seg = lit "loi" \/ seg = lit "wet")
    /\ s = lit "/eli/" ++ seg ++ lit "/" ++ mid ++ lit "/justel" ++ rest.
Proof.
  unfold urlPatternAt, obind.
  destruct (expect (lit "/eli/") s) as [s1|] eqn:E1; [|discriminate].
  apply expect_spec in E1.
  assert (Hseg :
    (exists seg s2,
        (seg = lit "loi" \/ seg = lit "wet") /\ s1 = seg ++ s2
        /\ match expect (lit "loi") s1 with
           | Some r => Some r
           | None => expect (lit "wet") s1
           end = Some s2)
    \/ match expect (lit "loi") s1 with
       | Some r => Some r
       | None => expect (lit "wet") s1
       end = None).
  { destruct (expect (lit "loi") s1) as [r|] eqn:EL.
    - apply expect_spec in EL. left. exists (lit "loi"), r. auto.
    - destruct (expect (lit "wet") s1) as [r|] eqn:EW.
      + apply expect_spec in EW. left. exists (lit "wet"), r. auto.
      + right. reflexivity. }
  destruct Hseg as [(seg & s2 & Hs & E2 & M)|M]; rewrite M; [|discriminate].
  destruct (expect (lit "/") s2) as [s3|] eqn:E3; [|discriminate].
  apply expect_spec in E3.
  destruct (digitsN 4 s3) as [[ys s4]|] eqn:E4; [|discriminate].
  apply digitsN_spec in E4. destruct E4 as (E4 & _).
  destruct (expect (lit "/") s4) as [s5|] eqn:E5; [|discriminate].
  apply expect_spec in E5.
  destruct (digitsN 2 s5) as [[m s6]|] eqn:E6; [|discriminate].
  apply digitsN_spec in E6. destruct E6 as (E6 & _).
  destruct (expect (lit "/") s6) as [s7|] eqn:E7; [|discriminate].
  apply expect_spec in E7.
  destruct (digitsN 2 s7) as [[d s8]|] eqn:E8; [|discriminate].
  apply digitsN_spec in E8. destruct E8 as (E8 & _).
  destruct (expect (lit "/") s8) as [s9|] eqn:E9; [|discriminate].
  apply expect_spec in E9.
  destruct (span1 is_digit s9) as [[nu s10]|] eqn:E10; [|discriminate].
  apply span1_spec in E10. destruct E10 as (E10 & _).
  destruct (expect (lit "/justel") s10) as [s11|] eqn:E11; [|discriminate].
  apply expect_spec in E11.
  intros _.
  exists seg, (ys ++ lit "/" ++ m ++ lit "/" ++ d ++ lit "/" ++ nu), s11.
  split; [exact Hs|]. subst.
  rewrite <- !app_assoc. reflexivity.
Qed.

Lemma decomposable_isJustelLink (link : node * option node) :
  decomposable link = true -> isJustelLink link = true.
Proof.
  unfold decomposable, isJustelLink.
  destruct (urlMatch (hrefOf (fst link))) as [g|] eqn:E; [|discriminate].
  intros _.
  destruct (urlMatch_suffix _ _ E) as (pre & s & Hh & Hs).
  destruct (urlPatternAt_shape _ _ Hs) as (seg & mid & rest & Hseg & ->).
  rewrite Hh. apply andb_true_iff. split.
  - replace (pre ++ lit "/eli/" ++ seg ++ lit "/" ++ mid ++ lit "/justel"
               ++ rest)
      with ((pre ++ lit "/eli/" ++ seg ++ lit "/" ++ mid) ++ lit "/justel"
              ++ rest)
      by (rewrite <- !app_assoc; reflexivity).
    apply includes_app.
  - apply orb_true_iff. destruct Hseg as [-> | ->]; [left | right].
    + apply (includes_app (lit "/eli/loi/") pre
               (mid ++ lit "/justel" ++ rest)).
    + apply (includes_app (lit "/eli/wet/") pre
               (mid ++ lit "/justel" ++ rest)).
Qed.

Lemma lawAnchors_of_document (document : node) (lang : Lang) :
  filter (lawAnchor lang) (justelLinks document)
  = filter (lawAnchor lang) (anchorsWithRow None document).
Proof.
  unfold justelLinks. apply filter_filter_implied.
  intros link H. apply decomposable_isJustelLink.
  unfold lawAnchor in H. apply andb_true_iff in H. destruct H as [H _].
  apply andb_true_iff in H. destruct H as [H _]. exact H.
Qed.

(** The entries of a page are those pushed for its law anchors. *)
Lemma parseYearIndex_lawAnchors (document : node) (lang : Lang) :
  parseYearIndex document lang
  = pushed lang 0 (filter (lawAnchor lang) (anchorsWithRow None document)).
Proof.
  rewrite parseYearIndex_pushed, pushed_filter, lawAnchors_of_document.
  reflexivity.
Qed.

Lemma pushed_titles (lang : Lang) (k : nat)
  (links : list (node * option node)) (e : LawIndexEntry) :
  In e (pushed lang k links) -> isGermanTranslation (title e) = false.
Proof.
  revert k. induction links as [|link rest IH]; intros k; simpl; [tauto|].
  destruct (indexEntry lang (k + 1) link) as [e'|] eqn:E.
  - intros [<-|H]; [|eapply IH; eauto].
    apply (indexEntry_fields _ _ _ _ E).
  - apply IH.
Qed.

(** *** Pages *)

Example samplePage_entries :
  parseYearIndex samplePage Fr = [sampleEntry]
  /\ parseYearIndex samplePage Nl = [sampleEntry].
Proof. split; vm_compute; reflexivity. Qed.

(** C8: no entry of the index carries a title with a German-translation
    marker, French or Dutch, whichever language selector is passed; the
    loop pushes nothing for a link whose extracted title has one. *)
Theorem german_notices_excluded :
  forall (document : node) (lang : Lang),
    (forall e, In e (parseYearIndex document lang) ->
               includes (lit "Traduction allemande") (title e) = false
               /\ includes (lit "Duitse vertaling") (title e) = false)
    /\ (forall n link, germanNotice lang link = true ->
                       indexEntry lang n link = None).
Proof.
  intros document lang. split.
  - intros e He. rewrite parseYearIndex_pushed in He.
    apply pushed_titles in He. unfold isGermanTranslation in He.
    apply orb_false_iff in He. exact He.
  - intros n link G.
    pose proof (indexEntry_lawAnchor lang n link) as H.
    unfold lawAnchor in H. rewrite G, andb_false_r in H.
    destruct (indexEntry lang n link); [discriminate H | reflexivity].
Qed.

Lemma german_notices_excluded_witness :
  In sampleEntry (parseYearIndex samplePage Nl)
  /\ includes (lit "Traduction allemande") (title sampleEntry) = false
  /\ includes (lit "Duitse vertaling") (title sampleEntry) = false.
Proof.
  assert (H : In sampleEntry (parseYearIndex samplePage Nl))
    by (vm_compute; left; reflexivity).
  split; [exact H|].
  exact (proj1 (german_notices_excluded samplePage Nl) sampleEntry H).
Defined.

(** One anchor with a decomposable link and no German-translation notice,
    and no entry. *)
Lemma stray_anchor_not_indexed :
  length
    (filter (fun link => decomposable link && negb (germanNotice Fr link))
       (anchorsWithRow None strayAnchorPage)) = 1
  /\ parseYearIndex strayAnchorPage Fr = []
  /\ length (parseYearIndex strayAnchorPage Fr)
     <> length
          (filter (fun link => decomposable link && negb (germanNotice Fr link))
             (anchorsWithRow None strayAnchorPage)).
Proof.
  split; [vm_compute; reflexivity|].
  split; [vm_compute; reflexivity|].
  vm_compute. discriminate.
Qed.

(** C9: on a page with N anchors that lie in a table row and whose link is
    decomposed (none of them a German-translation notice), and any number
    of other anchors, the index has exactly N entries, in the order of
    those anchors in the document, numbered 1 to N. *)
Theorem index_entries_of_law_anchors :
  forall (document : node) (lang : Lang),
    let good := filter (lawAnchor lang) (anchorsWithRow None document) in
    let entries := parseYearIndex document lang in
    length entries = length good
    /\ map index entries = seq 1 (length good)
    /\ map Some entries
       = map (fun il => indexEntry lang (fst il) (snd il))
           (combine (seq 1 (length good)) good).
Proof.
  intros document lang good entries.
  subst entries. rewrite parseYearIndex_lawAnchors. fold good.
  destruct (pushed_all lang 0 good (forallb_filter _ _)) as [H1 H2].
  split; [|split; [exact H2 | exact H1]].
  rewrite <- (length_map index), H2, length_seq. reflexivity.
Qed.

End IndexFacts.

(** ** Markup cleaning *)

Module CleanFacts.
Import Js JsFacts Parser CleanDefs IndexFacts.
Local Open Scope re_scope.

(** *** Global replacement where the expression finds nothing *)

Lemma replace_from_absent (c0 : char) (m : matcher jsstring) (fuel : nat)
  (s : jsstring) :
  firesOnly c0 m -> Forall (fun c => c <> c0) s -> replace_from m fuel s = s.
Proof.
  intros Hm. revert fuel. induction s as [|c s IH]; intros fuel Hs.
  - destruct fuel; reflexivity.
  - destruct fuel as [|f]; [reflexivity|]. cbn [replace_from].
    inversion Hs as [|? ? Hc Hs']; subst.
    destruct (m (c :: s)) as [[n rep]|] eqn:E.
    + destruct (Hm _ _ _ E) as [r Hr]. injection Hr as -> _. congruence.
    + rewrite IH by assumption. reflexivity.
Qed.

Lemma replaceAll_absent (c0 : char) (m : matcher jsstring) (s : jsstring) :
  firesOnly c0 m -> Forall (fun c => c <> c0) s -> replaceAll m s = s.
Proof. intros. unfold replaceAll. eapply replace_from_absent; eauto. Qed.

Lemma expect_ci_head (x : char) (p s r : jsstring) :
  expect_ci (x :: p) s = Some r ->
  exists c s', s = c :: s' /\ ceq_ci x c = true.
Proof.
  destruct s as [|c s']; simpl; [discriminate|].
  destruct (ceq_ci x c) eqn:E; [|discriminate].
  intros _. exists c, s'. auto.
Qed.

(** The sign [<] is no letter: without case it matches itself only. *)
Lemma ceq_ci_lt (c : char) : ceq_ci 60%N c = true -> c = 60%N.
Proof.
  unfold ceq_ci, upper_ascii, ceq. change (is_lower 60%N) with false.
  destruct (is_lower c) eqn:L; cbv iota; intros H; apply N.eqb_eq in H.
  - unfold is_lower in L. apply andb_true_iff in L. destruct L as [L1 L2].
    apply N.leb_le in L1. lia.
  - congruence.
Qed.

Lemma firesOnly_anchorOpenAt : firesOnly 60%N anchorOpenAt.
Proof.
  intros s n rep H. unfold anchorOpenAt, obind in H.
  destruct (expect (lit "<") s) as [s1|] eqn:E; [|discriminate].
  apply expect_spec in E. exists s1. exact E.
Qed.

Lemma firesOnly_anchorCloseAt : firesOnly 60%N anchorCloseAt.
Proof.
  intros s n rep H. unfold anchorCloseAt, obind in H.
  destruct (expect_ci (lit "</A>") s) as [s1|] eqn:E; [|discriminate].
  destruct (expect_ci_head _ _ _ _ E) as (c & s' & -> & Hc).
  apply ceq_ci_lt in Hc. subst c. exists s'. reflexivity.
Qed.

Lemma firesOnly_brAt : firesOnly 60%N brAt.
Proof.
  intros s n rep H. unfold brAt, obind in H.
  destruct (expect_ci (lit "<BR") s) as [s1|] eqn:E; [|discriminate].
  destruct (expect_ci_head _ _ _ _ E) as (c & s' & -> & Hc).
  apply ceq_ci_lt in Hc. subst c. exists s'. reflexivity.
Qed.

Lemma firesOnly_headingAt : firesOnly 60%N headingAt.
Proof.
  intros s n rep H. unfold headingAt, obind in H.
  destruct (expect (lit "<") s) as [s1|] eqn:E; [|discriminate].
  apply expect_spec in E. exists s1. exact E.
Qed.

Lemma firesOnly_tagAt : firesOnly 60%N tagAt.
Proof.
  intros s n rep H. unfold tagAt, obind in H.
  destruct (expect (lit "<") s) as [s1|] eqn:E; [|discriminate].
  apply expect_spec in E. exists s1. exact E.
Qed.

Lemma firesOnly_entityAt (p rep : jsstring) :
  firesOnly 38%N (entityAt (38%N :: p) rep).
Proof.
  intros s n rep' H. unfold entityAt, obind in H.
  destruct (expect (38%N :: p) s) as [s1|] eqn:E; [|discriminate].
  apply expect_spec in E. exists (p ++ s1). exact E.
Qed.

Lemma firesOnly_numericEntityAt : firesOnly 38%N numericEntityAt.
Proof.
  intros s n rep H. unfold numericEntityAt, obind in H.
  destruct (expect (lit "&#") s) as [s1|] eqn:E; [|discriminate].
  apply expect_spec in E. exists (35%N :: s1). exact E.
Qed.

Lemma stripTags_absent (s : jsstring) :
  Forall (fun c => c <> 60%N) s -> stripTags s = s.
Proof.
  intros H. unfold stripTags.
  rewrite (replaceAll_absent _ _ _ firesOnly_anchorOpenAt H).
  rewrite (replaceAll_absent _ _ _ firesOnly_anchorCloseAt H).
  rewrite (replaceAll_absent _ _ _ firesOnly_brAt H).
  rewrite (replaceAll_absent _ _ _ firesOnly_headingAt H).
  apply (replaceAll_absent _ _ _ firesOnly_tagAt H).
Qed.

Lemma entityTable_ampersand :
  Forall (fun e => exists p, fst e = 38%N :: p) entityTable.
Proof. repeat constructor; eexists; reflexivity. Qed.

Lemma decodeEntities_absent (s : jsstring) :
  Forall (fun c => c <> 38%N) s -> decodeEntities s = s.
Proof.
  intros H. unfold decodeEntities.
  assert (F : fold_left
                (fun t e => replaceAll (entityAt (fst e) (snd e)) t)
                entityTable s = s).
  { pose proof entityTable_ampersand as T.
    induction T as [|[name rep] table [p Hp] T IH]; cbn [fold_left]; auto.
    cbn [fst snd] in *. subst name.
    rewrite (replaceAll_absent _ _ _ (firesOnly_entityAt p rep) H).
    exact IH. }
  rewrite F. apply (replaceAll_absent _ _ _ firesOnly_numericEntityAt H).
Qed.

(** *** Text without runs of blanks *)

Lemma ceq_neq (a b : char) : ceq a b = false <-> a <> b.
Proof.
  rewrite <- ceq_eq. destruct (ceq a b); split; congruence.
Qed.

Lemma skipn_takeWhile (f : char -> bool) (r : jsstring) :
  skipn (length (takeWhile f r)) r = dropWhile f r.
Proof.
  induction r as [|c r IH]; simpl; auto.
  destruct (f c); simpl; auto.
Qed.

Lemma length_dropWhile (f : char -> bool) (r : jsstring) :
  length (dropWhile f r) <= length r.
Proof.
  induction r as [|c r IH]; simpl; auto.
  destruct (f c); simpl; lia.
Qed.

Lemma dropWhile_head (f : char -> bool) (r : jsstring) :
  match dropWhile f r with c :: _ => f c = false | [] => True end.
Proof.
  induction r as [|c r IH]; simpl; auto.
  destruct (f c) eqn:E; simpl; auto.
Qed.

Lemma isSpaceTab_false (c : char) :
  isSpaceTab c = false -> ceq c 32%N = false /\ ceq c 9%N = false.
Proof. unfold isSpaceTab. apply orb_false_iff. Qed.

Lemma spacesAt_cons (c : char) (r : jsstring) :
  spacesAt (c :: r)
  = if isSpaceTab c
    then Some (S (length (takeWhile isSpaceTab r)), [32%N])
    else None.
Proof. unfold spacesAt. simpl. destruct (isSpaceTab c); reflexivity. Qed.

Lemma startsSp_replace_spaces (fuel : nat) (s : jsstring) :
  match s with c :: _ => isSpaceTab c = false | [] => True end ->
  startsSp (replace_from spacesAt fuel s) = false.
Proof.
  destruct s as [|c r]; intros H.
  - destruct fuel; reflexivity.
  - destruct (isSpaceTab_false _ H) as [H32 _].
    destruct fuel as [|f]; cbn [replace_from]; [exact H32|].
    rewrite spacesAt_cons, H. exact H32.
Qed.

Lemma tidy_replace_spaces (fuel : nat) (s : jsstring) :
  length s <= fuel -> tidy (replace_from spacesAt fuel s) = true.
Proof.
  revert s. induction fuel as [|f IH]; intros s Hlen.
  - destruct s; [reflexivity | simpl in Hlen; lia].
  - destruct s as [|c r]; [reflexivity|]. cbn [replace_from].
    simpl in Hlen. rewrite spacesAt_cons.
    destruct (isSpaceTab c) eqn:E.
    + cbn [Nat.pred app]. rewrite skipn_takeWhile.
      cbn [tidy].
      rewrite (startsSp_replace_spaces f _ (dropWhile_head isSpaceTab r)).
      rewrite IH by (pose proof (length_dropWhile isSpaceTab r); lia).
      reflexivity.
    + destruct (isSpaceTab_false _ E) as [H32 H9].
      cbn [tidy]. rewrite H9, H32, IH by lia. reflexivity.
Qed.

Lemma expect_nl_cons (c : char) (r : jsstring) :
  expect [10%N] (c :: r) = if ceq 10%N c then Some r else None.
Proof. reflexivity. Qed.

Lemma blankLinesAt_cons (c : char) (r : jsstring) :
  blankLinesAt (c :: r)
  = if ceq 10%N c
    then match lastNewline (takeWhile is_ws r) with
         | Some i => Some (S (S i), [10%N])
         | None => None
         end
    else None.
Proof.
  unfold blankLinesAt. rewrite expect_nl_cons.
  destruct (ceq 10%N c); reflexivity.
Qed.

Lemma startsSp_replace_blank (fuel : nat) (s : jsstring) :
  startsSp (replace_from blankLinesAt fuel s) = startsSp s.
Proof.
  destruct fuel as [|f]; [reflexivity|].
  destruct s as [|c r]; [reflexivity|]. cbn [replace_from].
  rewrite blankLinesAt_cons.
  destruct (ceq 10%N c) eqn:E; [|reflexivity].
  apply ceq_eq in E. subst c.
  destruct (lastNewline (takeWhile is_ws r)); reflexivity.
Qed.

Lemma tidy_skipn (k : nat) (s : jsstring) :
  tidy s = true -> tidy (skipn k s) = true.
Proof.
  revert s. induction k as [|k IH]; intros s H; [exact H|].
  destruct s as [|c r]; [reflexivity|]. simpl.
  apply IH. simpl in H. apply andb_true_iff in H. apply H.
Qed.

Lemma tidy_replace_blank (fuel : nat) (s : jsstring) :
  tidy s = true -> tidy (replace_from blankLinesAt fuel s) = true.
Proof.
  revert s. induction fuel as [|f IH]; intros s H; [exact H|].
  destruct s as [|c r]; [reflexivity|]. cbn [replace_from].
  rewrite blankLinesAt_cons.
  assert (Hr : tidy r = true)
    by (simpl in H; apply andb_true_iff in H; apply H).
  destruct (ceq 10%N c) eqn:E.
  - apply ceq_eq in E. subst c.
    destruct (lastNewline (takeWhile is_ws r)) as [i|].
    + cbn [Nat.pred app tidy].
      change (ceq 10%N 9%N) with false. change (ceq 10%N 32%N) with false.
      cbn [negb andb]. apply IH. apply (tidy_skipn (S i) r Hr).
    + cbn [tidy] in *. rewrite startsSp_replace_blank.
      rewrite IH by exact Hr. rewrite Hr in H. exact H.
  - cbn [tidy] in *. rewrite startsSp_replace_blank.
    rewrite IH by exact Hr. rewrite Hr in H. exact H.
Qed.

Lemma tidy_app_r (a b : jsstring) : tidy (a ++ b) = true -> tidy b = true.
Proof.
  induction a as [|c a IH]; simpl; auto.
  intros H. apply andb_true_iff in H. apply IH, H.
Qed.

Lemma tidy_app_l (a b : jsstring) : tidy (a ++ b) = true -> tidy a = true.
Proof.
  induction a as [|c a IH]; simpl; auto.
  intros H. apply andb_true_iff in H. destruct H as [H Hr].
  apply andb_true_iff in H. destruct H as [H9 H32].
  rewrite H9, (IH Hr). simpl. rewrite andb_true_r.
  destruct a as [|c' a]; simpl in *.
  - rewrite andb_false_r. reflexivity.
  - exact H32.
Qed.

Lemma tidy_app_nl (a b : jsstring) :
  tidy a = true -> tidy b = true -> tidy (a ++ 10%N :: b) = true.
Proof.
  intros Ha Hb. induction a as [|c a IH]; simpl.
  - exact Hb.
  - simpl in Ha. apply andb_true_iff in Ha. destruct Ha as [H Hr].
    apply andb_true_iff in H. destruct H as [H9 H32].
    rewrite H9, (IH Hr). simpl. rewrite andb_true_r.
    destruct a as [|c' a]; simpl in *.
    + rewrite andb_false_r. reflexivity.
    + exact H32.
Qed.

(** *** Lines *)

Lemma split_first (sep : char) (x : jsstring) :
  exists l0 ls b, split sep x = l0 :: ls /\ x = l0 ++ b.
Proof.
  induction x as [|c r IH]; simpl.
  - exists [], [], []. auto.
  - destruct (ceq c sep).
    + exists [], (split sep r), (c :: r). auto.
    + destruct IH as (l0 & ls & b & E & Hr). rewrite E.
      exists (c :: l0), ls, b. rewrite Hr at 1. auto.
Qed.

Lemma split_pieces (sep : char) (x l : jsstring) :
  In l (split sep x) -> exists a b, x = a ++ l ++ b.
Proof.
  revert l. induction x as [|c r IH]; intros l; simpl.
  - intros [<-|[]]. exists [], []. reflexivity.
  - destruct (ceq c sep).
    + intros [<-|H].
      * exists [], (c :: r). reflexivity.
      * destruct (IH l H) as (a & b & ->). exists (c :: a), b. reflexivity.
    + destruct (split_first sep r) as (l0 & ls & b0 & E & Hr).
      rewrite E in *. intros [<-|H].
      * exists [], b0. simpl. rewrite Hr at 1. reflexivity.
      * destruct (IH l (or_intror H)) as (a & b & ->).
        exists (c :: a), b. reflexivity.
Qed.

Lemma split_no_sep (sep : char) (x l : jsstring) :
  In l (split sep x) -> Forall (fun c => c <> sep) l.
Proof.
  revert l. induction x as [|c r IH]; intros l; simpl.
  - intros [<-|[]]. constructor.
  - destruct (ceq c sep) eqn:E.
    + intros [<-|H]; [constructor | apply IH, H].
    + destruct (split sep r) as [|l0 ls] eqn:S.
      * intros [<-|[]]. constructor; [apply ceq_neq, E | constructor].
      * intros [<-|H].
        -- constructor; [apply ceq_neq, E | apply IH; left; reflexivity].
        -- apply IH. right. exact H.
Qed.

Lemma trimEnd_block (s : jsstring) : exists b, s = trimEnd s ++ b.
Proof.
  unfold trimEnd. exists (rev (takeWhile is_ws (rev s))).
  rewrite <- rev_app_distr, takeWhile_dropWhile, rev_involutive.
  reflexivity.
Qed.

Lemma trim_block (s : jsstring) : exists a b, s = a ++ trim s ++ b.
Proof.
  unfold trim, trimStart.
  destruct (trimEnd_block (dropWhile is_ws s)) as [b Hb].
  exists (takeWhile is_ws s), b.
  rewrite <- Hb. symmetry. apply takeWhile_dropWhile.
Qed.

Lemma dropWhile_fixed (f : char -> bool) (s : jsstring) :
  match s with c :: _ => f c = false | [] => True end -> dropWhile f s = s.
Proof.
  destruct s as [|c r]; simpl; auto. intros ->. reflexivity.
Qed.

(** What is left of a trimmed string neither begins nor ends with white
    space. *)
Lemma trim_ends (s : jsstring) :
  match trim s with c :: _ => is_ws c = false | [] => True end
  /\ match rev (trim s) with c :: _ => is_ws c = false | [] => True end.
Proof.
  unfold trim, trimStart. set (a := dropWhile is_ws s).
  pose proof (dropWhile_head is_ws s) as Ha. fold a in Ha.
  split.
  - destruct (trimEnd_block a) as [b Hb].
    destruct (trimEnd a) as [|c t] eqn:E; auto.
    rewrite Hb in Ha. exact Ha.
  - unfold trimEnd. rewrite rev_involutive. apply dropWhile_head.
Qed.

Lemma trim_fixed (l : jsstring) :
  match l with c :: _ => is_ws c = false | [] => True end ->
  match rev l with c :: _ => is_ws c = false | [] => True end ->
  trim l = l.
Proof.
  intros H1 H2. unfold trim, trimStart, trimEnd.
  rewrite (dropWhile_fixed is_ws l H1), (dropWhile_fixed is_ws (rev l) H2).
  apply rev_involutive.
Qed.

Lemma trim_idem (s : jsstring) : trim (trim s) = trim s.
Proof. destruct (trim_ends s). apply trim_fixed; assumption. Qed.

Lemma Forall_block (P : char -> Prop) (a t b : jsstring) :
  Forall P (a ++ t ++ b) -> Forall P t.
Proof.
  intros H. apply Forall_app in H. destruct H as [_ H].
  apply Forall_app in H. apply H.
Qed.

Lemma linesOf_ok (x : jsstring) : Forall lineOk (linesOf x).
Proof.
  unfold linesOf. apply Forall_forall. intros l Hl.
  apply filter_In in Hl. destruct Hl as [Hin Ht].
  apply in_map_iff in Hin. destruct Hin as (p & <- & Hp).
  split; [|split].
  - destruct (trim p); [discriminate | discriminate].
  - apply trim_idem.
  - destruct (trim_block p) as (a & b & E).
    apply (Forall_block _ a (trim p) b). rewrite <- E.
    apply (split_no_sep _ _ _ Hp).
Qed.

Lemma linesOf_tidy (x : jsstring) :
  tidy x = true -> Forall (fun l => tidy l = true) (linesOf x).
Proof.
  intros Hx. unfold linesOf. apply Forall_forall. intros l Hl.
  apply filter_In in Hl. destruct Hl as [Hin _].
  apply in_map_iff in Hin. destruct Hin as (p & <- & Hp).
  destruct (split_pieces _ _ _ Hp) as (a & b & E).
  destruct (trim_block p) as (a' & b' & E').
  rewrite E in Hx. apply tidy_app_r, tidy_app_l in Hx.
  rewrite E' in Hx. apply tidy_app_r, tidy_app_l in Hx. exact Hx.
Qed.

Lemma tidy_join (ls : list jsstring) :
  Forall (fun l => tidy l = true) ls -> tidy (join [10%N] ls) = true.
Proof.
  induction ls as [|l ls IH]; intros H; [reflexivity|].
  inversion H as [|? ? Hl Hls]; subst.
  destruct ls as [|l2 ls]; [exact Hl|].
  change (tidy (l ++ 10%N :: join [10%N] (l2 :: ls)) = true).
  apply tidy_app_nl; [exact Hl | apply IH, Hls].
Qed.

Lemma split_nosep (sep : char) (l : jsstring) :
  Forall (fun c => c <> sep) l -> split sep l = [l].
Proof.
  induction l as [|c l IH]; intros H; [reflexivity|].
  inversion H as [|? ? Hc Hl]; subst. simpl.
  apply ceq_neq in Hc. rewrite Hc, (IH Hl). reflexivity.
Qed.

Lemma split_app_sep (sep : char) (l x : jsstring) :
  Forall (fun c => c <> sep) l ->
  split sep (l ++ sep :: x) = l :: split sep x.
Proof.
  induction l as [|c l IH]; intros H; simpl.
  - rewrite ceq_refl. reflexivity.
  - inversion H as [|? ? Hc Hl]; subst.
    apply ceq_neq in Hc. rewrite Hc, (IH Hl). reflexivity.
Qed.

Lemma split_join (ls : list jsstring) :
  ls <> [] -> Forall lineOk ls -> split 10%N (join [10%N] ls) = ls.
Proof.
  induction ls as [|l ls IH]; intros Hne H; [congruence|].
  inversion H as [|? ? (_ & _ & Hl) Hls]; subst.
  destruct ls as [|l2 ls].
  - apply split_nosep, Hl.
  - change (split 10%N (l ++ 10%N :: join [10%N] (l2 :: ls)) = l :: l2 :: ls).
    rewrite split_app_sep by exact Hl.
    rewrite IH; [reflexivity | discriminate | exact Hls].
Qed.

Lemma map_trim_ok (ls : list jsstring) :
  Forall lineOk ls -> map trim ls = ls.
Proof.
  induction 1 as [|l ls (_ & Ht & _) _ IH]; simpl; [reflexivity|].
  rewrite Ht, IH. reflexivity.
Qed.

Lemma filter_truthy_ok (ls : list jsstring) :
  Forall lineOk ls -> filter truthy ls = ls.
Proof.
  induction 1 as [|l ls (Hne & _ & _) _ IH]; simpl; [reflexivity|].
  destruct l; [congruence|]. simpl. rewrite IH. reflexivity.
Qed.

Lemma trimLines_lines (ls : list jsstring) :
  Forall lineOk ls -> trimLines (join [10%N] ls) = join [10%N] ls.
Proof.
  intros H. unfold trimLines. destruct ls as [|l ls]; [reflexivity|].
  rewrite split_join by (discriminate || exact H).
  rewrite map_trim_ok, filter_truthy_ok by exact H. reflexivity.
Qed.

Lemma nlOk_app (l x : jsstring) :
  Forall (fun c => c <> 10%N) l -> nlOk (l ++ x) = nlOk x.
Proof.
  induction l as [|c l IH]; intros H; [reflexivity|].
  inversion H as [|? ? Hc Hl]; subst. cbn [app nlOk].
  assert (E : ceq 10%N c = false) by (apply ceq_neq; congruence).
  rewrite E. apply IH, Hl.
Qed.

Lemma lineOk_head (l : jsstring) :
  lineOk l -> exists c r, l = c :: r /\ is_ws c = false.
Proof.
  intros (Hne & Ht & _). destruct (trim_ends l) as [H _].
  rewrite Ht in H. destruct l as [|c r]; [congruence|].
  exists c, r. auto.
Qed.

Lemma nlOk_join (ls : list jsstring) :
  Forall lineOk ls -> nlOk (join [10%N] ls) = true.
Proof.
  induction ls as [|l ls IH]; intros H; [reflexivity|].
  inversion H as [|? ? Hl Hls]; subst.
  destruct ls as [|l2 ls].
  - simpl. rewrite <- (app_nil_r l). rewrite nlOk_app; [reflexivity|].
    apply Hl.
  - change (nlOk (l ++ 10%N :: join [10%N] (l2 :: ls)) = true).
    rewrite nlOk_app by apply Hl.
    specialize (IH Hls).
    inversion Hls as [|? ? Hl2 _]; subst.
    destruct (lineOk_head _ Hl2) as (c & r & -> & Hc).
    destruct ls as [|l3 ls].
    + cbn [join] in *. cbn [nlOk]. rewrite ceq_refl, Hc. exact IH.
    + change (join [10%N] ((c :: r) :: l3 :: ls))
        with (c :: r ++ 10%N :: join [10%N] (l3 :: ls)) in *.
      cbn [nlOk]. rewrite ceq_refl, Hc. exact IH.
Qed.

Lemma replace_blank_fixed (fuel : nat) (s : jsstring) :
  nlOk s = true -> replace_from blankLinesAt fuel s = s.
Proof.
  revert fuel. induction s as [|c r IH]; intros fuel H.
  - destruct fuel; reflexivity.
  - destruct fuel as [|f]; [reflexivity|]. cbn [replace_from].
    cbn [nlOk] in H. apply andb_true_iff in H. destruct H as [Hc Hr].
    rewrite blankLinesAt_cons.
    destruct (ceq 10%N c).
    + destruct r as [|c' r']; [discriminate|].
      apply negb_true_iff in Hc. cbn [takeWhile]. rewrite Hc.
      cbn [lastNewline]. rewrite IH by exact Hr. reflexivity.
    + rewrite IH by exact Hr. reflexivity.
Qed.

Lemma tidy_head (s : jsstring) :
  tidy s = true ->
  match s with c :: _ => ceq c 9%N = false | [] => True end.
Proof.
  destruct s as [|c r]; simpl; auto.
  intros H. apply andb_true_iff in H. destruct H as [H _].
  apply andb_true_iff in H. destruct H as [H _].
  apply negb_true_iff in H. exact H.
Qed.

Lemma replace_spaces_fixed (fuel : nat) (s : jsstring) :
  tidy s = true -> replace_from spacesAt fuel s = s.
Proof.
  revert fuel. induction s as [|c r IH]; intros fuel H.
  - destruct fuel; reflexivity.
  - destruct fuel as [|f]; [reflexivity|]. cbn [replace_from].
    pose proof (tidy_head _ H) as H9. cbn beta iota in H9.
    cbn [tidy] in H. apply andb_true_iff in H. destruct H as [H Hr].
    apply andb_true_iff in H. destruct H as [_ H32].
    apply negb_true_iff in H32.
    rewrite spacesAt_cons.
    assert (Hst : isSpaceTab c = ceq c 32%N)
      by (unfold isSpaceTab; rewrite H9; apply orb_false_r).
    rewrite Hst.
    destruct (ceq c 32%N) eqn:E.
    + apply ceq_eq in E. subst c. simpl in H32.
      assert (T : takeWhile isSpaceTab r = []).
      { destruct r as [|c' r']; [reflexivity|].
        pose proof (tidy_head _ Hr) as H9'. cbn beta iota in H9'.
        simpl in H32. cbn [takeWhile]. unfold isSpaceTab.
        rewrite H32, H9'. reflexivity. }
      rewrite T. cbn [length Nat.pred skipn app].
      rewrite IH by exact Hr. reflexivity.
    + rewrite IH by exact Hr. reflexivity.
Qed.

(** Collapsing white space a second time changes nothing. *)
Lemma collapseWhitespace_idem (u : jsstring) :
  collapseWhitespace (collapseWhitespace u) = collapseWhitespace u.
Proof.
  unfold collapseWhitespace at 2.
  set (x := replaceAll blankLinesAt (replaceAll spacesAt u)).
  assert (Hx : tidy x = true).
  { unfold x, replaceAll. apply tidy_replace_blank.
    apply tidy_replace_spaces. lia. }
  change (trimLines x) with (join [10%N] (linesOf x)).
  pose proof (linesOf_ok x) as Hok.
  pose proof (tidy_join _ (linesOf_tidy x Hx)) as Ht.
  unfold collapseWhitespace, replaceAll.
  rewrite replace_spaces_fixed by exact Ht.
  rewrite replace_blank_fixed by (apply nlOk_join, Hok).
  apply trimLines_lines, Hok.
Qed.

Lemma cleanArticleHtml_eq (html : jsstring) :
  cleanArticleHtml html
  = collapseWhitespace (decodeEntities (stripTags html)).
Proof. reflexivity. Qed.

(** An entity that decodes to an entity: the second pass decodes it
    again. *)
Lemma clean_twice_differs :
  cleanArticleHtml (lit "&amp;nbsp;") = lit "&nbsp;"
  /\ cleanArticleHtml (cleanArticleHtml (lit "&amp;nbsp;")) = []
  /\ cleanArticleHtml (cleanArticleHtml (lit "&amp;nbsp;"))
     <> cleanArticleHtml (lit "&amp;nbsp;").
Proof.
  split; [vm_compute; reflexivity|].
  split; [vm_compute; reflexivity|].
  vm_compute. discriminate.
Qed.

(** C2: cleaning its own output again leaves the output unchanged whenever
    that output contains neither [<] nor [&]. *)
Theorem clean_idempotent_on_plain_output :
  forall html : jsstring,
    Forall (fun c => c <> 60%N /\ c <> 38%N) (cleanArticleHtml html) ->
    cleanArticleHtml (cleanArticleHtml html) = cleanArticleHtml html.
Proof.
  intros html H.
  assert (Hlt : Forall (fun c => c <> 60%N) (cleanArticleHtml html))
    by (revert H; apply Forall_impl; intros c Hc; apply Hc).
  assert (Hamp : Forall (fun c => c <> 38%N) (cleanArticleHtml html))
    by (revert H; apply Forall_impl; intros c Hc; apply Hc).
  rewrite (cleanArticleHtml_eq (cleanArticleHtml html)).
  rewrite (stripTags_absent _ Hlt), (decodeEntities_absent _ Hamp).
  rewrite (cleanArticleHtml_eq html). apply collapseWhitespace_idem.
Qed.

Lemma clean_idempotent_on_plain_output_witness :
  Forall (fun c => c <> 60%N /\ c <> 38%N) (cleanArticleHtml articleFragment)
  /\ cleanArticleHtml (cleanArticleHtml articleFragment)
     = cleanArticleHtml articleFragment.
Proof.
  assert (H : Forall (fun c => c <> 60%N /\ c <> 38%N)
                (cleanArticleHtml articleFragment)).
  { vm_compute. repeat constructor; discriminate. }
  split; [exact H | exact (clean_idempotent_on_plain_output articleFragment H)].
Defined.

End CleanFacts.

(** ** Articles and chapters *)

Module ArticleFacts.
Import Js JsFacts Parser ArticleDefs.

(** One iteration of the loop, by what the chapter expression finds in the
    text before the anchor and in the span of the article. *)
Lemma articleStep_chapter (toLowerCase : jsstring -> jsstring)
  (html : jsstring) (prevStart : nat) (current : jsstring * nat)
  (nextStart : nat) (currentChapter : option jsstring) :
  truthy (trim (cleanArticleHtml (substring (snd current) nextStart html)))
  = true ->
  let chapter' :=
    match chapterLabel (substring (snd current) nextStart html) with
    | Some c => Some c
    | None =>
        match chapterLabel (substring prevStart (snd current) html) with
        | Some c => Some c
        | None => currentChapter
        end
    end in
  exists p,
    articleStep toLowerCase html prevStart current nextStart currentChapter
    = (chapter', Some p)
    /\ chapter p = chapter'
    /\ prov_title p
       = (if str_eqb (fst current) (lit "1er")
             || str_eqb (fst current) (lit "1ER")
          then lit "Article 1er"
          else lit "Article " ++ fst current)
    /\ content p
       = trim (cleanArticleHtml (substring (snd current) nextStart html)).
Proof.
  intros Htext chapter'. unfold articleStep. rewrite Htext. cbn [negb].
  eexists. split; [reflexivity|]. cbn [chapter prov_title content].
  auto.
Qed.

(** The heading stands at index 52, behind the anchor of article 1er
    (index 0) and before the anchor of article 2 (index 91); the first
    provision carries its label like the two others. *)
Lemma first_article_carries_chapter :
  articleMatches chapterFragment
  = [(lit "1er", 0); (lit "2", 91); (lit "3", 134)]
  /\ search chapterAt chapterFragment
     = Some (52, (lit "II", lit "Dispositions finales"))
  /\ search chapterAt (skipn 53 chapterFragment) = None
  /\ map (fun p => (prov_title p, chapter p))
       (parseArticles toLowerCase_ascii chapterFragment)
     = [ (lit "Article 1er", Some (lit "II. Dispositions finales"));
         (lit "Article 2", Some (lit "II. Dispositions finales"));
         (lit "Article 3", Some (lit "II. Dispositions finales")) ]
  /\ map chapter (parseArticles toLowerCase_ascii chapterFragment)
     <> [ None;
          Some (lit "II. Dispositions finales");
          Some (lit "II. Dispositions finales") ].
Proof.
  split; [vm_compute; reflexivity|].
  split; [vm_compute; reflexivity|].
  split; [vm_compute; reflexivity|].
  split; [vm_compute; reflexivity|].
  vm_compute. discriminate.
Qed.

(** The fuel of the scan for anchors is enough once it reaches the length
    of the text. *)
Lemma execAll_fuel (m : matcher jsstring) (f1 f2 pos : nat) (s : jsstring) :
  length s <= f1 -> length s <= f2 ->
  execAll m f1 pos s = execAll m f2 pos s.
Proof.
  revert f2 pos s. induction f1 as [|f1 IH]; intros f2 pos s H1 H2.
  - destruct s; [|simpl in H1; lia]. destruct f2; reflexivity.
  - destruct s as [|c r]; [destruct f2; reflexivity|].
    destruct f2 as [|f2]; [simpl in H2; lia|].
    simpl in H1, H2. cbn [execAll].
    destruct (m (c :: r)) as [[n g]|].
    + f_equal. apply IH; rewrite length_skipn; lia.
    + apply IH; lia.
Qed.

(** The running chapter is carried forward: behind the last heading every
    provision has the chapter that was current there. *)
Lemma chapter_carried_forward (toLowerCase : jsstring -> jsstring)
  (html : jsstring) (prevStart : nat) (matches : list (jsstring * nat))
  (currentChapter : option jsstring) :
  Forall (fun fragment => chapterLabel fragment = None)
    (scanned html prevStart matches) ->
  Forall (fun p => chapter p = currentChapter)
    (articleLoop toLowerCase html prevStart matches currentChapter).
Proof.
  revert prevStart. induction matches as [|current rest IH]; intros prevStart H.
  - constructor.
  - cbn [scanned] in H. inversion H as [|? ? Hb H']; subst.
    inversion H' as [|? ? Ha Hrest]; subst.
    cbn [articleLoop]. unfold articleStep. rewrite Hb, Ha.
    destruct (negb (truthy (trim (cleanArticleHtml _)))).
    + apply IH, Hrest.
    + constructor; [reflexivity | apply IH, Hrest].
Qed.

(** Without anchors the text is cut at "Article n": two articles, and no
    chapter on either. *)
Example fallback_two_articles :
  map (fun p => (provision_ref p, prov_title p, chapter p))
    (parseArticles toLowerCase_ascii
       (lit "Article 1. Le texte.<BR>Article 2. La suite."))
  = [ (lit "art1", lit "Article 1", None);
      (lit "art2", lit "Article 2", None) ].
Proof. vm_compute. reflexivity. Qed.

(** C1: on a fragment with the anchors Art.1er, Art.2 and Art.3 whose only
    chapter heading lies between the first two anchors, that is inside the
    span of the first article, and whose three spans clean to some text,
    the anchor-based strategy returns three provisions and all three carry
    the chapter label. *)
Theorem chapter_heading_in_first_span :
  forall (toLowerCase : jsstring -> jsstring) (html : jsstring)
         (i1 i2 i3 : nat) (label : jsstring),
    articleMatches html = [(lit "1er", i1); (lit "2", i2); (lit "3", i3)] ->
    chapterLabel (substring 0 i1 html) = None ->
    chapterLabel (substring i1 i2 html) = Some label ->
    chapterLabel (substring i2 i3 html) = None ->
    chapterLabel (substring i3 (length html) html) = None ->
    truthy (trim (cleanArticleHtml (substring i1 i2 html))) = true ->
    truthy (trim (cleanArticleHtml (substring i2 i3 html))) = true ->
    truthy (trim (cleanArticleHtml (substring i3 (length html) html)))
    = true ->
    map (fun p => (prov_title p, chapter p)) (parseArticles toLowerCase html)
    = [ (lit "Article 1er", Some label);
        (lit "Article 2", Some label);
        (lit "Article 3", Some label) ].
Proof.
  intros toLowerCase html i1 i2 i3 label Hm H0 H1 H2 H3 T1 T2 T3.
  unfold parseArticles. rewrite Hm. cbn [articleLoop snd].
  destruct (articleStep_chapter toLowerCase html 0 (lit "1er", i1) i2 None T1)
    as (p1 & E1 & C1 & N1 & _).
  cbn [snd fst] in E1, C1, N1. rewrite H1 in E1, C1. rewrite E1.
  destruct (articleStep_chapter toLowerCase html i1 (lit "2", i2) i3
              (Some label) T2) as (p2 & E2 & C2 & N2 & _).
  cbn [snd fst] in E2, C2, N2. rewrite H2, H1 in E2, C2. rewrite E2.
  destruct (articleStep_chapter toLowerCase html i2 (lit "3", i3)
              (length html) (Some label) T3) as (p3 & E3 & C3 & N3 & _).
  cbn [snd fst] in E3, C3, N3. rewrite H3, H2 in E3, C3. rewrite E3.
  cbn [map]. rewrite C1, C2, C3, N1, N2, N3. reflexivity.
Qed.

Lemma chapter_heading_in_first_span_witness :
  articleMatches chapterFragment
  = [(lit "1er", 0); (lit "2", 91); (lit "3", 134)]
  /\ map (fun p => (prov_title p, chapter p))
       (parseArticles toLowerCase_ascii chapterFragment)
     = [ (lit "Article 1er", Some (lit "II. Dispositions finales"));
         (lit "Article 2", Some (lit "II. Dispositions finales"));
         (lit "Article 3", Some (lit "II. Dispositions finales")) ].
Proof.
  split; [vm_compute; reflexivity|].
  apply (chapter_heading_in_first_span toLowerCase_ascii chapterFragment
           0 91 134);
    vm_compute; reflexivity.
Defined.

End ArticleFacts.

(** ** Full-text queries *)

Module FtsQueryFacts.
Import Js JsFacts Parser FtsQuery FtsQueryDefs CleanFacts.

Lemma removeClass_none (cls : char -> bool) (s : jsstring) :
  Forall (fun c => cls c = false) (removeClass cls s).
Proof.
  unfold removeClass. apply Forall_forall. intros c Hc.
  apply filter_In in Hc. destruct Hc as [_ Hc].
  apply negb_true_iff in Hc. exact Hc.
Qed.

Lemma removeClass_keeps (P : char -> Prop) (cls : char -> bool)
  (s : jsstring) :
  Forall P s -> Forall P (removeClass cls s).
Proof.
  unfold removeClass. rewrite !Forall_forall. intros H c Hc.
  apply filter_In in Hc. apply H, Hc.
Qed.

Lemma removeClass_fixed (cls : char -> bool) (s : jsstring) :
  Forall (fun c => cls c = false) s -> removeClass cls s = s.
Proof.
  unfold removeClass. induction 1 as [|c r Hc _ IH]; [reflexivity|].
  simpl. rewrite Hc. simpl. rewrite IH. reflexivity.
Qed.

Lemma Forall_trim (P : char -> Prop) (s : jsstring) :
  Forall P s -> Forall P (trim s).
Proof.
  intros H. destruct (trim_block s) as (a & b & E).
  rewrite E in H. exact (Forall_block P a (trim s) b H).
Qed.

Lemma sanitize_units (input : jsstring) :
  Forall (fun c => ftsSpecial c = false) (sanitizeFtsInput input).
Proof.
  unfold sanitizeFtsInput. apply Forall_trim.
  set (s1 := removeClass isDoubleQuote input).
  set (s2 := removeClass isSingleQuote s1).
  assert (H1 : Forall (fun c => isDoubleQuote c = false) s1)
    by apply removeClass_none.
  assert (H2 : Forall (fun c => isSingleQuote c = false) s2)
    by apply removeClass_none.
  assert (H12 : Forall (fun c => isDoubleQuote c = false) s2)
    by (apply removeClass_keeps; exact H1).
  assert (H3 : Forall (fun c => isFtsOperator c = false)
                 (removeClass isFtsOperator s2))
    by apply removeClass_none.
  assert (H13 : Forall (fun c => isDoubleQuote c = false)
                  (removeClass isFtsOperator s2))
    by (apply removeClass_keeps; exact H12).
  assert (H23 : Forall (fun c => isSingleQuote c = false)
                  (removeClass isFtsOperator s2))
    by (apply removeClass_keeps; exact H2).
  rewrite Forall_forall in *. intros c Hc. unfold ftsSpecial.
  rewrite (H13 c Hc), (H23 c Hc), (H3 c Hc). reflexivity.
Qed.

Lemma ftsSpecial_parts (c : char) :
  ftsSpecial c = false ->
  isDoubleQuote c = false /\ isSingleQuote c = false
  /\ isFtsOperator c = false.
Proof.
  unfold ftsSpecial. intros H.
  apply orb_false_iff in H. destruct H as [H H3].
  apply orb_false_iff in H. destruct H as [H1 H2]. auto.
Qed.

Lemma sanitize_fixed (s : jsstring) :
  Forall (fun c => ftsSpecial c = false) s -> trim s = s ->
  sanitizeFtsInput s = s.
Proof.
  intros H Ht. unfold sanitizeFtsInput.
  rewrite (removeClass_fixed isDoubleQuote s).
  2:{ eapply Forall_impl; [|exact H]. intros c Hc.
      apply (ftsSpecial_parts c Hc). }
  rewrite (removeClass_fixed isSingleQuote s).
  2:{ eapply Forall_impl; [|exact H]. intros c Hc.
      apply (ftsSpecial_parts c Hc). }
  rewrite (removeClass_fixed isFtsOperator s).
  2:{ eapply Forall_impl; [|exact H]. intros c Hc.
      apply (ftsSpecial_parts c Hc). }
  exact Ht.
Qed.

(** X1: the sanitized input contains no double quote, no single quote and
    no operator or bracket of the query syntax, straight or curly, and it
    has no white space at either end. *)
Theorem sanitizeFtsInput_strips_specials :
  forall input : jsstring,
    Forall (fun c => ftsSpecial c = false) (sanitizeFtsInput input)
    /\ trim (sanitizeFtsInput input) = sanitizeFtsInput input.
Proof.
  intros input. split.
  - apply sanitize_units.
  - unfold sanitizeFtsInput. apply trim_idem.
Qed.

(** X2: sanitizing is idempotent. *)
Theorem sanitizeFtsInput_idempotent :
  forall input : jsstring,
    sanitizeFtsInput (sanitizeFtsInput input) = sanitizeFtsInput input.
Proof.
  intros input. apply sanitize_fixed.
  - apply sanitize_units.
  - unfold sanitizeFtsInput. apply trim_idem.
Qed.

Lemma splitWs_no_ws (s l : jsstring) :
  In l (splitWs s) -> Forall (fun c => is_ws c = false) l.
Proof.
  revert l. induction s as [|c r IH]; intros l Hl.
  - destruct Hl as [<-|[]]. constructor.
  - cbn [splitWs] in Hl. destruct (is_ws c) eqn:Ec.
    + destruct (startsWs r).
      * apply IH, Hl.
      * destruct Hl as [<-|Hl]; [constructor | apply IH, Hl].
    + destruct (splitWs r) as [|l0 ls].
      * destruct Hl as [<-|[]]. constructor; [exact Ec | constructor].
      * destruct Hl as [<-|Hl].
        -- constructor; [exact Ec | apply IH; left; reflexivity].
        -- apply IH. right. exact Hl.
Qed.

Lemma token_units (w : jsstring) :
  Forall (fun c => is_ws c = false) w ->
  Forall (fun c => termUnit c = true) (removeClass notTokenUnit w).
Proof.
  unfold removeClass. rewrite !Forall_forall. intros H c Hc.
  apply filter_In in Hc. destruct Hc as [Hin Hc].
  unfold notTokenUnit in Hc. rewrite negb_involutive in Hc.
  unfold termUnit. rewrite (H c Hin), orb_false_r in Hc. exact Hc.
Qed.

Lemma tokensOf_units (s : jsstring) :
  Forall (Forall (fun c => termUnit c = true)) (tokensOf s).
Proof.
  unfold tokensOf. apply Forall_forall. intros t Ht.
  apply in_map_iff in Ht. destruct Ht as (w & <- & Hw).
  apply filter_In in Hw. apply token_units.
  apply (splitWs_no_ws s w), Hw.
Qed.

Lemma wordsOf_head (c : char) (r : jsstring) :
  is_ws c = false -> wordsOf (c :: r) <> [].
Proof.
  intros Hc. unfold wordsOf. cbn [splitWs]. rewrite Hc.
  destruct (splitWs r); discriminate.
Qed.

Lemma tokensOf_length (s : jsstring) :
  length (tokensOf s) = length (wordsOf s).
Proof. unfold tokensOf, wordsOf. apply length_map. Qed.

Lemma Forall_join (P : char -> Prop) (sep : jsstring) (ls : list jsstring) :
  Forall P sep -> Forall (Forall P) ls -> Forall P (join sep ls).
Proof.
  intros Hsep. induction 1 as [|l ls Hl Hls IH]; [constructor|].
  destruct ls as [|l' ls']; [exact Hl|].
  change (Forall P (l ++ sep ++ join sep (l' :: ls'))).
  apply Forall_app. split; [exact Hl|].
  apply Forall_app. split; [exact Hsep | exact IH].
Qed.

Lemma termUnit_cases (c : char) :
  termUnit c = true ->
  (65 <= c <= 90 \/ 97 <= c <= 122 \/ 48 <= c <= 57 \/ c = 95 \/ c = 45)%N.
Proof.
  unfold termUnit, is_word, is_upper, is_lower, is_digit, ceq. intros H.
  apply orb_true_iff in H. destruct H as [H|H].
  2:{ apply N.eqb_eq in H. auto. }
  apply orb_true_iff in H. destruct H as [H|H].
  2:{ apply N.eqb_eq in H. auto. }
  apply orb_true_iff in H. destruct H as [H|H].
  2:{ apply andb_true_iff in H. destruct H as [H1 H2].
      apply N.leb_le in H1, H2. auto. }
  apply orb_true_iff in H. destruct H as [H|H];
    apply andb_true_iff in H; destruct H as [H1 H2];
    apply N.leb_le in H1, H2; auto.
Qed.

Lemma termUnit_safe (c : char) : termUnit c = true -> ftsUnsafe c = false.
Proof.
  intros H. apply termUnit_cases in H.
  unfold ftsUnsafe, isSingleQuote, isFtsOperator, ceq.
  change (lit "{}[]()^~:;")
    with [123; 125; 91; 93; 40; 41; 94; 126; 58; 59]%N.
  cbn [existsb].
  repeat match goal with
         | |- context [N.eqb c ?k] =>
             rewrite (proj2 (N.eqb_neq c k)) by lia
         end.
  reflexivity.
Qed.

(** X3: for a query without explicit syntax every word of the trimmed
    query gives one token, made of word characters and hyphens only; the
    primary variant joins the tokens, each between double quotes and
    followed by a star, with spaces, and the fallback joins the tokens, each
    followed by a star, with OR.  A query without a word gives the empty
    primary variant and no fallback. *)
Theorem plain_query_variants :
  forall query : jsstring,
    EXPLICIT_FTS_SYNTAX (trim query) = false ->
    let v := buildFtsQueryVariants query in
    let tokens := tokensOf (trim query) in
    Forall (Forall (fun c => termUnit c = true)) tokens
    /\ length tokens = length (wordsOf (trim query))
    /\ match tokens with
       | [] => trim query = [] /\ primary v = [] /\ fallback v = None
       | _ :: _ =>
           primary v = join (lit " ") (map phrasePrefix tokens)
           /\ fallback v = Some (join (lit " OR ") (map barePrefix tokens))
       end.
Proof.
  intros query He v tokens. split; [apply tokensOf_units|].
  split; [apply tokensOf_length|].
  subst v. unfold buildFtsQueryVariants. rewrite He. fold tokens.
  destruct tokens as [|t ts] eqn:Et.
  - assert (Hq : trim query = []).
    { destruct (trim_ends query) as [Hh _].
      destruct (trim query) as [|c r] eqn:Eq; [reflexivity|].
      exfalso. apply (wordsOf_head c r Hh).
      apply length_zero_iff_nil. rewrite <- tokensOf_length.
      fold tokens. rewrite Et. reflexivity. }
    cbn. rewrite Hq. auto.
  - cbn [length Nat.eqb primary fallback]. auto.
Qed.

Lemma plain_query_variants_witness :
  EXPLICIT_FTS_SYNTAX (trim (lit " data  protection ")) = false
  /\ length (tokensOf (trim (lit " data  protection "))) = 2.
Proof.
  split; [reflexivity|].
  rewrite (proj1 (proj2 (plain_query_variants (lit " data  protection ")
                           eq_refl))).
  reflexivity.
Defined.

Lemma ftsSpecial_unsafe (c : char) :
  ftsSpecial c = false -> ftsUnsafe c = false.
Proof.
  intros H. destruct (ftsSpecial_parts c H) as (Hd & Hs & Ho).
  unfold ftsUnsafe. rewrite Hs, Ho. unfold isDoubleQuote in Hd.
  apply orb_false_iff in Hd. destruct Hd as [Hd H3].
  apply orb_false_iff in Hd. destruct Hd as [_ H2].
  rewrite H2, H3. reflexivity.
Qed.

Lemma phrasePrefix_safe (t : jsstring) :
  Forall (fun c => termUnit c = true) t ->
  Forall (fun c => ftsUnsafe c = false) (phrasePrefix t).
Proof.
  intros H. unfold phrasePrefix.
  apply Forall_app. split; [repeat constructor|].
  apply Forall_app. split; [|repeat constructor].
  eapply Forall_impl; [|exact H]. apply termUnit_safe.
Qed.

Lemma barePrefix_safe (t : jsstring) :
  Forall (fun c => termUnit c = true) t ->
  Forall (fun c => ftsUnsafe c = false) (barePrefix t).
Proof.
  intros H. unfold barePrefix.
  apply Forall_app. split; [|repeat constructor].
  eapply Forall_impl; [|exact H]. apply termUnit_safe.
Qed.

Lemma Forall_map_units (f : jsstring -> jsstring) (P Q : char -> Prop)
  (ls : list jsstring) :
  (forall t, Forall P t -> Forall Q (f t)) ->
  Forall (Forall P) ls -> Forall (Forall Q) (map f ls).
Proof.
  intros Hf. induction 1 as [|l ls Hl _ IH]; simpl; constructor; auto.
Qed.

(** X4: the variants built from a sanitized input never carry a single
    quote, a curly quote, or an operator or bracket of the query syntax.
    Where no fallback is given the primary variant is the sanitized input
    itself, which holds no double quote either: after sanitizing, double
    quotes reach a query only as the wrappers of the tokens. *)
Theorem sanitized_query_variants_safe :
  forall input : jsstring,
    let v := buildFtsQueryVariants (sanitizeFtsInput input) in
    Forall (fun c => ftsUnsafe c = false) (primary v)
    /\ match fallback v with
       | None =>
           primary v = sanitizeFtsInput input
           /\ Forall (fun c => ftsSpecial c = false) (primary v)
       | Some f => Forall (fun c => ftsUnsafe c = false) f
       end.
Proof.
  intros input v. subst v. unfold buildFtsQueryVariants.
  assert (Ht : trim (sanitizeFtsInput input) = sanitizeFtsInput input)
    by (unfold sanitizeFtsInput; apply trim_idem).
  rewrite Ht.
  assert (Hs : Forall (fun c => ftsSpecial c = false)
                 (sanitizeFtsInput input)) by apply sanitize_units.
  assert (Hu : Forall (fun c => ftsUnsafe c = false)
                 (sanitizeFtsInput input))
    by (eapply Forall_impl; [|exact Hs]; apply ftsSpecial_unsafe).
  destruct (EXPLICIT_FTS_SYNTAX (sanitizeFtsInput input)).
  - cbn [primary fallback]. auto.
  - pose proof (tokensOf_units (sanitizeFtsInput input)) as Htok.
    destruct (tokensOf (sanitizeFtsInput input)) as [|t ts].
    + cbn [length Nat.eqb primary fallback]. auto.
    + cbn [length Nat.eqb primary fallback]. split.
      * apply Forall_join; [repeat constructor|].
        apply (Forall_map_units phrasePrefix
                 (fun c => termUnit c = true)
                 (fun c => ftsUnsafe c = false));
          [apply phrasePrefix_safe | exact Htok].
      * apply Forall_join; [repeat constructor|].
        apply (Forall_map_units barePrefix
                 (fun c => termUnit c = true)
                 (fun c => ftsUnsafe c = false));
          [apply barePrefix_safe | exact Htok].
Qed.

End FtsQueryFacts.

(** ** Consolidation of provisions: the whole list *)

Module ConsolidationFacts.
Import Js JsFacts BuildDb BuildDbDefs BuildDbFacts CleanFacts.
Import ConsolidationDefs.

Lemma In_fold_addKey (ks acc : list jsstring) (k : jsstring) :
  In k (fold_left addKey ks acc) -> In k acc \/ In k ks.
Proof.
  revert acc. induction ks as [|k0 ks IH]; intros acc H; simpl in *; auto.
  destruct (IH _ H) as [H1|H1]; auto.
  unfold addKey in H1. destruct (existsb (str_eqb k0) acc); auto.
  apply in_app_or in H1. destruct H1 as [H1|[<-|[]]]; auto.
Qed.

Lemma length_fold_addKey (ks acc : list jsstring) :
  length (fold_left addKey ks acc) <= length acc + length ks.
Proof.
  revert acc. induction ks as [|k0 ks IH]; intros acc; simpl; [lia|].
  specialize (IH (addKey acc k0)).
  assert (length (addKey acc k0) <= S (length acc)).
  { unfold addKey. destruct (existsb (str_eqb k0) acc); [lia|].
    rewrite length_app. simpl. lia. }
  lia.
Qed.

(** X5: the references of the consolidated list are the trimmed references
    of the input, each once, in the order in which they are first seen; so
    no two records of the output share a reference, every reference is
    trimmed, and the output is no longer than the input. *)
Theorem dedupe_references_unique :
  forall l : list ProvisionSeed,
    map provision_ref (dedupeProvisions l)
    = firstSeen (map (fun p => trim (provision_ref p)) l)
    /\ NoDup (map provision_ref (dedupeProvisions l))
    /\ Forall (fun p => trim (provision_ref p) = provision_ref p)
         (dedupeProvisions l)
    /\ length (dedupeProvisions l) <= length l.
Proof.
  intros l.
  assert (W : wellKeyed (fold_left dedupeStep l []))
    by apply wellKeyed_fold, wellKeyed_nil.
  assert (R : map provision_ref (dedupeProvisions l)
              = firstSeen (map (fun p => trim (provision_ref p)) l)).
  { unfold dedupeProvisions, firstSeen.
    rewrite (refs_of_wellKeyed _ W). apply keys_fold. }
  split; [exact R|]. split; [|split].
  - unfold dedupeProvisions. rewrite (refs_of_wellKeyed _ W). apply W.
  - apply Forall_forall. intros p Hp.
    assert (Hin : In (provision_ref p)
                    (firstSeen (map (fun p => trim (provision_ref p)) l)))
      by (rewrite <- R; apply in_map; exact Hp).
    unfold firstSeen in Hin. apply In_fold_addKey in Hin.
    destruct Hin as [[]|Hin].
    apply in_map_iff in Hin. destruct Hin as (q & <- & _).
    apply trim_idem.
  - rewrite <- (length_map provision_ref), R. unfold firstSeen.
    pose proof (length_fold_addKey
                  (map (fun p => trim (provision_ref p)) l) []) as H.
    rewrite length_map in H. exact H.
Qed.

Lemma mapGet_notin (k : jsstring) (m : RefMap) :
  ~ In k (map fst m) -> mapGet k m = None.
Proof.
  induction m as [|[k' v'] m IH]; simpl; intros H; [reflexivity|].
  destruct (str_eqb k' k) eqn:E.
  - apply str_eqb_eq in E. exfalso. apply H. left. exact E.
  - apply IH. intros Hin. apply H. right. exact Hin.
Qed.

Lemma mapSet_absent (k : jsstring) (v : ProvisionSeed) (m : RefMap) :
  mapGet k m = None -> mapSet k v m = m ++ [(k, v)].
Proof.
  induction m as [|[k' v'] m IH]; simpl; intros H; [reflexivity|].
  destruct (str_eqb k' k); [discriminate|].
  rewrite IH by exact H. reflexivity.
Qed.

Lemma withRef_same (v : ProvisionSeed) : withRef v (provision_ref v) = v.
Proof. destruct v. reflexivity. Qed.

(** Consolidating the values of a well-keyed map with trimmed keys files
    them again as they are. *)
Lemma dedupe_rebuild (m2 m1 : RefMap) :
  wellKeyed (m1 ++ m2) ->
  Forall (fun k => trim k = k) (map fst m2) ->
  fold_left dedupeStep (map snd m2) m1 = m1 ++ m2.
Proof.
  revert m1. induction m2 as [|[k v] m2 IH]; intros m1 W T.
  - simpl. rewrite app_nil_r. reflexivity.
  - cbn [map snd fold_left].
    assert (Hv : provision_ref v = k).
    { apply (proj2 W). apply in_or_app. right. left. reflexivity. }
    assert (Hk : trim k = k) by (inversion T; assumption).
    assert (Hnew : mapGet k m1 = None).
    { apply mapGet_notin. intros Hin. destruct W as [Hnd _].
      rewrite map_app in Hnd. cbn [map fst] in Hnd.
      apply NoDup_remove_2 in Hnd. apply Hnd.
      apply in_or_app. left. exact Hin. }
    assert (Hstep : dedupeStep m1 v = m1 ++ [(k, v)]).
    { unfold dedupeStep. rewrite Hv, Hk, Hnew.
      rewrite mapSet_absent by exact Hnew.
      rewrite <- Hv at 2. rewrite withRef_same. reflexivity. }
    rewrite Hstep, IH.
    + rewrite <- app_assoc. reflexivity.
    + rewrite <- app_assoc. exact W.
    + inversion T; assumption.
Qed.

Lemma keys_trimmed (l : list ProvisionSeed) :
  Forall (fun k => trim k = k) (map fst (fold_left dedupeStep l [])).
Proof.
  rewrite keys_fold. apply Forall_forall. intros k Hin.
  apply In_fold_addKey in Hin. destruct Hin as [[]|Hin].
  apply in_map_iff in Hin. destruct Hin as (q & <- & _).
  apply trim_idem.
Qed.

(** X6: consolidation is idempotent: a consolidated list is left as it is
    by a second consolidation. *)
Theorem dedupeProvisions_idempotent :
  forall l : list ProvisionSeed,
    dedupeProvisions (dedupeProvisions l) = dedupeProvisions l.
Proof.
  intros l. unfold dedupeProvisions.
  rewrite (dedupe_rebuild (fold_left dedupeStep l []) []).
  - reflexivity.
  - apply wellKeyed_fold, wellKeyed_nil.
  - apply keys_trimmed.
Qed.

Lemma mapGet_In (k : jsstring) (v : ProvisionSeed) (m : RefMap) :
  mapGet k m = Some v -> In (k, v) m.
Proof.
  induction m as [|[k' v'] m IH]; simpl; [discriminate|].
  destruct (str_eqb k' k) eqn:E.
  - apply str_eqb_eq in E. subst k'. intros H. injection H as ->. auto.
  - auto.
Qed.

Lemma In_mapGet (k : jsstring) (v : ProvisionSeed) (m : RefMap) :
  NoDup (map fst m) -> In (k, v) m -> mapGet k m = Some v.
Proof.
  induction m as [|[k' v'] m IH]; simpl; intros Hnd Hin; [contradiction|].
  inversion Hnd as [|? ? Hnotin Hnd']; subst.
  destruct Hin as [H|H].
  - injection H as -> ->. rewrite str_eqb_refl. reflexivity.
  - destruct (str_eqb k' k) eqn:E.
    + apply str_eqb_eq in E. subst k'. exfalso. apply Hnotin.
      apply (in_map fst) in H. exact H.
    + apply IH; assumption.
Qed.

Lemma In_mapSet_other (k : jsstring) (v : ProvisionSeed) (m : RefMap)
  (k0 : jsstring) (v0 : ProvisionSeed) :
  NoDup (map fst m) -> In (k0, v0) (mapSet k v m) ->
  (k0 = k /\ v0 = v) \/ (k0 <> k /\ In (k0, v0) m).
Proof.
  induction m as [|[k' v'] m IH]; simpl; intros Hnd Hin.
  - destruct Hin as [H|[]]. injection H as <- <-. auto.
  - inversion Hnd as [|? ? Hnotin Hnd']; subst.
    destruct (str_eqb k' k) eqn:E.
    + apply str_eqb_eq in E. subst k'. destruct Hin as [H|H].
      * injection H as <- <-. auto.
      * right. split; [|right; exact H].
        intros ->. apply Hnotin. apply (in_map fst) in H. exact H.
    + destruct Hin as [H|H].
      * injection H as <- <-. right. split; [|left; reflexivity].
        apply str_eqb_neq in E. exact E.
      * destruct (IH Hnd' H) as [?|[? ?]]; auto.
Qed.

Lemma In_fold_addKey_back (ks acc : list jsstring) (k : jsstring) :
  In k acc \/ In k ks -> In k (fold_left addKey ks acc).
Proof.
  revert acc. induction ks as [|k0 ks IH]; intros acc H; simpl.
  - destruct H as [H|[]]. exact H.
  - apply IH. unfold addKey.
    destruct (existsb (str_eqb k0) acc) eqn:E.
    + destruct H as [H|[<-|H]]; auto.
      left. apply existsb_exists in E. destruct E as (x & Hx & Ex).
      apply str_eqb_eq in Ex. subst x. exact Hx.
    + destruct H as [H|[<-|H]]; auto.
      * left. apply in_or_app. auto.
      * left. apply in_or_app. right. left. reflexivity.
Qed.

Lemma seen_is_filed (seen : list ProvisionSeed) (q : ProvisionSeed) :
  In q seen ->
  mapGet (trim (provision_ref q)) (fold_left dedupeStep seen []) <> None.
Proof.
  intros Hq Hnone.
  assert (Hin : In (trim (provision_ref q))
                  (map fst (fold_left dedupeStep seen []))).
  { rewrite keys_fold. apply In_fold_addKey_back. right.
    apply (in_map (fun p => trim (provision_ref p))). exact Hq. }
  assert (E : existsb (str_eqb (trim (provision_ref q)))
                (map fst (fold_left dedupeStep seen [])) = true).
  { apply existsb_exists. exists (trim (provision_ref q)).
    split; [exact Hin | apply str_eqb_refl]. }
  rewrite mapGet_existsb, Hnone in E. discriminate.
Qed.

Lemma Longest_more (seen : list ProvisionSeed) (p : ProvisionSeed)
  (k : jsstring) (v : ProvisionSeed) :
  Longest seen k v ->
  (trim (provision_ref p) = k -> normLen p <= normLen v) ->
  Longest (seen ++ [p]) k v.
Proof.
  intros [(q & Hq & Hrest) Hall] Hp. split.
  - exists q. split; [apply in_or_app; auto | exact Hrest].
  - apply Forall_app. split; [exact Hall|]. constructor; [exact Hp|constructor].
Qed.

(** Every record of the map built from [seen] is a longest one of its
    reference. *)
Lemma fold_Longest (seen : list ProvisionSeed) :
  forall k v, In (k, v) (fold_left dedupeStep seen []) -> Longest seen k v.
Proof.
  induction seen as [|p seen IH] using rev_ind; [intros k v []|].
  intros k v. rewrite fold_left_app. cbn [fold_left].
  set (m := fold_left dedupeStep seen []) in *.
  assert (W : wellKeyed m) by apply wellKeyed_fold, wellKeyed_nil.
  unfold dedupeStep.
  destruct (mapGet (trim (provision_ref p)) m) as [existing|] eqn:G.
  - assert (Hex : Longest seen (trim (provision_ref p)) existing)
      by (apply IH, mapGet_In, G).
    destruct (Nat.ltb_spec (normLen existing) (normLen p)) as [Hlt|Hge].
    + intros Hin.
      destruct (In_mapSet_other _ _ _ _ _ (proj1 W) Hin) as [[-> ->]|[Hne Hm]].
      * split.
        -- exists p. split; [apply in_or_app; right; left; reflexivity|].
           cbn. auto.
        -- apply Forall_app. split.
           ++ eapply Forall_impl; [|exact (proj2 Hex)]. cbv beta.
              intros q Hq E. specialize (Hq E).
              change (normLen q <= normLen p). lia.
           ++ constructor; [|constructor]. intros _. apply le_n.
      * apply Longest_more; [apply IH, Hm|]. intros E. congruence.
    + intros Hin. apply Longest_more; [apply IH, Hin|].
      intros E. subst k.
      rewrite (In_mapGet _ _ _ (proj1 W) Hin) in G. injection G as ->.
      exact Hge.
  - intros Hin.
    destruct (In_mapSet_other _ _ _ _ _ (proj1 W) Hin) as [[-> ->]|[Hne Hm]].
    + split.
      * exists p. split; [apply in_or_app; right; left; reflexivity|].
        cbn. auto.
      * apply Forall_app. split.
        -- apply Forall_forall. intros q Hq E. exfalso.
           apply (seen_is_filed seen q Hq). fold m. rewrite E. exact G.
        -- constructor; [|constructor]. intros _. apply le_n.
    + apply Longest_more; [apply IH, Hm|]. intros E. congruence.
Qed.

(** X7: every record of the consolidated list takes its content, section
    and chapter from a provision of the input that has its reference, and
    no provision of the input with that reference has a longer
    whitespace-normalized content: of the records of a reference a longest
    one is kept. *)
Theorem dedupe_keeps_longest :
  forall l : list ProvisionSeed,
    Forall (fun p => Longest l (provision_ref p) p) (dedupeProvisions l).
Proof.
  intros l. unfold dedupeProvisions. apply Forall_forall. intros p Hp.
  apply in_map_iff in Hp. destruct Hp as ([k v] & <- & Hin). cbn [snd].
  assert (W : wellKeyed (fold_left dedupeStep l []))
    by apply wellKeyed_fold, wellKeyed_nil.
  rewrite (proj2 W k v Hin). apply fold_Longest. exact Hin.
Qed.

End ConsolidationFacts.

(** ** White space runs *)

Module WhitespaceFacts.
Import Js JsFacts BuildDb WhitespaceDefs CleanFacts.

Lemma wsRun_cons (c : char) (r : jsstring) :
  wsRun (c :: r)
  = if is_ws c then Some (S (length (takeWhile is_ws r)), [32%N]) else None.
Proof. unfold wsRun. simpl. destruct (is_ws c); reflexivity. Qed.

Lemma beginsWs_replace_ws (fuel : nat) (s : jsstring) :
  match s with c :: _ => is_ws c = false | [] => True end ->
  beginsWs (replace_from wsRun fuel s) = false.
Proof.
  destruct s as [|c r]; intros H.
  - destruct fuel; reflexivity.
  - destruct fuel as [|f]; cbn [replace_from]; [exact H|].
    rewrite wsRun_cons, H. exact H.
Qed.

Lemma singleSpaced_replace_ws (fuel : nat) (s : jsstring) :
  length s <= fuel -> singleSpaced (replace_from wsRun fuel s) = true.
Proof.
  revert s. induction fuel as [|f IH]; intros s Hlen.
  - destruct s; [reflexivity | simpl in Hlen; lia].
  - destruct s as [|c r]; [reflexivity|]. cbn [replace_from].
    simpl in Hlen. rewrite wsRun_cons.
    destruct (is_ws c) eqn:E.
    + cbn [Nat.pred app]. rewrite skipn_takeWhile.
      cbn [singleSpaced].
      rewrite (beginsWs_replace_ws f _ (dropWhile_head is_ws r)).
      rewrite IH by (pose proof (length_dropWhile is_ws r); lia).
      reflexivity.
    + cbn [singleSpaced]. rewrite E, IH by lia. reflexivity.
Qed.

Lemma replace_ws_fixed (fuel : nat) (s : jsstring) :
  singleSpaced s = true -> replace_from wsRun fuel s = s.
Proof.
  revert fuel. induction s as [|c r IH]; intros fuel H.
  - destruct fuel; reflexivity.
  - destruct fuel as [|f]; [reflexivity|]. cbn [replace_from].
    cbn [singleSpaced] in H. apply andb_true_iff in H.
    destruct H as [Hc Hr]. rewrite wsRun_cons.
    destruct (is_ws c) eqn:E.
    + apply andb_true_iff in Hc. destruct Hc as [H32 Hnext].
      apply ceq_eq in H32. subst c. apply negb_true_iff in Hnext.
      assert (T : takeWhile is_ws r = []).
      { destruct r as [|c' r']; [reflexivity|].
        cbn [beginsWs] in Hnext. cbn [takeWhile]. rewrite Hnext.
        reflexivity. }
      rewrite T. cbn [length Nat.pred skipn app].
      rewrite IH by exact Hr. reflexivity.
    + rewrite IH by exact Hr. reflexivity.
Qed.

Lemma singleSpaced_app_r (a b : jsstring) :
  singleSpaced (a ++ b) = true -> singleSpaced b = true.
Proof.
  induction a as [|c a IH]; simpl; auto.
  intros H. apply andb_true_iff in H. apply IH, H.
Qed.

Lemma singleSpaced_app_l (a b : jsstring) :
  singleSpaced (a ++ b) = true -> singleSpaced a = true.
Proof.
  induction a as [|c a IH]; simpl; auto.
  intros H. apply andb_true_iff in H. destruct H as [H Hr].
  rewrite (IH Hr), andb_true_r.
  destruct (is_ws c); [|reflexivity].
  apply andb_true_iff in H. destruct H as [H32 Hn]. rewrite H32.
  destruct a as [|c' a']; [reflexivity|]. exact Hn.
Qed.

Lemma singleSpaced_trim (s : jsstring) :
  singleSpaced s = true -> singleSpaced (trim s) = true.
Proof.
  intros H. destruct (trim_block s) as (a & b & E). rewrite E in H.
  apply singleSpaced_app_r in H. apply singleSpaced_app_l in H. exact H.
Qed.

Lemma singleSpaced_firstn (n : nat) (s : jsstring) :
  singleSpaced s = true -> singleSpaced (firstn n s) = true.
Proof.
  intros H. rewrite <- (firstn_skipn n s) in H.
  apply singleSpaced_app_l in H. exact H.
Qed.

Lemma singleSpaced_replaceAll (t : jsstring) :
  singleSpaced (replaceAll wsRun t) = true.
Proof. unfold replaceAll. apply singleSpaced_replace_ws. apply le_n. Qed.

(** X8: the normalized text has no white space at its ends, every white
    space in it is a single space, and normalizing it again leaves it as
    it is. *)
Theorem normalizeWhitespace_canonical :
  forall text : jsstring,
    singleSpaced (normalizeWhitespace text) = true
    /\ trim (normalizeWhitespace text) = normalizeWhitespace text
    /\ normalizeWhitespace (normalizeWhitespace text)
       = normalizeWhitespace text.
Proof.
  intros text.
  assert (S1 : singleSpaced (normalizeWhitespace text) = true)
    by (apply singleSpaced_trim, singleSpaced_replaceAll).
  assert (T1 : trim (normalizeWhitespace text) = normalizeWhitespace text)
    by apply trim_idem.
  split; [exact S1|]. split; [exact T1|].
  unfold normalizeWhitespace at 1. unfold replaceAll.
  rewrite replace_ws_fixed by exact S1. exact T1.
Qed.

End WhitespaceFacts.

(** ** Entries of the year index *)

Module EntryFacts.
Import Js JsFacts Fetcher Parser IndexDefs IndexFacts CleanFacts.
Import WhitespaceDefs WhitespaceFacts EntryDefs.

Lemma forallb_takeWhile (f : char -> bool) (s : jsstring) :
  forallb f (takeWhile f s) = true.
Proof.
  induction s as [|c s IH]; simpl; auto.
  destruct (f c) eqn:E; simpl; [rewrite E; exact IH | reflexivity].
Qed.

Lemma urlPatternAt_groups (s ys m d n : jsstring) :
  urlPatternAt s = Some (ys, m, d, n) ->
  digitString 4 ys /\ digitString 2 m /\ digitString 2 d
  /\ n <> [] /\ forallb is_digit n = true.
Proof.
  unfold urlPatternAt, obind.
  destruct (expect (lit "/eli/") s) as [s1|]; [|discriminate].
  destruct (match expect (lit "loi") s1 with
            | Some r => Some r
            | None => expect (lit "wet") s1
            end) as [s2|]; [|discriminate].
  destruct (expect (lit "/") s2) as [s3|]; [|discriminate].
  destruct (digitsN 4 s3) as [[ys' s4]|] eqn:Ey; [|discriminate].
  destruct (expect (lit "/") s4) as [s5|]; [|discriminate].
  destruct (digitsN 2 s5) as [[m' s6]|] eqn:Em; [|discriminate].
  destruct (expect (lit "/") s6) as [s7|]; [|discriminate].
  destruct (digitsN 2 s7) as [[d' s8]|] eqn:Ed; [|discriminate].
  destruct (expect (lit "/") s8) as [s9|]; [|discriminate].
  destruct (span1 is_digit s9) as [[n' s10]|] eqn:En; [|discriminate].
  destruct (expect (lit "/justel") s10) as [s11|]; [|discriminate].
  intros [= -> -> -> ->].
  destruct (digitsN_spec _ _ _ _ Ey) as (_ & Ly & Dy).
  destruct (digitsN_spec _ _ _ _ Em) as (_ & Lm & Dm).
  destruct (digitsN_spec _ _ _ _ Ed) as (_ & Ld & Dd).
  unfold digitString. repeat split; auto.
  - apply (span1_spec _ _ _ _ En).
  - unfold span1 in En.
    pose proof (forallb_takeWhile is_digit s9) as F.
    destruct (takeWhile is_digit s9); [discriminate|].
    injection En as <- _. exact F.
Qed.

Lemma urlMatch_groups (href ys m d n : jsstring) :
  urlMatch href = Some (ys, m, d, n) ->
  digitString 4 ys /\ digitString 2 m /\ digitString 2 d
  /\ n <> [] /\ forallb is_digit n = true.
Proof.
  induction href as [|c r IH]; cbn [urlMatch].
  - destruct (urlPatternAt []) as [g|] eqn:E; [|discriminate].
    intros [= ->]. apply (urlPatternAt_groups _ _ _ _ _ E).
  - destruct (urlPatternAt (c :: r)) as [g|] eqn:E.
    + intros [= ->]. apply (urlPatternAt_groups _ _ _ _ _ E).
    + exact IH.
Qed.

Lemma is_digit_range (c : char) :
  is_digit c = true -> (48 <= c <= 57)%N.
Proof.
  unfold is_digit. intros H. apply andb_true_iff in H.
  destruct H as [H1 H2]. apply N.leb_le in H1, H2. auto.
Qed.

Lemma parseDigits_four (ys : jsstring) :
  digitString 4 ys -> (parseDigits ys <= 9999)%N.
Proof.
  intros [L D].
  destruct ys as [|a [|b [|c [|d [|? ?]]]]]; try discriminate L.
  cbn [forallb] in D.
  repeat (apply andb_true_iff in D; destruct D as [?H D]).
  repeat match goal with
         | H : is_digit _ = true |- _ => apply is_digit_range in H
         end.
  unfold parseDigits. cbn [fold_left]. lia.
Qed.

Lemma dropWhile_app_stop (f : char -> bool) (x y : jsstring) :
  match y with c :: _ => f c = false | [] => False end ->
  exists t, dropWhile f (x ++ y) = t ++ y.
Proof.
  intros Hy. induction x as [|c x IH]; simpl.
  - exists []. destruct y as [|c r]; [contradiction|].
    simpl. rewrite Hy. reflexivity.
  - destruct (f c).
    + exact IH.
    + exists (c :: x). reflexivity.
Qed.

(** A prefix that begins and ends with code units other than white space
    is a prefix of the trimmed string too. *)
Lemma trim_keeps_prefix (a r : jsstring) :
  match a with c :: _ => is_ws c = false | [] => False end ->
  match rev a with c :: _ => is_ws c = false | [] => False end ->
  exists t, trim (a ++ r) = a ++ t.
Proof.
  intros Hh Hl. unfold trim, trimStart, trimEnd.
  assert (E : dropWhile is_ws (a ++ r) = a ++ r).
  { destruct a as [|c a']; [contradiction|]. simpl. rewrite Hh.
    reflexivity. }
  rewrite E. rewrite rev_app_distr.
  destruct (dropWhile_app_stop is_ws (rev r) (rev a) Hl) as (t & Ht).
  rewrite Ht. exists (rev t). rewrite rev_app_distr, rev_involutive.
  reflexivity.
Qed.

Lemma startsWith_spec (p s : jsstring) :
  startsWith p s = true -> exists r, s = p ++ r.
Proof.
  revert s. induction p as [|x p IH]; intros s H.
  - exists s. reflexivity.
  - destruct s as [|c s]; [discriminate H|]. simpl in H.
    apply andb_true_iff in H. destruct H as [Hc Hr].
    apply ceq_eq in Hc. subst c.
    destruct (IH _ Hr) as (r & ->). exists r. reflexivity.
Qed.

Lemma fullUrl_absolute (href : jsstring) :
  startsWith (lit "http")
    (if startsWith (lit "http") href then trim href
     else trim (lit "http://www.ejustice.just.fgov.be" ++ href)) = true.
Proof.
  destruct (startsWith (lit "http") href) eqn:E.
  - destruct (startsWith_spec _ _ E) as (r & ->).
    destruct (trim_keeps_prefix (lit "http") r eq_refl eq_refl) as (t & ->).
    apply startsWith_app.
  - change (lit "http://www.ejustice.just.fgov.be" ++ href)
      with (lit "http" ++ (lit "://www.ejustice.just.fgov.be" ++ href)).
    destruct (trim_keeps_prefix (lit "http")
                (lit "://www.ejustice.just.fgov.be" ++ href)
                eq_refl eq_refl) as (t & ->).
    apply startsWith_app.
Qed.

Lemma indexEntry_link_fields (lang : Lang) (n : nat)
  (link : node * option node) (e : LawIndexEntry) :
  indexEntry lang n link = Some e -> linkFieldsOk e.
Proof.
  unfold indexEntry.
  destruct (urlMatch (hrefOf (fst link))) as [[[[ys m] d] nu]|] eqn:U;
    [|discriminate].
  destruct (snd link) as [tr|]; [|discriminate].
  destruct (rowFields lang tr) as [[t src] pd].
  destruct (isGermanTranslation t); [discriminate|].
  intros [= <-].
  destruct (urlMatch_groups _ _ _ _ _ U) as (Hy & Hm & Hd & Hn & Dn).
  unfold linkFieldsOk. cbn [month day numac year date justelUrl].
  repeat split; try apply Hm; try apply Hd; auto.
  - apply parseDigits_four, Hy.
  - apply fullUrl_absolute.
Qed.

Lemma pushed_Forall (P : LawIndexEntry -> Prop) (lang : Lang) :
  (forall n link e, indexEntry lang n link = Some e -> P e) ->
  forall links k, Forall P (pushed lang k links).
Proof.
  intros H links. induction links as [|link rest IH]; intros k; simpl.
  - constructor.
  - destruct (indexEntry lang (k + 1) link) as [e|] eqn:E; [|apply IH].
    constructor; [exact (H _ _ _ E) | apply IH].
Qed.

Lemma index_entry_link_fields_aux (document : node) (lang : Lang) :
  Forall linkFieldsOk (parseYearIndex document lang).
Proof.
  rewrite parseYearIndex_pushed.
  apply pushed_Forall. apply indexEntry_link_fields.
Qed.

Lemma Forall_trim_units (P : char -> Prop) (s : jsstring) :
  Forall P s -> Forall P (trim s).
Proof.
  intros H. destruct (trim_block s) as (a & b & E).
  rewrite E in H. exact (Forall_block P a (trim s) b H).
Qed.

(** X9: every entry of the index has a month and a day of two digits, an
    identifier made of digits, a year below 10000, the date made of year,
    month and day, and a URL that begins with http. *)
Theorem index_entry_link_fields :
  forall (document : node) (lang : Lang),
    Forall linkFieldsOk (parseYearIndex document lang).
Proof.
  intros document lang. rewrite parseYearIndex_pushed.
  apply pushed_Forall. apply indexEntry_link_fields.
Qed.

(** X10: for every entry of the index whose year has four digits, the
    content URL built from the year, month, day and identifier of the
    entry, in either language, is decomposed by the pattern of the index
    into these very fields. *)
Theorem index_entry_content_url :
  forall (document : node) (lang : Lang),
    Forall
      (fun e =>
         forall lang' : Lang,
           (1000 <= year e)%N ->
           urlMatch
             (buildJustelUrl (year e) (month e) (day e) (numac e) lang')
           = Some (toString10 (year e), month e, day e, numac e))
      (parseYearIndex document lang).
Proof.
  intros document lang.
  eapply Forall_impl; [|apply (index_entry_link_fields_aux document lang)].
  intros e (Hm & Hd & Hn & Dn & Hy & _) lang' Hlo.
  destruct (toString10_four (year e) (conj Hlo Hy)) as [Ly Dy].
  unfold buildJustelUrl. rewrite urlMatch_base. apply urlMatch_hit.
  rewrite <- (app_nil_r (lit "/justel")).
  apply urlPatternAt_canonical; auto; try apply Hm; try apply Hd.
Qed.

Lemma index_entry_content_url_witness :
  (1000 <= year sampleEntry)%N
  /\ urlMatch
       (buildJustelUrl (year sampleEntry) (month sampleEntry)
          (day sampleEntry) (numac sampleEntry) Nl)
     = Some (toString10 (year sampleEntry), month sampleEntry,
             day sampleEntry, numac sampleEntry).
Proof.
  assert (H : (1000 <= year sampleEntry)%N) by (vm_compute; discriminate).
  split; [exact H|].
  pose proof (index_entry_content_url samplePage Fr) as F.
  rewrite (proj1 samplePage_entries) in F.
  inversion F as [|e l He _]; subst. exact (He Nl H).
Defined.

Lemma search_hit {A : Type} (m : jsstring -> option A) (s : jsstring)
  (i : nat) (hit : A) :
  search m s = Some (i, hit) -> exists suffix, m suffix = Some hit.
Proof.
  revert i. induction s as [|c r IH]; intros i; cbn [search];
    [discriminate|].
  destruct (m (c :: r)) as [h|] eqn:E.
  - intros [= _ <-]. exists (c :: r). exact E.
  - destruct (search m r) as [[j h]|]; [|discriminate].
    intros [= _ <-]. apply (IH j). reflexivity.
Qed.

Lemma pubDateAt_dashed (s : jsstring) (n : nat) (d : jsstring) :
  pubDateAt s = Some (n, d) -> dashedDate d.
Proof.
  unfold pubDateAt, obind.
  destruct (digitsN 2 s) as [[dd s1]|] eqn:E1; [|discriminate].
  destruct (expect (lit "-") s1) as [s2|]; [|discriminate].
  destruct (digitsN 2 s2) as [[mm s3]|] eqn:E2; [|discriminate].
  destruct (expect (lit "-") s3) as [s4|]; [|discriminate].
  destruct (digitsN 4 s4) as [[yy s5]|] eqn:E3; [|discriminate].
  intros [= _ <-]. exists dd, mm, yy.
  destruct (digitsN_spec _ _ _ _ E1) as (_ & L1 & D1).
  destruct (digitsN_spec _ _ _ _ E2) as (_ & L2 & D2).
  destruct (digitsN_spec _ _ _ _ E3) as (_ & L3 & D3).
  unfold digitString. auto 10.
Qed.

Lemma indexOf_char (c : char) (s : jsstring) :
  match indexOf [c] s with
  | Some k => Forall (fun x => x <> c) (firstn k s)
  | None => Forall (fun x => x <> c) s
  end.
Proof.
  induction s as [|x s IH]; [constructor|].
  rewrite indexOf_unfold. cbn [startsWith].
  destruct (ceq c x) eqn:E; cbn [andb]; [constructor|].
  destruct (indexOf [c] s) as [k|]; cbn [option_map firstn];
    (constructor; [|exact IH]);
    intros ->; rewrite ceq_refl in E; discriminate.
Qed.

Lemma cleanTitle_shape (t : jsstring) :
  singleSpaced (cleanTitle t) = true /\ trim (cleanTitle t) = cleanTitle t.
Proof.
  unfold cleanTitle. split; [|apply trim_idem].
  apply singleSpaced_trim.
  destruct (search footnoteAt (replaceAll wsRun t)) as [[i u]|].
  - apply singleSpaced_firstn, singleSpaced_replaceAll.
  - apply singleSpaced_replaceAll.
Qed.

(** The source read behind the marker: one line, trimmed. *)
Lemma sourceLine_shape (afterSource : jsstring) :
  let src := match indexOf [10%N] (trim afterSource) with
             | Some (S k) => trim (substring 0 (S k) (trim afterSource))
             | _ => trim (trim afterSource)
             end in
  trim src = src /\ Forall (fun c => c <> 10%N) src.
Proof.
  cbv zeta. pose proof (indexOf_char 10%N (trim afterSource)) as H.
  destruct (indexOf [10%N] (trim afterSource)) as [[|k]|] eqn:E.
  - split; [apply trim_idem|]. exfalso.
    rewrite indexOf_unfold in E.
    destruct (trim_ends afterSource) as [Hh _].
    destruct (trim afterSource) as [|c r]; [discriminate E|].
    cbn [startsWith] in E. destruct (ceq 10%N c) eqn:Ec.
    + apply ceq_eq in Ec. subst c. discriminate Hh.
    + cbn [andb] in E. destruct (indexOf [10%N] r); discriminate E.
  - split; [apply trim_idem|]. apply Forall_trim_units.
    unfold substring. rewrite Nat.sub_0_r.
    match type of H with
    | match ?t with _ => _ end =>
        replace t with (Some (S k)) in H by (symmetry; exact E)
    end.
    exact H.
  - split; [apply trim_idem|]. apply Forall_trim_units.
    match type of H with
    | match ?t with _ => _ end =>
        replace t with (@None nat) in H by (symmetry; exact E)
    end.
    exact H.
Qed.

Lemma rowFields_shape (lang : Lang) (tr : node) (t src pd : jsstring) :
  rowFields lang tr = (t, src, pd) ->
  singleSpaced t = true /\ trim t = t
  /\ trim src = src /\ Forall (fun c => c <> 10%N) src
  /\ (pd = [] \/ dashedDate pd).
Proof.
  unfold rowFields.
  destruct (querySelectorAll_tag (lit "td") tr) as [|td0 [|textCell tds]].
  - intros [= <- <- <-]. repeat split; auto.
  - intros [= <- <- <-]. repeat split; auto.
  - intros [= <- <- <-].
    split; [apply cleanTitle_shape|]. split; [apply cleanTitle_shape|].
    assert (Hsrc : forall x, trim x = x /\ Forall (fun c => c <> 10%N) x ->
                             trim x = x /\ Forall (fun c => c <> 10%N) x)
      by auto.
    split; [|split].
    + destruct (indexOf (sourceMarker lang) (textContent textCell));
        [|reflexivity].
      apply (sourceLine_shape _).
    + destruct (indexOf (sourceMarker lang) (textContent textCell));
        [|constructor].
      apply (sourceLine_shape _).
    + destruct (search pubDateAt (textContent textCell)) as [[i [n d]]|] eqn:E;
        [|left; reflexivity].
      right. destruct (search_hit _ _ _ _ E) as (suffix & Hs).
      apply (pubDateAt_dashed _ _ _ Hs).
Qed.

Lemma indexEntry_text_fields (lang : Lang) (n : nat)
  (link : node * option node) (e : LawIndexEntry) :
  indexEntry lang n link = Some e -> textFieldsOk e.
Proof.
  unfold indexEntry.
  destruct (urlMatch (hrefOf (fst link))) as [[[[ys m] d] nu]|];
    [|discriminate].
  destruct (snd link) as [tr|]; [|discriminate].
  destruct (rowFields lang tr) as [[t src] pd] eqn:R.
  destruct (isGermanTranslation t); [discriminate|].
  intros [= <-]. unfold textFieldsOk.
  cbn [title source publicationDate].
  apply (rowFields_shape lang tr t src pd R).
Qed.

Lemma index_entry_text_fields_aux (document : node) (lang : Lang) :
  Forall textFieldsOk (parseYearIndex document lang).
Proof.
  rewrite parseYearIndex_pushed.
  apply pushed_Forall. apply indexEntry_text_fields.
Qed.

(** X11: every entry of the index has a title on one line, single-spaced
    and without white space at its ends; a source without white space at
    its ends and without a newline; and a publication date that is empty
    or written DD-MM-YYYY. *)
Theorem index_entry_text_fields :
  forall (document : node) (lang : Lang),
    Forall textFieldsOk (parseYearIndex document lang).
Proof.
  intros document lang. rewrite parseYearIndex_pushed.
  apply pushed_Forall. apply indexEntry_text_fields.
Qed.

End EntryFacts.

(** ** Cleaned text and provisions *)

Module ProvisionFacts.
Import Js JsFacts Parser CleanDefs CleanFacts IndexFacts EntryFacts.
Import ProvisionDefs.

Lemma join_nonempty (l : jsstring) (ls : list jsstring) :
  l <> [] -> join [10%N] (l :: ls) <> [].
Proof.
  intros Hl. destruct ls as [|l2 ls]; [exact Hl|].
  change (l ++ [10%N] ++ join [10%N] (l2 :: ls) <> []).
  destruct l; [congruence | discriminate].
Qed.

(** Lines that are trimmed join to a text that is trimmed. *)
Lemma join_ends (ls : list jsstring) :
  Forall lineOk ls ->
  match join [10%N] ls with c :: _ => is_ws c = false | [] => True end
  /\ match rev (join [10%N] ls) with
     | c :: _ => is_ws c = false
     | [] => True
     end.
Proof.
  induction 1 as [|l ls Hl Hls IH]; [simpl; auto|].
  destruct Hl as (Hne & Ht & _).
  destruct (trim_ends l) as [Hh Hlast]. rewrite Ht in Hh, Hlast.
  destruct ls as [|l2 ls]; [simpl; auto|].
  change (join [10%N] (l :: l2 :: ls))
    with (l ++ [10%N] ++ join [10%N] (l2 :: ls)).
  split.
  - destruct l as [|c r]; [congruence | exact Hh].
  - rewrite !rev_app_distr.
    assert (Hj : join [10%N] (l2 :: ls) <> []).
    { apply join_nonempty. inversion Hls as [|? ? H2 _]; subst. apply H2. }
    destruct IH as [_ IH].
    match goal with
    | |- match (?x ++ _) ++ _ with _ => _ end =>
        assert (IHx : match x with
                      | c :: _ => is_ws c = false
                      | [] => True
                      end) by exact IH;
        assert (Hx : x <> []);
        [ intros Ex;
          pose proof (rev_involutive (join [10%N] (l2 :: ls))) as Hr;
          assert (Ex' : rev (join [10%N] (l2 :: ls)) = []) by exact Ex;
          rewrite Ex' in Hr; apply Hj; symmetry; exact Hr
        | destruct x as [|c r]; [congruence | exact IHx] ]
    end.
Qed.

Lemma collapseWhitespace_lines (u : jsstring) :
  exists ls,
    collapseWhitespace u = join [10%N] ls
    /\ Forall lineOk ls /\ Forall (fun l => tidy l = true) ls.
Proof.
  unfold collapseWhitespace.
  set (x := replaceAll blankLinesAt (replaceAll spacesAt u)).
  assert (Hx : tidy x = true).
  { unfold x, replaceAll. apply tidy_replace_blank.
    apply tidy_replace_spaces. lia. }
  exists (linesOf x). split; [reflexivity|].
  split; [apply linesOf_ok | apply linesOf_tidy, Hx].
Qed.

Lemma cleanArticleHtml_trimmed (html : jsstring) :
  trim (cleanArticleHtml html) = cleanArticleHtml html.
Proof.
  rewrite cleanArticleHtml_eq.
  destruct (collapseWhitespace_lines (decodeEntities (stripTags html)))
    as (ls & -> & Hok & _).
  destruct (join_ends ls Hok) as [Hh Hl]. apply trim_fixed; assumption.
Qed.

(** X12: the cleaned text of a fragment is a sequence of lines joined by
    newlines; no line is empty, has white space at its ends, or holds a
    newline, a tabulation or two spaces in a row; and the text as a whole
    has no white space at its ends. *)
Theorem cleanArticleHtml_lines :
  forall html : jsstring,
    (exists ls,
        cleanArticleHtml html = join [10%N] ls
        /\ Forall lineOk ls /\ Forall (fun l => tidy l = true) ls)
    /\ trim (cleanArticleHtml html) = cleanArticleHtml html.
Proof.
  intros html. split; [|apply cleanArticleHtml_trimmed].
  rewrite cleanArticleHtml_eq. apply collapseWhitespace_lines.
Qed.

Lemma truthy_nonempty (s : jsstring) : truthy s = true -> s <> [].
Proof. destruct s; [discriminate | discriminate]. Qed.

Lemma articleStep_ok (toLowerCase : jsstring -> jsstring) (html : jsstring)
  (prevStart : nat) (current : jsstring * nat) (nextStart : nat)
  (currentChapter : option jsstring) (ch : option jsstring)
  (p : ParsedProvision) :
  articleStep toLowerCase html prevStart current nextStart currentChapter
  = (ch, Some p) ->
  provisionOk p.
Proof.
  unfold articleStep.
  destruct (truthy (trim (cleanArticleHtml
                            (substring (snd current) nextStart html))))
    eqn:T; cbn [negb]; [|discriminate].
  intros [= _ <-]. unfold provisionOk.
  cbn [content provision_ref prov_title].
  split; [apply truthy_nonempty, T|]. split; [apply trim_idem|].
  split; [reflexivity|].
  destruct (str_eqb (fst current) (lit "1er")
            || str_eqb (fst current) (lit "1ER")); reflexivity.
Qed.

Lemma articleLoop_ok (toLowerCase : jsstring -> jsstring) (html : jsstring)
  (matches : list (jsstring * nat)) :
  forall (prevStart : nat) (currentChapter : option jsstring),
    Forall provisionOk
      (articleLoop toLowerCase html prevStart matches currentChapter).
Proof.
  induction matches as [|current rest IH]; intros prevStart currentChapter;
    cbn [articleLoop]; [constructor|].
  destruct (articleStep toLowerCase html prevStart current
              match rest with
              | [] => length html
              | next :: _ => snd next
              end currentChapter) as [ch [p|]] eqn:E.
  - constructor; [apply (articleStep_ok _ _ _ _ _ _ _ _ E) | apply IH].
  - apply IH.
Qed.

Lemma ceq_ci_A (c : char) : ceq_ci 65%N c = true -> is_ws c = false.
Proof.
  unfold ceq_ci, upper_ascii, ceq. change (is_lower 65%N) with false.
  cbv iota. destruct (is_lower c) eqn:L; intros H; apply N.eqb_eq in H.
  - unfold is_lower in L. apply andb_true_iff in L. destruct L as [L1 L2].
    apply N.leb_le in L1, L2.
    assert (c = 97%N) by lia. subst c. reflexivity.
  - subst c. reflexivity.
Qed.

Lemma articleNumberAt_head (part num : jsstring) :
  articleNumberAt part = Some num -> trim part <> [].
Proof.
  unfold articleNumberAt, articleWordAt, obind. intros H.
  assert (Hhead : exists c r, part = c :: r /\ ceq_ci 65%N c = true).
  { destruct (expect_ci (lit "Article") part) as [r|] eqn:E1.
    - apply (expect_ci_head _ _ _ _ E1).
    - destruct (expect_ci (lit "Art.") part) as [r|] eqn:E2;
        [|discriminate H].
      apply (expect_ci_head _ _ _ _ E2). }
  destruct Hhead as (c & r & -> & Hc). apply ceq_ci_A in Hc.
  assert (Hrev : match rev [c] with
                 | x :: _ => is_ws x = false
                 | [] => False
                 end) by exact Hc.
  destruct (trim_keeps_prefix [c] r Hc Hrev) as (t & Ht).
  change ([c] ++ r) with (c :: r) in Ht. rewrite Ht. discriminate.
Qed.

Lemma fallback_ok (toLowerCase : jsstring -> jsstring) (html : jsstring) :
  Forall provisionOk (parseArticlesFallback toLowerCase html).
Proof.
  unfold parseArticlesFallback. apply Forall_forall. intros p Hp.
  apply in_flat_map in Hp. destruct Hp as (part & _ & Hp).
  destruct (articleNumberAt part) as [num|] eqn:E; [|destruct Hp].
  destruct Hp as [<-|[]]. unfold provisionOk.
  cbn [content provision_ref prov_title].
  split; [apply (articleNumberAt_head _ _ E)|]. split; [apply trim_idem|].
  split; reflexivity.
Qed.

(** X13: whatever the text section holds, and by whichever of the two
    strategies, every provision the article extractor returns has a
    content that is not empty and has no white space at its ends, a
    reference that begins with art, and a title that begins with the word
    Article. *)
Theorem parseArticles_provisions_ok :
  forall (toLowerCase : jsstring -> jsstring) (html : jsstring),
    Forall provisionOk (parseArticles toLowerCase html).
Proof.
  intros toLowerCase html. unfold parseArticles.
  destruct (articleMatches html) as [|m ms].
  - apply fallback_ok.
  - apply articleLoop_ok.
Qed.

Lemma parseArticles_ok_all (toLowerCase : jsstring -> jsstring)
  (html : jsstring) :
  Forall provisionOk (parseArticles toLowerCase html).
Proof.
  unfold parseArticles. destruct (articleMatches html) as [|m ms].
  - apply fallback_ok.
  - apply articleLoop_ok.
Qed.

Lemma Forall_takeWhile (f : char -> bool) (s : jsstring) :
  Forall (fun c => f c = true) (takeWhile f s).
Proof.
  induction s as [|c s IH]; simpl; [constructor|].
  destruct (f c) eqn:E; constructor; assumption.
Qed.

Lemma lineValueAt_line (s v : jsstring) :
  lineValueAt s = Some v -> Forall (fun c => isLineTerminator c = false) v.
Proof.
  unfold lineValueAt.
  pose proof (Forall_takeWhile (fun c => negb (isLineTerminator c)) s) as F.
  destruct (takeWhile (fun c => negb (isLineTerminator c)) s) as [|c r];
    [discriminate|].
  intros H.
  assert (E : v = c :: r).
  { destruct (dropWhile (fun c => negb (isLineTerminator c)) s) as [|c' r'];
      [congruence|].
    destruct (ceq c' 10%N); congruence. }
  subst v. eapply Forall_impl; [|exact F]. cbv beta. intros x Hx.
  apply negb_true_iff in Hx. exact Hx.
Qed.

Lemma valueAt_line (s v : jsstring) :
  valueAt s = Some v -> Forall (fun c => isLineTerminator c = false) v.
Proof.
  induction s as [|c r IH]; cbn [valueAt].
  - apply lineValueAt_line.
  - destruct (is_ws c).
    + destruct (valueAt r) as [v'|].
      * intros [= <-]. apply IH. reflexivity.
      * apply lineValueAt_line.
    + apply lineValueAt_line.
Qed.

Lemma matchEither_line (a b : jsstring -> option jsstring)
  (text v : jsstring) :
  matchEither a b text = Some v ->
  Forall (fun c => isLineTerminator c = false) v.
Proof.
  assert (L : forall (label : jsstring -> option jsstring) s u,
             labelledAt label s = Some u ->
             Forall (fun c => isLineTerminator c = false) u).
  { intros label s u. unfold labelledAt, obind.
    destruct (label s) as [s1|]; [|discriminate].
    destruct (expect (lit ":") (dropWhile is_ws s1)) as [s2|];
      [|discriminate].
    apply valueAt_line. }
  unfold matchEither.
  destruct (search (labelledAt a) text) as [[i u]|] eqn:Ea.
  - intros [= <-]. destruct (search_hit _ _ _ _ Ea) as (suffix & Hs).
    apply (L _ _ _ Hs).
  - destruct (search (labelledAt b) text) as [[i u]|] eqn:Eb;
      [|discriminate].
    intros [= <-]. destruct (search_hit _ _ _ _ Eb) as (suffix & Hs).
    apply (L _ _ _ Hs).
Qed.

Lemma firstMatch_lineValue (a b : jsstring -> option jsstring)
  (els : list node) :
  lineValue
    (firstMatch
       (fun el => option_map trim (matchEither a b (textContent el))) els).
Proof.
  induction els as [|el rest IH]; cbn [firstMatch]; [exact I|].
  destruct (matchEither a b (textContent el)) as [v|] eqn:E;
    cbn [option_map]; [|exact IH].
  split; [apply trim_idem|].
  apply Forall_trim_units. apply (matchEither_line _ _ _ _ E).
Qed.

(** X24: whatever page is parsed, the law returned carries the identifier
    it was asked for; its title is on one line, single-spaced and without
    white space at its ends; the entry into force and the source, where
    found, are trimmed and hold no line terminator; and every provision
    has a content that is not empty, a reference that begins with art and
    a title that begins with the word Article. *)
Theorem parseLawContent_well_formed :
  forall (toLowerCase : jsstring -> jsstring) (jsdom : jsstring -> node)
         (innerHTML : node -> jsstring) (html numac : jsstring),
    lawOk numac (parseLawContent toLowerCase jsdom innerHTML html numac).
Proof.
  intros toLowerCase jsdom innerHTML html numac.
  unfold lawOk, parseLawContent.
  assert (Ht : forall els : list node,
    WhitespaceDefs.singleSpaced
      match els with
      | titleEl :: _ => trim (replaceAll wsRun (textContent titleEl))
      | [] => []
      end = true
    /\ trim match els with
            | titleEl :: _ => trim (replaceAll wsRun (textContent titleEl))
            | [] => []
            end
       = match els with
         | titleEl :: _ => trim (replaceAll wsRun (textContent titleEl))
         | [] => []
         end).
  { intros [|titleEl els]; [split; reflexivity|]. split.
    - apply WhitespaceFacts.singleSpaced_trim,
        WhitespaceFacts.singleSpaced_replaceAll.
    - apply trim_idem. }
  destruct (elementsWhere (hasId (lit "list-title-3")) (jsdom html))
    as [|textSection rest];
    cbn [law_numac law_title entryIntoForce law_source provisions];
    (split; [reflexivity|]);
    (split; [apply Ht|]); (split; [apply Ht|]);
    (split; [apply firstMatch_lineValue|]);
    (split; [apply firstMatch_lineValue|]).
  - constructor.
  - apply parseArticles_ok_all.
Qed.

End ProvisionFacts.

(** ** Requests of a call of the transport *)

Module TransportFacts.
Import Js JsFacts Fetcher FetcherDefs FetcherFacts PipelineDefs.
Local Open Scope Z_scope.

Section Transport.

Variable env : Env.
Variable decode : list N -> jsstring.

Lemma limiterWait_log (w : World) :
  logOf (trace (limiterWait env w)) = logOf (trace w).
Proof.
  unfold limiterWait.
  destruct (clock w - lastRequestTime w <? RATE_LIMIT_MS); reflexivity.
Qed.

Lemma length_attemptsFrom (attempt : N) (url : jsstring) (k : nat) :
  length (attemptsFrom attempt url k) = k.
Proof.
  revert attempt. induction k as [|k IH]; intros attempt; cbn;
    [reflexivity | rewrite IH; reflexivity].
Qed.

(** From an attempt on, the loop sends at most as many requests as the
    budget of three attempts leaves, all of them to the URL of the call,
    their attempts numbered in a row. *)
Lemma retryLoop_log (fuel : nat) (attempt : N) (url : jsstring)
  (w : World) :
  exists k : nat,
    (k = 0 \/ N.to_nat attempt + k <= 4)%nat
    /\ logOf (trace (snd (retryLoop env decode fuel attempt url w)))
       = rev (attemptsFrom attempt url k) ++ logOf (trace w)
    /\ requests (snd (retryLoop env decode fuel attempt url w))
       = (requests w + k)%nat.
Proof.
  revert attempt w. induction fuel as [|f IH]; intros attempt w.
  - exists 0%nat. cbn. auto.
  - destruct (N.leb_spec attempt maxRetries) as [Hle|Hgt].
    + rewrite (retryLoop_step env decode f attempt url w Hle).
      unfold maxRetries in Hle.
      destruct (responseResult decode url (outcome env (requests w) url)).
      * destruct (N.eqb_spec attempt maxRetries) as [He|Hne].
        -- exists 1%nat.
           cbn [snd fetch trace logOf requests attemptsFrom rev app].
           split; [right; lia|]. split; [reflexivity | lia].
        -- unfold maxRetries in Hne.
           destruct (IH (attempt + 1)%N
                       (snd (setTimeout env (Z.of_N (attempt * 1000))
                               (snd (fetch env attempt url w)))))
             as (k & Hk & Hu & Hr).
           exists (S k). split; [right; lia|]. split.
           ++ rewrite Hu. cbn [snd setTimeout fetch trace logOf].
              cbn [attemptsFrom rev]. rewrite <- app_assoc. reflexivity.
           ++ rewrite Hr. cbn [snd setTimeout fetch requests]. lia.
      * exists 1%nat.
        cbn [snd fetch trace logOf requests attemptsFrom rev app].
        split; [right; lia|]. split; [reflexivity | lia].
    + exists 0%nat. cbn [retryLoop]. apply N.leb_gt in Hgt. rewrite Hgt.
      cbn. auto.
Qed.

(** A call sends its attempts 1 to k to its URL, with k between one and
    three, and nothing else. *)
Lemma rateLimitedFetch_log (url : jsstring) (w : World) :
  exists k : nat,
    (1 <= k <= 3)%nat
    /\ requestLog (snd (rateLimitedFetch env decode url w))
       = requestLog w ++ attemptsFrom 1 url k
    /\ requests (snd (rateLimitedFetch env decode url w))
       = (requests w + k)%nat.
Proof.
  rewrite rateLimitedFetch_eq.
  set (w0 := stamp (limiterWait env w)).
  assert (Hu0 : logOf (trace w0) = logOf (trace w))
    by (unfold w0; cbn [stamp setLastRequestTime snd trace];
        apply limiterWait_log).
  assert (Hr0 : requests w0 = requests w)
    by (unfold w0; cbn [stamp setLastRequestTime snd requests];
        apply limiterWait_requests).
  change (S (N.to_nat maxRetries)) with 4%nat.
  rewrite (retryLoop_step env decode 3 1 url w0)
    by (unfold maxRetries; lia).
  destruct (responseResult decode url (outcome env (requests w0) url)).
  - change ((1 =? maxRetries)%N) with false. cbv iota.
    destruct (retryLoop_log 3 (1 + 1)%N url
                (snd (setTimeout env (Z.of_N (1 * 1000))
                        (snd (fetch env 1 url w0)))))
      as (k & Hk & Hu & Hr).
    exists (S k). split; [lia|]. split.
    + unfold requestLog. rewrite Hu.
      cbn [snd setTimeout fetch trace logOf]. rewrite Hu0.
      rewrite rev_app_distr, rev_involutive. cbn [rev attemptsFrom].
      rewrite <- app_assoc. reflexivity.
    + rewrite Hr. cbn [snd setTimeout fetch requests]. lia.
  - exists 1%nat. split; [lia|].
    unfold requestLog. cbn [snd fetch trace logOf requests attemptsFrom rev].
    rewrite Hu0, Hr0. split; [reflexivity | lia].
Qed.

(** When every answer to the URL makes the same error, the call fails with
    that error. *)
Lemma rateLimitedFetch_error (url : jsstring) (e : Error) (w : World) :
  (forall k, responseResult decode url (outcome env k url) = inl e) ->
  fst (rateLimitedFetch env decode url w) = inl e.
Proof.
  intros R. rewrite rateLimitedFetch_eq.
  change (S (N.to_nat maxRetries)) with 4%nat.
  rewrite retryLoop_step, R by (unfold maxRetries; lia).
  change ((1 =? maxRetries)%N) with false. cbv iota.
  rewrite retryLoop_step, R by (unfold maxRetries; lia).
  change ((1 + 1 =? maxRetries)%N) with false. cbv iota.
  rewrite retryLoop_step, R by (unfold maxRetries; lia).
  reflexivity.
Qed.

End Transport.

End TransportFacts.

(** ** The content stages *)

Module PipelineFacts.
Import Js JsFacts Fetcher FetcherDefs FetcherFacts Parser Ingest Pipeline.
Import PipelineDefs ProvisionDefs ProvisionFacts TransportFacts.
Import IndexDefs IndexFacts EntryDefs EntryFacts ArticleDefs.

Lemma seedOf_more (language : Lang) (tag : jsstring)
  (seen : list LawIndexEntry) (entry : LawIndexEntry)
  (file : jsstring * SeedDocument) :
  seedOf language tag seen file -> seedOf language tag (seen ++ [entry]) file.
Proof.
  unfold seedOf. intros (H1 & H2 & H3 & e & He & Hrest).
  split; [exact H1|]. split; [exact H2|]. split; [exact H3|].
  exists e. split; [apply in_or_app; left; exact He | exact Hrest].
Qed.

Section Stages.

Variable env : Env.
Variable decode : list N -> jsstring.
Variable toLowerCase : jsstring -> jsstring.
Variable jsdom : jsstring -> node.
Variable innerHTML : node -> jsstring.

Lemma parseLawContent_ok (html numac : jsstring) :
  Forall provisionOk
    (provisions (parseLawContent toLowerCase jsdom innerHTML html numac)).
Proof.
  unfold parseLawContent.
  destruct (elementsWhere (hasId (lit "list-title-3")) (jsdom html));
    cbn [provisions]; [constructor | apply parseArticles_ok_all].
Qed.

Lemma seed_provisions_ok (ps : list ParsedProvision) :
  Forall provisionOk ps ->
  (length ps =? 0) = false ->
  map seedProvision ps <> []
  /\ Forall (fun sp => sp_content sp <> []) (map seedProvision ps).
Proof.
  intros Hok Hlen. split.
  - destruct ps; [discriminate Hlen | discriminate].
  - apply Forall_forall. intros sp Hsp.
    apply in_map_iff in Hsp. destruct Hsp as (p & <- & Hp).
    rewrite Forall_forall in Hok. apply (Hok p Hp).
Qed.

Lemma frenchEntry_inv (seen : list LawIndexEntry) (entry : LawIndexEntry)
  (t : FrenchTally) (w : World) :
  frenchInv seen t ->
  frenchInv (seen ++ [entry])
    (fst (frenchEntry env decode toLowerCase jsdom innerHTML entry t w)).
Proof.
  intros (Hc & Hw & Hs). unfold frenchEntry, bind.
  destruct (fetchLawContent env decode (year entry) (month entry)
              (day entry) (numac entry) Fr w) as [[error|html] w1];
    cbn [ret fst].
  - unfold frenchInv. cbn [fr_processed fr_failed fr_written].
    rewrite length_app. cbn [length]. split; [lia|]. split; [exact Hw|].
    eapply Forall_impl; [|exact Hs]. apply seedOf_more.
  - pose proof (parseLawContent_ok html (numac entry)) as Hok.
    destruct (length (provisions
                        (parseLawContent toLowerCase jsdom innerHTML html
                           (numac entry))) =? 0) eqn:E.
    + unfold frenchInv. rewrite length_app. cbn [length].
      split; [lia|]. split; [exact Hw|].
      eapply Forall_impl; [|exact Hs]. apply seedOf_more.
    + unfold frenchInv. cbn [fr_processed fr_failed fr_written].
      rewrite length_app. cbn [length]. split; [lia|]. split; [lia|].
      constructor.
      * destruct (seed_provisions_ok _ Hok E) as [Hne Hcont].
        unfold seedOf. cbn [snd fst doc_provisions Ingest.language url
                            issued_date doc_numac id].
        split; [exact Hne|]. split; [exact Hcont|].
        split; [reflexivity|]. exists entry.
        split; [apply in_or_app; right; left; reflexivity|].
        repeat split.
      * eapply Forall_impl; [|exact Hs]. apply seedOf_more.
Qed.

Lemma frenchLoop_inv (entries seen : list LawIndexEntry) (t : FrenchTally)
  (w : World) :
  frenchInv seen t ->
  frenchInv (seen ++ entries)
    (fst (frenchLoop env decode toLowerCase jsdom innerHTML entries t w)).
Proof.
  revert seen t w. induction entries as [|entry rest IH]; intros seen t w I.
  - rewrite app_nil_r. exact I.
  - cbn [frenchLoop]. unfold bind.
    pose proof (frenchEntry_inv seen entry t w I) as I1.
    destruct (frenchEntry env decode toLowerCase jsdom innerHTML entry t w)
      as [t1 w1].
    cbn [fst] in I1.
    replace (seen ++ entry :: rest) with ((seen ++ [entry]) ++ rest)
      by (rewrite <- app_assoc; reflexivity).
    apply IH. exact I1.
Qed.

Lemma dutchEntry_inv (seen : list LawIndexEntry) (entry : LawIndexEntry)
  (t : Tally) (w : World) :
  dutchInv seen t ->
  dutchInv (seen ++ [entry])
    (fst (dutchEntry env decode toLowerCase jsdom innerHTML entry t w)).
Proof.
  intros (Hc & Hn & Hk & Hw & Hs). unfold dutchEntry, bind.
  assert (Hs' : forall files,
             Forall (seedOf Nl (lit "nl") seen) files ->
             Forall (seedOf Nl (lit "nl") (seen ++ [entry])) files).
  { intros files Hf. eapply Forall_impl; [|exact Hf]. apply seedOf_more. }
  destruct (fetchLawContent env decode (year entry) (month entry)
              (day entry) (numac entry) Nl w) as [[error|html] w1];
    cbn [ret fst].
  - destruct (includes (lit "404") (String_of_error error));
      unfold dutchInv; cbn [processed failed skipped written];
      rewrite length_app; cbn [length]; repeat split; auto; lia.
  - pose proof (parseLawContent_ok html (numac entry)) as Hok.
    destruct (length (provisions
                        (parseLawContent toLowerCase jsdom innerHTML html
                           (numac entry))) =? 0) eqn:E.
    + unfold dutchInv. cbn [processed failed skipped written].
      rewrite length_app. cbn [length]. repeat split; auto; lia.
    + unfold dutchInv. cbn [processed failed skipped written].
      rewrite length_app. cbn [length].
      split; [lia|]. split; [lia|]. split; [lia|]. split; [lia|].
      constructor; [|apply Hs', Hs].
      destruct (seed_provisions_ok _ Hok E) as [Hne Hcont].
      unfold seedOf. cbn [snd fst doc_provisions Ingest.language url
                          issued_date doc_numac id].
      split; [exact Hne|]. split; [exact Hcont|].
      split; [reflexivity|]. exists entry.
      split; [apply in_or_app; right; left; reflexivity|].
      repeat split.
Qed.

Lemma dutchLoop_inv (entries seen : list LawIndexEntry) (t : Tally)
  (w : World) :
  dutchInv seen t ->
  dutchInv (seen ++ entries)
    (fst (dutchLoop env decode toLowerCase jsdom innerHTML entries t w)).
Proof.
  revert seen t w. induction entries as [|entry rest IH]; intros seen t w I.
  - rewrite app_nil_r. exact I.
  - cbn [dutchLoop]. unfold bind.
    pose proof (dutchEntry_inv seen entry t w I) as I1.
    destruct (dutchEntry env decode toLowerCase jsdom innerHTML entry t w)
      as [t1 w1].
    cbn [fst] in I1.
    replace (seen ++ entry :: rest) with ((seen ++ [entry]) ++ rest)
      by (rewrite <- app_assoc; reflexivity).
    apply IH. exact I1.
Qed.

Lemma CallLog_app (us vs : list jsstring) (lu lv : list (N * jsstring)) :
  CallLog us lu -> CallLog vs lv -> CallLog (us ++ vs) (lu ++ lv).
Proof.
  intros Hu Hv. induction Hu as [|url urls k rest Hk Hrest IH].
  - exact Hv.
  - cbn [app]. rewrite <- app_assoc.
    apply CallLog_cons; [exact Hk | exact IH].
Qed.

Lemma Fetched_refl (w : World) : Fetched [] w w.
Proof.
  exists []. split; [apply CallLog_nil|].
  rewrite app_nil_r. cbn [length]. split; [reflexivity | lia].
Qed.

Lemma Fetched_call (url : jsstring) (w : World) :
  Fetched [url] w (snd (rateLimitedFetch env decode url w)).
Proof.
  destruct (rateLimitedFetch_log env decode url w) as (k & Hk & Hu & Hr).
  exists (attemptsFrom 1 url k ++ []). split.
  - apply CallLog_cons; [exact Hk | apply CallLog_nil].
  - rewrite app_nil_r, length_attemptsFrom. split; assumption.
Qed.

Lemma Fetched_trans (us vs : list jsstring) (w w1 w2 : World) :
  Fetched us w w1 -> Fetched vs w1 w2 -> Fetched (us ++ vs) w w2.
Proof.
  intros (l1 & C1 & R1 & N1) (l2 & C2 & R2 & N2).
  exists (l1 ++ l2). split; [apply CallLog_app; assumption|].
  rewrite length_app. split.
  - rewrite R2, R1, app_assoc. reflexivity.
  - lia.
Qed.

Lemma frenchEntry_world (entry : LawIndexEntry) (t : FrenchTally)
  (w : World) :
  snd (frenchEntry env decode toLowerCase jsdom innerHTML entry t w)
  = snd (rateLimitedFetch env decode (contentUrl Fr entry) w).
Proof.
  unfold frenchEntry, bind, fetchLawContent, contentUrl, buildJustelUrl.
  destruct (rateLimitedFetch env decode _ w) as [r w1]. reflexivity.
Qed.

Lemma dutchEntry_world (entry : LawIndexEntry) (t : Tally) (w : World) :
  snd (dutchEntry env decode toLowerCase jsdom innerHTML entry t w)
  = snd (rateLimitedFetch env decode (contentUrl Nl entry) w).
Proof.
  unfold dutchEntry, bind, fetchLawContent, contentUrl, buildJustelUrl.
  destruct (rateLimitedFetch env decode _ w) as [r w1]. reflexivity.
Qed.

Lemma frenchLoop_fetched (entries : list LawIndexEntry) (t : FrenchTally)
  (w : World) :
  Fetched (map (contentUrl Fr) entries) w
    (snd (frenchLoop env decode toLowerCase jsdom innerHTML entries t w)).
Proof.
  revert t w. induction entries as [|entry rest IH]; intros t w.
  - apply Fetched_refl.
  - cbn [frenchLoop map]. unfold bind.
    pose proof (frenchEntry_world entry t w) as Hw.
    destruct (frenchEntry env decode toLowerCase jsdom innerHTML entry t w)
      as [t1 w1].
    cbn [snd] in Hw. subst w1.
    apply (Fetched_trans [contentUrl Fr entry] _ w _ _
             (Fetched_call _ w) (IH t1 _)).
Qed.

Lemma dutchLoop_fetched (entries : list LawIndexEntry) (t : Tally)
  (w : World) :
  Fetched (map (contentUrl Nl) entries) w
    (snd (dutchLoop env decode toLowerCase jsdom innerHTML entries t w)).
Proof.
  revert t w. induction entries as [|entry rest IH]; intros t w.
  - apply Fetched_refl.
  - cbn [dutchLoop map]. unfold bind.
    pose proof (dutchEntry_world entry t w) as Hw.
    destruct (dutchEntry env decode toLowerCase jsdom innerHTML entry t w)
      as [t1 w1].
    cbn [snd] in Hw. subst w1.
    apply (Fetched_trans [contentUrl Nl entry] _ w _ _
             (Fetched_call _ w) (IH t1 _)).
Qed.

Lemma discoveryLoop_fetched (years : list N)
  (allEntries : list LawIndexEntry) (w : World) :
  Fetched (map yearIndexUrl years) w
    (snd (discoveryLoop env decode jsdom years allEntries w)).
Proof.
  revert allEntries w. induction years as [|y rest IH]; intros allEntries w.
  - apply Fetched_refl.
  - cbn [discoveryLoop map]. unfold bind, fetchYearIndex.
    pose proof (Fetched_call (yearIndexUrl y) w) as Hc.
    unfold yearIndexUrl in Hc. cbn [pathSegment].
    change (lit "/eli/" ++ lit "loi" ++ lit "/" ++ toString10 y)
      with (lit "/eli/loi/" ++ toString10 y).
    destruct (rateLimitedFetch env decode
                (BASE_URL ++ lit "/eli/loi/" ++ toString10 y) w)
      as [[error|html] w1]; cbn [snd] in Hc.
    + apply (Fetched_trans [yearIndexUrl y] _ w _ _ Hc (IH _ _)).
    + apply (Fetched_trans [yearIndexUrl y] _ w _ _ Hc (IH _ _)).
Qed.

Lemma discoveryLoop_Forall (P : LawIndexEntry -> Prop) :
  (forall document, Forall P (parseYearIndex document Fr)) ->
  forall (years : list N) (allEntries : list LawIndexEntry) (w : World),
    Forall P allEntries ->
    Forall P (fst (discoveryLoop env decode jsdom years allEntries w)).
Proof.
  intros HP years. induction years as [|y rest IH]; intros allEntries w Hall.
  - exact Hall.
  - cbn [discoveryLoop]. unfold bind.
    destruct (fetchYearIndex env decode y Fr w) as [[error|html] w1].
    + apply IH, Hall.
    + apply IH. apply Forall_app. split; [exact Hall | apply HP].
Qed.

Lemma runDiscovery_Forall (P : LawIndexEntry -> Prop)
  (options : CliOptions) (w : World) :
  (forall document, Forall P (parseYearIndex document Fr)) ->
  Forall P (fst (runDiscovery env decode jsdom options w)).
Proof.
  intros HP. unfold runDiscovery, bind.
  pose proof (discoveryLoop_Forall P HP (yearsOf options) [] w
                (Forall_nil P)) as H.
  destruct (discoveryLoop env decode jsdom (yearsOf options) [] w)
    as [allEntries w1].
  cbn [fst ret] in *. unfold limited.
  destruct (limit options) as [l|]; [|exact H].
  destruct (0 <? l)%Z; [|exact H].
  rewrite <- (firstn_skipn (Z.to_nat l) allEntries) in H.
  apply Forall_app in H. apply H.
Qed.

Lemma runDiscovery_limited (options : CliOptions) (w : World) :
  match limit options with
  | Some l =>
      if (0 <? l)%Z
      then length (fst (runDiscovery env decode jsdom options w))
           <= Z.to_nat l
      else True
  | None => True
  end.
Proof.
  unfold runDiscovery, bind.
  destruct (discoveryLoop env decode jsdom (yearsOf options) [] w)
    as [allEntries w1].
  cbn [fst ret]. unfold limited.
  destruct (limit options) as [l|]; [|exact I].
  destruct (0 <? l)%Z; [|exact I].
  apply firstn_le_length.
Qed.

Lemma runDiscovery_world (options : CliOptions) (w : World) :
  snd (runDiscovery env decode jsdom options w)
  = snd (discoveryLoop env decode jsdom (yearsOf options) [] w).
Proof.
  unfold runDiscovery, bind.
  destruct (discoveryLoop env decode jsdom (yearsOf options) [] w).
  reflexivity.
Qed.

Lemma indexOf_split (p s : jsstring) (k : nat) :
  indexOf p s = Some k -> exists a b, s = a ++ p ++ b.
Proof.
  revert k. induction s as [|c r IH]; intros k; rewrite indexOf_unfold.
  - destruct (startsWith p []) eqn:E; [|discriminate].
    intros _. destruct (startsWith_spec _ _ E) as (b & Hb).
    exists [], b. exact Hb.
  - destruct (startsWith p (c :: r)) eqn:E.
    + intros _. destruct (startsWith_spec _ _ E) as (b & Hb).
      exists [], b. exact Hb.
    + destruct (indexOf p r) as [j|] eqn:Ej; [|discriminate].
      intros _. destruct (IH j eq_refl) as (a & b & ->).
      exists (c :: a), b. reflexivity.
Qed.

Lemma includes_within (p x s y : jsstring) :
  includes p s = true -> includes p (x ++ s ++ y) = true.
Proof.
  unfold includes at 1. destruct (indexOf p s) as [k|] eqn:E;
    [|discriminate].
  intros _. destruct (indexOf_split _ _ _ E) as (a & b & ->).
  replace (x ++ (a ++ p ++ b) ++ y) with ((x ++ a) ++ p ++ (b ++ y))
    by (rewrite <- !app_assoc; reflexivity).
  apply includes_app.
Qed.

(** The text of the error of a status that is not a success holds what the
    URL holds. *)
Lemma statusError_text (status : N) (url : jsstring) :
  includes (lit "404") url = true ->
  includes (lit "404")
    (String_of_error
       (newError (lit "HTTP " ++ toString10 status ++ lit " for " ++ url)))
  = true.
Proof.
  intros H.
  change (String_of_error
            (newError (lit "HTTP " ++ toString10 status ++ lit " for " ++ url)))
    with (lit "Error: HTTP " ++ toString10 status ++ lit " for " ++ url).
  replace (lit "Error: HTTP " ++ toString10 status ++ lit " for " ++ url)
    with ((lit "Error: HTTP " ++ toString10 status ++ lit " for ")
            ++ url ++ [])
    by (rewrite app_nil_r, <- !app_assoc; reflexivity).
  apply includes_within. exact H.
Qed.

Lemma dutchEntry_statusError (status : N) (entry : LawIndexEntry)
  (t : Tally) (w : World) :
  ok status = false ->
  (forall k u, exists body, outcome env k u = Responds status body) ->
  includes (lit "404") (contentUrl Nl entry) = true ->
  let t' := fst (dutchEntry env decode toLowerCase jsdom innerHTML
                   entry t w) in
  processed t' = processed t
  /\ failed t' = failed t + 1
  /\ skipped t' = skipped t + 1.
Proof.
  intros Hok Hout H404. cbv zeta.
  assert (R : forall k,
    responseResult decode (contentUrl Nl entry)
      (outcome env k (contentUrl Nl entry))
    = inl (newError (lit "HTTP " ++ toString10 status ++ lit " for "
                       ++ contentUrl Nl entry))).
  { intros k. destruct (Hout k (contentUrl Nl entry)) as (body & ->).
    unfold responseResult. rewrite Hok. reflexivity. }
  pose proof (rateLimitedFetch_error env decode _ _ w R) as Hr.
  pose proof (statusError_text status _ H404) as Hm.
  unfold dutchEntry, bind, fetchLawContent.
  change (BASE_URL ++ lit "/eli/" ++ pathSegment Nl ++ lit "/"
            ++ toString10 (year entry) ++ lit "/" ++ month entry ++ lit "/"
            ++ day entry ++ lit "/" ++ numac entry ++ lit "/justel")
    with (contentUrl Nl entry).
  destruct (rateLimitedFetch env decode (contentUrl Nl entry) w) as [r w1].
  cbn [fst] in Hr. subst r. cbn [ret fst]. rewrite Hm. cbn. auto.
Qed.

Lemma dutchLoop_statusError (status : N) (entries : list LawIndexEntry)
  (t : Tally) (w : World) :
  ok status = false ->
  (forall k u, exists body, outcome env k u = Responds status body) ->
  Forall (fun e => includes (lit "404") (contentUrl Nl e) = true) entries ->
  let t' := fst (dutchLoop env decode toLowerCase jsdom innerHTML
                   entries t w) in
  processed t' = processed t
  /\ failed t' = failed t + length entries
  /\ skipped t' = skipped t + length entries.
Proof.
  intros Hok Hout Hall. revert t w.
  induction Hall as [|entry rest H404 _ IH]; intros t w.
  - cbn. auto.
  - cbn [dutchLoop]. unfold bind.
    pose proof (dutchEntry_statusError status entry t w Hok Hout H404) as H.
    cbv zeta in H.
    destruct (dutchEntry env decode toLowerCase jsdom innerHTML entry t w)
      as [t1 w1].
    cbn [fst] in H. destruct H as (Hp & Hf & Hs).
    specialize (IH t1 w1). cbv zeta in IH. destruct IH as (Hp' & Hf' & Hs').
    cbv zeta. rewrite Hp', Hf', Hs', Hp, Hf, Hs. cbn [length]. lia.
Qed.

End Stages.



(** X16: each content stage calls the transport once per entry, in the
    order of the entries, for the content URL that [buildJustelUrl] gives
    for the entry in the language of the stage: the requests the stage adds
    to the log are, entry after entry, the attempts 1 to k of the call for
    that entry, all to its content URL, with k between one and three for
    each entry; nothing else is sent. *)
Theorem content_stages_fetch_each_entry_once :
  forall (env : Env) (decode : list N -> jsstring)
         (toLowerCase : jsstring -> jsstring) (jsdom : jsstring -> node)
         (innerHTML : node -> jsstring) (entries : list LawIndexEntry)
         (w : World),
    Fetched (map (contentUrl Fr) entries) w
      (snd (runFrenchContent env decode toLowerCase jsdom innerHTML
              entries w))
    /\ Fetched (map (contentUrl Nl) entries) w
         (snd (runDutchContent env decode toLowerCase jsdom innerHTML
                 entries w)).
Proof.
  intros env decode toLowerCase jsdom innerHTML entries w. split.
  - apply frenchLoop_fetched.
  - apply dutchLoop_fetched.
Qed.

(** X17: when the last year of the options is a safe integer, discovery
    calls the transport once for the French index of each year from the
    first to the last of the options, in ascending order, whatever the
    earlier years answered: the requests it adds to the log are, year after
    year, the attempts 1 to k of the call for that year, all to the index
    URL of the year, with k between one and three for each year; nothing
    else is sent. *)
Theorem discovery_fetches_each_year_once :
  forall (env : Env) (decode : list N -> jsstring)
         (jsdom : jsstring -> node) (options : CliOptions) (w : World),
    safeYears options ->
    Fetched (map yearIndexUrl (yearsOf options)) w
      (snd (runDiscovery env decode jsdom options w)).
Proof.
  intros env decode jsdom options w _. rewrite runDiscovery_world.
  apply discoveryLoop_fetched.
Qed.

Lemma discovery_fetches_each_year_once_witness :
  safeYears sampleYears
  /\ yearsOf sampleYears = [2020%N; 2021%N]
  /\ Fetched (map yearIndexUrl (yearsOf sampleYears)) (initialWorld 0)
       (snd (runDiscovery serverError latin1 textSectionOnly sampleYears
               (initialWorld 0))).
Proof.
  assert (H : safeYears sampleYears) by (vm_compute; reflexivity).
  split; [exact H|]. split; [reflexivity|].
  exact (discovery_fetches_each_year_once serverError latin1
           textSectionOnly sampleYears (initialWorld 0) H).
Defined.

(** X18: every entry that discovery returns and saves has the link fields
    and the text fields of an index entry in good shape, and no title with
    a German-translation marker; and with a limit above zero it returns at
    most that many entries. *)
Theorem discovery_entries_well_formed :
  forall (env : Env) (decode : list N -> jsstring)
         (jsdom : jsstring -> node) (options : CliOptions) (w : World),
    let found := fst (runDiscovery env decode jsdom options w) in
    Forall linkFieldsOk found
    /\ Forall textFieldsOk found
    /\ Forall (fun e => isGermanTranslation (title e) = false) found
    /\ match limit options with
       | Some l => if (0 <? l)%Z then length found <= Z.to_nat l else True
       | None => True
       end.
Proof.
  intros env decode jsdom options w found. subst found.
  split; [|split; [|split]].
  - apply runDiscovery_Forall. intros document.
    apply index_entry_link_fields_aux.
  - apply runDiscovery_Forall. intros document.
    apply index_entry_text_fields_aux.
  - apply runDiscovery_Forall. intros document.
    apply Forall_forall. intros e He. rewrite parseYearIndex_pushed in He.
    apply (pushed_titles _ _ _ _ He).
  - apply runDiscovery_limited.
Qed.

(** X19: the Dutch stage classifies a failure by looking for 404 in the
    text of the error, and the text of an HTTP error holds the URL: when
    every request is answered with one status that is not a success,
    whichever it is, every entry whose content URL holds the digits 404
    is added to the skipped count as well as to the failed count. *)
Theorem dutch_failure_with_404_in_url_is_skipped :
  forall (env : Env) (decode : list N -> jsstring)
         (toLowerCase : jsstring -> jsstring) (jsdom : jsstring -> node)
         (innerHTML : node -> jsstring) (status : N)
         (entries : list LawIndexEntry) (w : World),
    ok status = false ->
    (forall k u, exists body, outcome env k u = Responds status body) ->
    Forall (fun e => includes (lit "404") (contentUrl Nl e) = true)
      entries ->
    let t := fst (runDutchContent env decode toLowerCase jsdom innerHTML
                    entries w) in
    processed t = 0
    /\ failed t = length entries
    /\ skipped t = length entries.
Proof.
  intros env decode toLowerCase jsdom innerHTML status entries w
    Hok Hout Hall.
  unfold runDutchContent.
  apply (dutchLoop_statusError env decode toLowerCase jsdom innerHTML
           status entries
           {| processed := 0; failed := 0; skipped := 0; written := [] |}
           w Hok Hout Hall).
Qed.

Lemma dutch_failure_with_404_in_url_is_skipped_witness :
  ok 500 = false
  /\ includes (lit "404") (contentUrl Nl entry2004) = true
  /\ skipped
       (fst (runDutchContent serverError latin1 (fun s => s)
               (fun _ => TextNode []) (fun _ => [])
               [entry2004] (initialWorld 0)))
     = 1.
Proof.
  split; [reflexivity|]. split; [reflexivity|].
  apply (dutch_failure_with_404_in_url_is_skipped serverError latin1
           (fun s => s) (fun _ => TextNode []) (fun _ => []) 500
           [entry2004] (initialWorld 0)).
  - reflexivity.
  - intros k u. exists (BodyBytes []). reflexivity.
  - constructor; [reflexivity | constructor].
Defined.

Lemma seedOf_url (language : Lang) (tag : jsstring)
  (entries : list LawIndexEntry) (file : jsstring * SeedDocument) :
  Forall linkFieldsOk entries ->
  Forall (fun e => (1000 <= year e)%N) entries ->
  seedOf language tag entries file -> seedUrlOk (snd file).
Proof.
  intros Hok Hyear (_ & _ & _ & entry & Hin & Hurl & Hdate & Hnumac & _).
  rewrite Forall_forall in Hok, Hyear.
  destruct (Hok entry Hin) as (Hm & Hd & Hn & Dn & Hy & Hdt & _).
  specialize (Hyear entry Hin). cbv beta in Hyear.
  destruct (toString10_four (year entry) (conj Hyear Hy)) as [Ly Dy].
  exists (toString10 (year entry)), (month entry), (day entry).
  rewrite Hurl, Hdate, Hnumac. split; [|exact Hdt].
  unfold contentUrl, buildJustelUrl. rewrite urlMatch_base.
  apply urlMatch_hit. rewrite <- (app_nil_r (lit "/justel")).
  apply urlPatternAt_canonical; auto; try apply Hm; try apply Hd.
Qed.

(** X26: when the entries have their link fields in good shape and years
    of four digits, as the entries of an index have, the URL recorded in
    every seed file of the French and of the Dutch stage is decomposed by
    the pattern of the index into the identifier recorded in the seed and
    the year, month and day of its date. *)
Theorem seed_url_identifies_the_law :
  forall (env : Env) (decode : list N -> jsstring)
         (toLowerCase : jsstring -> jsstring) (jsdom : jsstring -> node)
         (innerHTML : node -> jsstring) (entries : list LawIndexEntry)
         (w : World),
    Forall linkFieldsOk entries ->
    Forall (fun e => (1000 <= year e)%N) entries ->
    Forall (fun file => seedUrlOk (snd file))
      (fr_written
         (fst (runFrenchContent env decode toLowerCase jsdom innerHTML
                 entries w)))
    /\ Forall (fun file => seedUrlOk (snd file))
         (written
            (fst (runDutchContent env decode toLowerCase jsdom innerHTML
                    entries w))).
Proof.
  intros env decode toLowerCase jsdom innerHTML entries w Hok Hyear. split.
  - pose proof (frenchLoop_inv env decode toLowerCase jsdom innerHTML
                  entries [] {| fr_processed := 0; fr_failed := 0;
                                fr_written := [] |} w) as I.
    destruct I as (_ & _ & Hs); [unfold frenchInv; cbn; auto|].
    eapply Forall_impl; [|exact Hs]. intros file.
    apply (seedOf_url Fr (lit "fr") entries file Hok Hyear).
  - pose proof (dutchLoop_inv env decode toLowerCase jsdom innerHTML
                  entries [] {| processed := 0; failed := 0; skipped := 0;
                                written := [] |} w) as I.
    destruct I as (_ & _ & _ & _ & Hs); [unfold dutchInv; cbn; auto|].
    eapply Forall_impl; [|exact Hs]. intros file.
    apply (seedOf_url Nl (lit "nl") entries file Hok Hyear).
Qed.

Lemma seed_url_identifies_the_law_witness :
  Forall linkFieldsOk [sampleEntry]
  /\ Forall (fun e => (1000 <= year e)%N) [sampleEntry]
  /\ length
       (fr_written
          (fst (runFrenchContent articlePage latin1 toLowerCase_ascii
                  textSectionOnly textContent [sampleEntry]
                  (initialWorld 0)))) = 1
  /\ Forall (fun file => seedUrlOk (snd file))
       (fr_written
          (fst (runFrenchContent articlePage latin1 toLowerCase_ascii
                  textSectionOnly textContent [sampleEntry]
                  (initialWorld 0)))).
Proof.
  assert (H1 : Forall linkFieldsOk [sampleEntry]).
  { constructor; [|constructor]. unfold linkFieldsOk, digitString.
    repeat split; try reflexivity; try discriminate. }
  assert (H2 : Forall (fun e => (1000 <= year e)%N) [sampleEntry]).
  { constructor; [|constructor]. vm_compute. discriminate. }
  split; [exact H1|]. split; [exact H2|]. split; [vm_compute; reflexivity|].
  exact (proj1 (seed_url_identifies_the_law articlePage latin1
                  toLowerCase_ascii textSectionOnly textContent
                  [sampleEntry] (initialWorld 0) H1 H2)).
Defined.

End PipelineFacts.

(** ** The search tools *)

Module ToolsFacts.
Import Js JsFacts Tools ToolsDefs.

Lemma Qle_bool_false (p q : QArith_base.Q) :
  QArith_base.Qle_bool p q = false -> QArith_base.Qle q p.
Proof.
  intros H. apply QArith_base.Qlt_le_weak. apply QArith_base.Qnot_le_lt.
  intros Hle. apply QArith_base.Qle_bool_iff in Hle. congruence.
Qed.

Lemma inject_Z_le (a b : Z) :
  (a <= b)%Z ->
  QArith_base.Qle (QArith_base.inject_Z a) (QArith_base.inject_Z b).
Proof. intros H. rewrite <- QArith_base.Zle_Qle. exact H. Qed.

Lemma clampLimit_ok (d m : Z) (limit : option number) :
  (1 <= d <= m)%Z -> limitOk d m limit (clampLimit limit (ofZ d) (ofZ m)).
Proof.
  intros [Hd Hm]. unfold limitOk, clampLimit, ofZ.
  pose proof (inject_Z_le 1 d Hd) as Q1.
  pose proof (inject_Z_le d m Hm) as Q2.
  pose proof (inject_Z_le 1 m ltac:(lia)) as Q3.
  destruct limit as [[|[|]|q]|]; cbn [Math_max Math_min].
  - reflexivity.
  - destruct (QArith_base.Qle_bool (QArith_base.inject_Z 1)
                (QArith_base.inject_Z m)) eqn:E.
    + split; [apply QArith_base.Qle_refl | exact Q3].
    + apply QArith_base.Qle_bool_iff in Q3. congruence.
  - split; [exact Q3 | apply QArith_base.Qle_refl].
  - destruct (QArith_base.Qle_bool q (QArith_base.inject_Z 1)) eqn:E1;
      cbn [Math_min].
    + destruct (QArith_base.Qle_bool (QArith_base.inject_Z 1)
                  (QArith_base.inject_Z m)) eqn:E.
      * split; [apply QArith_base.Qle_refl | exact Q3].
      * apply QArith_base.Qle_bool_iff in Q3. congruence.
    + apply Qle_bool_false in E1.
      destruct (QArith_base.Qle_bool q (QArith_base.inject_Z m)) eqn:E2.
      * apply QArith_base.Qle_bool_iff in E2. split; assumption.
      * split; [exact Q3 | apply QArith_base.Qle_refl].
  - destruct (QArith_base.Qle_bool (QArith_base.inject_Z d)
                (QArith_base.inject_Z 1)) eqn:E1; cbn [Math_min].
    + assert (d = 1%Z).
      { apply QArith_base.Qle_bool_iff in E1.
        rewrite <- QArith_base.Zle_Qle in E1. lia. }
      subst d.
      apply QArith_base.Qle_bool_iff in Q3. rewrite Q3. reflexivity.
    + apply QArith_base.Qle_bool_iff in Q2. rewrite Q2. reflexivity.
Qed.

(** X20: the limit a tool passes to its statements is the default (10, or
    5 for the stance builder) when no limit is given, and otherwise a
    finite value between 1 and the maximum (50, or 20 for the stance
    builder), whatever number is given; only a limit that is not a number
    stays not a number. *)
Theorem limit_is_clamped :
  forall limit : option number,
    limitOk 10 50 limit
      (clampLimit limit GetDefinitions.DEFAULT_LIMIT
         GetDefinitions.MAX_LIMIT)
    /\ limitOk 10 50 limit
         (clampLimit limit SearchCaseLaw.DEFAULT_LIMIT
            SearchCaseLaw.MAX_LIMIT)
    /\ limitOk 10 50 limit
         (clampLimit limit SearchLegislation.DEFAULT_LIMIT
            SearchLegislation.MAX_LIMIT)
    /\ limitOk 5 20 limit
         (clampLimit limit BuildLegalStance.DEFAULT_LIMIT
            BuildLegalStance.MAX_LIMIT).
Proof.
  intros limit. repeat split.
  - apply (clampLimit_ok 10 50). lia.
  - apply (clampLimit_ok 10 50). lia.
  - apply (clampLimit_ok 10 50). lia.
  - apply (clampLimit_ok 5 20). lia.
Qed.

Lemma placeholders_app (a b : jsstring) :
  placeholders (a ++ b) = placeholders a + placeholders b.
Proof. unfold placeholders. rewrite filter_app, length_app. reflexivity. Qed.

Lemma bound_andWhere (value : option jsstring) (clause : jsstring)
  (st : Statement) :
  placeholders clause = 1 -> bound st -> bound (andWhere value clause st).
Proof.
  unfold bound, andWhere. intros Hc Hst.
  destruct value as [v|]; [|exact Hst].
  destruct (truthy v); [|exact Hst].
  cbn [fst snd]. rewrite placeholders_app, length_app, Hc, Hst. reflexivity.
Qed.

Lemma bound_withLimit (clause : jsstring) (limit : number) (st : Statement) :
  placeholders clause = 1 -> bound st -> bound (withLimit clause limit st).
Proof.
  unfold bound, withLimit. intros Hc Hst.
  cbn [fst snd]. rewrite placeholders_app, length_app, Hc, Hst. reflexivity.
Qed.

Lemma text_andWhere (value : option jsstring) (clause : jsstring)
  (st : Statement) :
  fst (andWhere value clause st)
  = if given value then fst st ++ clause else fst st.
Proof.
  unfold andWhere, given. destruct value as [v|]; [|reflexivity].
  destruct (truthy v); reflexivity.
Qed.

Lemma text_withLimit (clause : jsstring) (limit : number) (st : Statement) :
  fst (withLimit clause limit st) = fst st ++ clause.
Proof. reflexivity. Qed.

(** X21: both statements of the definition lookup bind one value to each
    placeholder, and their text depends on nothing but whether a document
    filter is given: neither the term nor the value of a filter or of the
    limit enters the text. *)
Theorem getDefinitions_statements_parametrized :
  forall (input : GetDefinitions.GetDefinitionsInput) (limit : number)
         (sanitized : jsstring),
    bound (GetDefinitions.ftsStatement input limit sanitized)
    /\ bound (GetDefinitions.likeStatement input limit sanitized)
    /\ forall (input' : GetDefinitions.GetDefinitionsInput)
              (limit' : number) (sanitized' : jsstring),
         given (GetDefinitions.document_id input)
         = given (GetDefinitions.document_id input') ->
         fst (GetDefinitions.ftsStatement input limit sanitized)
         = fst (GetDefinitions.ftsStatement input' limit' sanitized')
         /\ fst (GetDefinitions.likeStatement input limit sanitized)
            = fst (GetDefinitions.likeStatement input' limit' sanitized').
Proof.
  intros input limit sanitized. split; [|split].
  - unfold GetDefinitions.ftsStatement.
    apply bound_withLimit; [reflexivity|].
    apply bound_andWhere; [reflexivity|]. reflexivity.
  - unfold GetDefinitions.likeStatement.
    apply bound_withLimit; [reflexivity|].
    apply bound_andWhere; [reflexivity|]. reflexivity.
  - intros input' limit' sanitized' Hd.
    unfold GetDefinitions.ftsStatement, GetDefinitions.likeStatement.
    rewrite !text_withLimit, !text_andWhere, Hd. split; reflexivity.
Qed.

(** X22: the statement of the case-law search binds one value to each
    placeholder, and its text depends on nothing but which of the court
    and date filters are given. *)
Theorem searchCaseLaw_statement_parametrized :
  forall (input : SearchCaseLaw.SearchCaseLawInput) (limit : number)
         (ftsQuery : jsstring),
    bound (SearchCaseLaw.statement input limit ftsQuery)
    /\ forall (input' : SearchCaseLaw.SearchCaseLawInput) (limit' : number)
              (ftsQuery' : jsstring),
         given (SearchCaseLaw.court input)
         = given (SearchCaseLaw.court input') ->
         given (SearchCaseLaw.date_from input)
         = given (SearchCaseLaw.date_from input') ->
         given (SearchCaseLaw.date_to input)
         = given (SearchCaseLaw.date_to input') ->
         fst (SearchCaseLaw.statement input limit ftsQuery)
         = fst (SearchCaseLaw.statement input' limit' ftsQuery').
Proof.
  intros input limit ftsQuery. split.
  - unfold SearchCaseLaw.statement.
    apply bound_withLimit; [reflexivity|].
    repeat (apply bound_andWhere; [reflexivity|]). reflexivity.
  - intros input' limit' ftsQuery' Hc Hf Ht.
    unfold SearchCaseLaw.statement.
    rewrite !text_withLimit, !text_andWhere, Hc, Hf, Ht. reflexivity.
Qed.

(** X23: the statements of the legislation search and of the stance
    builder, on the current provisions and on their historical versions,
    bind one value to each placeholder, and their text depends on nothing
    but which of the document and status filters are given. *)
Theorem legislation_statements_parametrized :
  forall (input : SearchLegislation.SearchLegislationInput)
         (stance : BuildLegalStance.BuildLegalStanceInput)
         (limit : number) (asOfDate ftsQuery : jsstring),
    bound (SearchLegislation.currentStatement input limit ftsQuery)
    /\ bound (SearchLegislation.historicalStatement input limit asOfDate
                ftsQuery)
    /\ bound (BuildLegalStance.currentStatement stance limit ftsQuery)
    /\ bound (BuildLegalStance.historicalStatement stance limit asOfDate
                ftsQuery)
    /\ (forall (input' : SearchLegislation.SearchLegislationInput)
               (limit' : number) (asOfDate' ftsQuery' : jsstring),
          given (SearchLegislation.document_id input)
          = given (SearchLegislation.document_id input') ->
          given (SearchLegislation.status input)
          = given (SearchLegislation.status input') ->
          fst (SearchLegislation.currentStatement input limit ftsQuery)
          = fst (SearchLegislation.currentStatement input' limit' ftsQuery')
          /\ fst (SearchLegislation.historicalStatement input limit asOfDate
                    ftsQuery)
             = fst (SearchLegislation.historicalStatement input' limit'
                      asOfDate' ftsQuery'))
    /\ (forall (stance' : BuildLegalStance.BuildLegalStanceInput)
               (limit' : number) (asOfDate' ftsQuery' : jsstring),
          given (BuildLegalStance.document_id stance)
          = given (BuildLegalStance.document_id stance') ->
          fst (BuildLegalStance.currentStatement stance limit ftsQuery)
          = fst (BuildLegalStance.currentStatement stance' limit' ftsQuery')
          /\ fst (BuildLegalStance.historicalStatement stance limit asOfDate
                    ftsQuery)
             = fst (BuildLegalStance.historicalStatement stance' limit'
                      asOfDate' ftsQuery')).
Proof.
  intros input stance limit asOfDate ftsQuery.
  split; [|split; [|split; [|split; [|split]]]].
  - unfold SearchLegislation.currentStatement.
    apply bound_withLimit; [reflexivity|].
    repeat (apply bound_andWhere; [reflexivity|]). reflexivity.
  - unfold SearchLegislation.historicalStatement.
    apply bound_withLimit; [reflexivity|].
    repeat (apply bound_andWhere; [reflexivity|]). reflexivity.
  - unfold BuildLegalStance.currentStatement.
    apply bound_withLimit; [reflexivity|].
    repeat (apply bound_andWhere; [reflexivity|]). reflexivity.
  - unfold BuildLegalStance.historicalStatement.
    apply bound_withLimit; [reflexivity|].
    repeat (apply bound_andWhere; [reflexivity|]). reflexivity.
  - intros input' limit' asOfDate' ftsQuery' Hd Hs.
    unfold SearchLegislation.currentStatement,
      SearchLegislation.historicalStatement.
    rewrite !text_withLimit, !text_andWhere, Hd, Hs. split; reflexivity.
  - intros stance' limit' asOfDate' ftsQuery' Hd.
    unfold BuildLegalStance.currentStatement,
      BuildLegalStance.historicalStatement.
    rewrite !text_withLimit, !text_andWhere, Hd. split; reflexivity.
Qed.

End ToolsFacts.

(** ** Numeric character references *)

Module EntityFacts.
Import Js JsFacts Parser IndexDefs IndexFacts CleanDefs CleanFacts EntryFacts.

Lemma digits_from_digits (fuel : nat) (n : N) (acc : jsstring) :
  forallb is_digit acc = true ->
  forallb is_digit (digits_from fuel n acc) = true.
Proof.
  revert n acc. induction fuel as [|f IH]; intros n acc H; [exact H|].
  cbn [digits_from].
  assert (H' : forallb is_digit ((48 + n mod 10)%N :: acc) = true)
    by (cbn [forallb]; rewrite is_digit_mod10, H; reflexivity).
  destruct (n <? 10)%N; [exact H' | apply IH, H'].
Qed.

Lemma digits_from_nonempty (fuel : nat) (n : N) (acc : jsstring) :
  acc <> [] -> digits_from fuel n acc <> [].
Proof.
  revert n acc. induction fuel as [|f IH]; intros n acc H; [exact H|].
  cbn [digits_from]. destruct (n <? 10)%N; [discriminate|].
  apply IH. discriminate.
Qed.

Lemma toString10_digits (n : N) :
  forallb is_digit (toString10 n) = true /\ toString10 n <> [].
Proof.
  unfold toString10. split.
  - apply digits_from_digits. reflexivity.
  - cbn [digits_from]. destruct (n <? 10)%N; [discriminate|].
    apply digits_from_nonempty. discriminate.
Qed.

Lemma digit_units (ds : jsstring) (c0 : char) :
  forallb is_digit ds = true -> (c0 < 48 \/ 57 < c0)%N ->
  Forall (fun c => c <> c0) ds.
Proof.
  intros H Hc. apply Forall_forall. intros c Hin.
  rewrite forallb_forall in H. apply H, is_digit_range in Hin. lia.
Qed.

Lemma replaceAll_cons (m : matcher jsstring) (c : char) (r : jsstring) :
  replaceAll m (c :: r)
  = match m (c :: r) with
    | Some (n, rep) => rep ++ replace_from m (length r) (skipn (Nat.pred n) r)
    | None => c :: replace_from m (length r) r
    end.
Proof. reflexivity. Qed.

Lemma entityTable_letters :
  Forall (fun e => exists x p, fst e = 38%N :: x :: p /\ x <> 35%N)
    entityTable.
Proof.
  unfold entityTable.
  repeat (apply Forall_cons;
          [eexists; eexists; split; [reflexivity | discriminate]|]).
  apply Forall_nil.
Qed.

(** The named entities leave a numeric reference alone. *)
Lemma named_entities_skip (ds : jsstring) :
  forallb is_digit ds = true ->
  fold_left (fun t e => replaceAll (entityAt (fst e) (snd e)) t)
    entityTable (lit "&#" ++ ds ++ lit ";")
  = lit "&#" ++ ds ++ lit ";".
Proof.
  intros Hd. pose proof entityTable_letters as T.
  induction T as [|[name rep] table (x & p & Hname & Hx) T IH];
    cbn [fold_left]; [reflexivity|].
  cbn [fst snd] in *. subst name.
  assert (E : replaceAll (entityAt (38%N :: x :: p) rep)
                (lit "&#" ++ ds ++ lit ";")
              = lit "&#" ++ ds ++ lit ";").
  { change (lit "&#" ++ ds ++ lit ";")
      with (38%N :: 35%N :: ds ++ lit ";").
    rewrite replaceAll_cons.
    assert (Hhead : entityAt (38%N :: x :: p) rep
                      (38%N :: 35%N :: ds ++ lit ";") = None).
    { unfold entityAt, obind. cbn [expect]. rewrite ceq_refl.
      destruct (ceq x 35%N) eqn:Ex; [|reflexivity].
      apply ceq_eq in Ex. contradiction. }
    match goal with
    | |- match ?t with _ => _ end = _ =>
        replace t with (@None (nat * jsstring)) by (symmetry; exact Hhead)
    end.
    f_equal.
    apply (replace_from_absent 38%N).
    - apply (firesOnly_entityAt (x :: p) rep).
    - constructor; [discriminate|]. apply Forall_app. split.
      + apply digit_units; [exact Hd | lia].
      + change (lit ";") with [59%N].
        constructor; [discriminate | constructor]. }
  rewrite E. exact IH.
Qed.

Lemma numeric_reference_replaced (ds : jsstring) :
  forallb is_digit ds = true -> ds <> [] ->
  replaceAll numericEntityAt (lit "&#" ++ ds ++ lit ";")
  = [fromCharCode (numberOfDigits (parseDigits ds))].
Proof.
  intros Hd Hne.
  change (lit "&#" ++ ds ++ lit ";") with (38%N :: 35%N :: ds ++ lit ";").
  rewrite replaceAll_cons.
  assert (Hm : numericEntityAt (38%N :: 35%N :: ds ++ lit ";")
               = Some (S (S (length (ds ++ lit ";"))),
                       [fromCharCode (numberOfDigits (parseDigits ds))])).
  { unfold numericEntityAt, obind.
    change (expect (lit "&#") (38%N :: 35%N :: ds ++ lit ";"))
      with (Some (ds ++ lit ";")).
    cbv beta iota. unfold span1.
    destruct (takeWhile_app_stop is_digit ds (lit ";") Hd eq_refl)
      as [Ht Hdrop].
    rewrite Ht, Hdrop. destruct ds as [|d ds']; [congruence|].
    cbv beta iota.
    change (expect (lit ";") (lit ";")) with (Some (@nil char)).
    cbv beta iota. unfold consumed. cbn [length]. rewrite Nat.sub_0_r.
    reflexivity. }
  match goal with
  | |- match ?t with _ => _ end = _ =>
      replace t
        with (Some (S (S (length (ds ++ lit ";"))),
                    [fromCharCode (numberOfDigits (parseDigits ds))]))
        by (symmetry; exact Hm)
  end.
  cbn [Nat.pred].
  change (S (length (ds ++ lit ";")))
    with (length (35%N :: ds ++ lit ";")).
  rewrite skipn_all. cbn [app length replace_from]. reflexivity.
Qed.

Lemma numberOfDigits_exact (n : N) :
  (n < 2 ^ 53)%N -> numberOfDigits n = Some n.
Proof.
  intros H. unfold numberOfDigits.
  apply N.ltb_lt in H. rewrite H. reflexivity.
Qed.

Lemma is_ws_false (c : char) :
  is_ws c = false ->
  isSpaceTab c = false /\ ceq c 10%N = false.
Proof.
  intros H.
  assert (N9 : c <> 9%N) by (intros ->; discriminate H).
  assert (N10 : c <> 10%N) by (intros ->; discriminate H).
  assert (N32 : c <> 32%N) by (intros ->; discriminate H).
  unfold isSpaceTab, ceq.
  rewrite (proj2 (N.eqb_neq c 9) N9), (proj2 (N.eqb_neq c 10) N10),
    (proj2 (N.eqb_neq c 32) N32).
  auto.
Qed.

Lemma collapseWhitespace_unit (c : char) :
  is_ws c = false -> collapseWhitespace [c] = [c].
Proof.
  intros Hc. destruct (is_ws_false c Hc) as [Hst H10].
  unfold collapseWhitespace.
  assert (E1 : replaceAll spacesAt [c] = [c]).
  { rewrite replaceAll_cons, spacesAt_cons, Hst. reflexivity. }
  rewrite E1.
  assert (E2 : replaceAll blankLinesAt [c] = [c]).
  { rewrite replaceAll_cons.
    unfold blankLinesAt, obind. cbn [expect].
    assert (H10' : ceq 10%N c = false).
    { apply ceq_neq. apply ceq_neq in H10. congruence. }
    rewrite H10'. reflexivity. }
  rewrite E2. unfold trimLines. cbn [split]. rewrite H10.
  cbn [map]. rewrite (trim_fixed [c]) by exact Hc.
  reflexivity.
Qed.

(** X25: a decimal character reference alone is cleaned to the one code
    unit of its number modulo 65536, provided the number is below 2^53 and
    that code unit is no white space; a number below 65536 is thus decoded
    to itself. *)
Theorem numeric_reference_decodes :
  forall n : N,
    (n < 2 ^ 53)%N ->
    is_ws (n mod 65536)%N = false ->
    cleanArticleHtml (lit "&#" ++ toString10 n ++ lit ";")
    = [(n mod 65536)%N].
Proof.
  intros n Hn Hws. destruct (toString10_digits n) as [Hd Hne].
  rewrite cleanArticleHtml_eq.
  rewrite stripTags_absent.
  2:{ change (lit "&#" ++ toString10 n ++ lit ";")
        with (38%N :: 35%N :: toString10 n ++ lit ";").
      constructor; [discriminate|]. constructor; [discriminate|].
      apply Forall_app. split.
      - apply digit_units; [exact Hd | lia].
      - change (lit ";") with [59%N].
        constructor; [discriminate | constructor]. }
  unfold decodeEntities.
  rewrite named_entities_skip by exact Hd.
  rewrite numeric_reference_replaced by assumption.
  rewrite parseDigits_toString10, numberOfDigits_exact by exact Hn.
  cbn [fromCharCode]. apply collapseWhitespace_unit. exact Hws.
Qed.

Lemma numeric_reference_decodes_witness :
  (233 < 2 ^ 53)%N
  /\ is_ws (233 mod 65536)%N = false
  /\ cleanArticleHtml (lit "&#233;") = [233%N].
Proof.
  split; [reflexivity|]. split; [reflexivity|].
  change (lit "&#233;") with (lit "&#" ++ toString10 233 ++ lit ";").
  apply (numeric_reference_decodes 233); reflexivity.
Defined.

End EntityFacts.
